(** * health-data-bricks: the streaming core, embedded in Rocq

    Shallow embedding of
      - [src/core/physics/surprise-filter.ts]  (AdaptiveThreshold, OnlineStats,
        ExponentialPredictor, SurpriseCalculator, SurpriseFilter),
      - the continuous dynamics engine (CfCCell, HealthStateEstimator),
      - the intervention planner (InterventionPlanner).

    A JavaScript [number] is modelled as a real number of the Standard
    Library: arithmetic is exact, [Math.exp], [Math.sqrt], [Math.tanh],
    [Math.abs], [Math.min] and [Math.max] are [exp], [sqrt], [tanh], [Rabs],
    [Rmin] and [Rmax].  Rounding, [NaN] and the infinities are not part of
    the model; division and [sqrt] are total on the reals, so a statement
    that depends on a quotient says that its divisor is positive, as the
    code's guards or the configuration make it.  Counters that the code only
    increments are [nat] or [Z].  Objects mutated in place become explicit
    state passing: a method returns its result together with the new state
    of its receiver; a call that can raise returns a [result]. *)

From Stdlib Require Import Reals Lra Lia List ZArith Bool Sorted.
From stdpp Require Import gmap strings.
Import ListNotations.
#[local] Open Scope R_scope.

(* ===================================================================== *)
(** * Numbers *)
(* ===================================================================== *)

(** [a > b] and [a < b] on numbers, as booleans. *)
Definition Rgtb (a b : R) : bool := if Rlt_dec b a then true else false.
Definition Rltb (a b : R) : bool := if Rlt_dec a b then true else false.

(** [x || d] on numbers: [d] when [x] is falsy, that is when [x] is zero. *)
Definition or_default (x d : R) : R := if Req_dec_T x 0 then d else x.

(** Sum of a list of numbers, [xs.reduce((a, b) => a + b, 0)]. *)
Definition Rsum (xs : list R) : R := fold_left Rplus xs 0.

(* ===================================================================== *)
(** * Online Statistics Tracker *)
(* ===================================================================== *)

Module OnlineStats.

Record t : Type := mk { count : nat; mean : R; m2 : R }.

(** [new OnlineStats()] *)
Definition new : t := {| count := 0; mean := 0; m2 := 0 |}.

Definition update (s : t) (value : R) : t :=
  let count' := S (count s) in
  let delta := value - mean s in
  let mean' := mean s + delta / INR count' in
  let delta2 := value - mean' in
  {| count := count'; mean := mean'; m2 := m2 s + delta * delta2 |}.

Definition getMean (s : t) : R := mean s.

Definition getVariance (s : t) : R :=
  if (1 <? count s)%nat then m2 s / (INR (count s) - 1) else 0.

Definition getStdDev (s : t) : R := sqrt (getVariance s).

Definition getCount (s : t) : nat := count s.

(** The accumulator after [update] was called on each value of [xs] in
    turn, starting from a fresh one. *)
Definition feed (xs : list R) : t := fold_left update xs new.

End OnlineStats.

(* ===================================================================== *)
(** * Adaptive Threshold (EMA-based) *)
(* ===================================================================== *)

Module AdaptiveThreshold.

Record t : Type := mk {
  alpha : R;          (* EMA decay *)
  k : R;              (* standard deviations *)
  initial : R;
  mean : R;
  variance : R;
  initialized : bool
}.

(** [new AdaptiveThreshold(alpha, k, initial)]; the defaults of the
    constructor are 0.1, 2.0 and 1.0. *)
Definition new (alpha k initial : R) : t :=
  {| alpha := alpha; k := k; initial := initial;
     mean := initial; variance := 1; initialized := false |}.

Definition get (s : t) : R := mean s + k s * sqrt (variance s).

Definition update (s : t) (surprise : R) : R * t :=
  let s' :=
    if initialized s then
      let delta := surprise - mean s in
      {| alpha := alpha s; k := k s; initial := initial s;
         mean := alpha s * surprise + (1 - alpha s) * mean s;
         variance := alpha s * delta * delta + (1 - alpha s) * variance s;
         initialized := true |}
    else
      {| alpha := alpha s; k := k s; initial := initial s;
         mean := surprise; variance := 0; initialized := true |} in
  (get s', s').

Definition reset (s : t) : t :=
  {| alpha := alpha s; k := k s; initial := initial s;
     mean := initial s; variance := 1; initialized := false |}.

End AdaptiveThreshold.

(* ===================================================================== *)
(** * Predictive Model (Simple Exponential Smoothing) *)
(* ===================================================================== *)

Module ExponentialPredictor.

Record t : Type := mk {
  alpha : R;           (* level smoothing *)
  beta : R;            (* trend smoothing *)
  level : option R;    (* [null] before the first value *)
  trend : R
}.

(** [new ExponentialPredictor(alpha, beta)]; defaults 0.3 and 0.1. *)
Definition new (alpha beta : R) : t :=
  {| alpha := alpha; beta := beta; level := None; trend := 0 |}.

Definition predict (s : t) : option R :=
  match level s with
  | None => None
  | Some l => Some (l + trend s)
  end.

(** Returns the absolute prediction error and the new predictor. *)
Definition update (s : t) (value : R) : R * t :=
  match level s with
  | None =>
      (0, {| alpha := alpha s; beta := beta s; level := Some value; trend := 0 |})
  | Some l =>
      let prediction := l + trend s in
      let error := value - prediction in
      (* Holt's linear method *)
      let prevLevel := l in
      let level' := alpha s * value + (1 - alpha s) * (l + trend s) in
      let trend' := beta s * (level' - prevLevel) + (1 - beta s) * trend s in
      (Rabs error,
       {| alpha := alpha s; beta := beta s; level := Some level'; trend := trend' |})
  end.

End ExponentialPredictor.

(* ===================================================================== *)
(** * Surprise Calculator *)
(* ===================================================================== *)

Module SurpriseCalculator.

Record SurpriseResult : Type := mkResult {
  surprise : R;
  threshold_value : R;       (* the field [threshold] of the result *)
  keep : bool;
  prediction : option R;
  zscore : R
}.

Record t : Type := mk {
  predictor : ExponentialPredictor.t;
  threshold : AdaptiveThreshold.t;
  stats : OnlineStats.t;
  errorStats : OnlineStats.t
}.

(** [new SurpriseCalculator(alpha, thresholdK)]; defaults 0.3 and 2.0.
    The predictor takes its default [beta], the threshold its default
    [initial]. *)
Definition new (alpha thresholdK : R) : t :=
  {| predictor := ExponentialPredictor.new alpha 0.1;
     threshold := AdaptiveThreshold.new 0.1 thresholdK 1;
     stats := OnlineStats.new;
     errorStats := OnlineStats.new |}.

Definition calculate (c : t) (value : R) : SurpriseResult * t :=
  (* Get prediction *)
  let prediction := ExponentialPredictor.predict (predictor c) in
  (* Calculate surprise (prediction error) *)
  let '(error, predictor') := ExponentialPredictor.update (predictor c) value in
  (* Update error statistics *)
  let errorStats' := OnlineStats.update (errorStats c) error in
  let stats' := OnlineStats.update (stats c) value in
  (* Calculate z-score of error *)
  let errorMean := OnlineStats.getMean errorStats' in
  let errorStd := or_default (OnlineStats.getStdDev errorStats') 1 in
  let zscore := (error - errorMean) / errorStd in
  let surprise := 0.5 * zscore * zscore in
  (* Update adaptive threshold *)
  let '(currentThreshold, threshold') :=
    AdaptiveThreshold.update (threshold c) surprise in
  ({| surprise := surprise;
      threshold_value := currentThreshold;
      keep := Rgtb surprise currentThreshold;
      prediction := prediction;
      zscore := zscore |},
   {| predictor := predictor'; threshold := threshold';
      stats := stats'; errorStats := errorStats' |}).

Definition reset (c : t) : t :=
  {| predictor := ExponentialPredictor.new 0.3 0.1;
     threshold := AdaptiveThreshold.reset (threshold c);
     stats := OnlineStats.new;
     errorStats := OnlineStats.new |}.

(** The calculator after [calculate] was called on each value of [vs] in
    turn. *)
Definition feed (c : t) (vs : list R) : t :=
  fold_left (fun c v => snd (calculate c v)) vs c.

End SurpriseCalculator.

(* ===================================================================== *)
(** * Health records *)
(* ===================================================================== *)

(** The discriminated union [HealthRecord] of [core/types/health-record.ts],
    one constructor per schema, with the numeric fields of each.  Time
    stamps, units, sources and free-form metadata are left out: the filter
    never reads them. *)
Inductive HealthRecord : Type :=
  | HeartRate (value : R)
  | BloodPressure (systolic diastolic : R)
  | BloodOxygen (value : R)
  | BodyTemperature (value : R)
  | RespiratoryRate (value : R)
  | HRV (rmssd sdnn duration : option R)
  | Steps (value : R)
  | Distance (value : R)
  | Calories (value : R)
  | Workout (duration : R) (calories distance avgHeartRate maxHeartRate : option R)
  | SleepSession (duration : R)
  | Weight (value : R)
  | Height (value : R)
  | BodyComposition (bodyFatPercentage muscleMass boneMass waterPercentage : option R)
  | LabResult (value : R + string)
  | NutritionEntry (calories protein carbohydrates fat : option R).

(** The discriminator [record.type]. *)
Definition record_type (r : HealthRecord) : string :=
  match r with
  | HeartRate _ => "heart_rate"
  | BloodPressure _ _ => "blood_pressure"
  | BloodOxygen _ => "blood_oxygen"
  | BodyTemperature _ => "body_temperature"
  | RespiratoryRate _ => "respiratory_rate"
  | HRV _ _ _ => "hrv"
  | Steps _ => "steps"
  | Distance _ => "distance"
  | Calories _ => "calories"
  | Workout _ _ _ _ _ => "workout"
  | SleepSession _ => "sleep"
  | Weight _ => "weight"
  | Height _ => "height"
  | BodyComposition _ _ _ _ => "body_composition"
  | LabResult _ => "lab_result"
  | NutritionEntry _ _ _ _ => "nutrition"
  end.

(** The seven record types [extractValue] has a case for. *)
Definition supported_types : list string :=
  ["heart_rate"; "steps"; "calories"; "sleep"; "weight"; "blood_pressure";
   "blood_oxygen"]%string.

(* ===================================================================== *)
(** * Multi-Metric Surprise Filter *)
(* ===================================================================== *)

Module SurpriseFilter.

Record FilterConfig : Type := mkConfig {
  thresholdK : R;
  minSamples : Z;            (* warmup period *)
  metrics : list string
}.

Definition DEFAULT_FILTER_CONFIG : FilterConfig :=
  {| thresholdK := 2;
     minSamples := 10;
     metrics := ["heart_rate"; "steps"; "sleep_duration"; "calories"]%string |}.

Record FilterResult : Type := mkResult {
  keep : bool;
  totalSurprise : R;
  metricSurprises : gmap string SurpriseCalculator.SurpriseResult;
  reason : string
}.

Record t : Type := mk {
  calculators : gmap string SurpriseCalculator.t;
  sampleCount : Z;
  config : FilterConfig
}.

(** One calculator per configured metric, as the loops of the constructor
    and of [reset] build them. *)
Definition seed_calculators (cfg : FilterConfig)
    (m : gmap string SurpriseCalculator.t) : gmap string SurpriseCalculator.t :=
  fold_left
    (fun m metric => <[metric := SurpriseCalculator.new 0.3 (thresholdK cfg)]> m)
    (metrics cfg) m.

Definition new (cfg : FilterConfig) : t :=
  {| calculators := seed_calculators cfg ∅; sampleCount := 0; config := cfg |}.

(** The switch on [record.type]: the tag selects the variant, and each of
    the seven cases reads the one field named in the source. *)
Definition extractValue (record : HealthRecord) : option R :=
  match record with
  | HeartRate value => Some value
  | Steps value => Some value
  | Calories value => Some value
  | SleepSession duration => Some duration
  | Weight value => Some value
  | BloodPressure systolic _ => Some systolic
  | BloodOxygen value => Some value
  | _ => None
  end.

(** Filter a health record based on surprise. *)
Definition filter (f : t) (record : HealthRecord) : FilterResult * t :=
  let sampleCount' := (sampleCount f + 1)%Z in
  (* During warmup, keep all data *)
  if (sampleCount' <? minSamples (config f))%Z then
    ({| keep := true; totalSurprise := 0; metricSurprises := ∅;
        reason := "warmup" |},
     {| calculators := calculators f; sampleCount := sampleCount';
        config := config f |})
  else
    (* Extract value based on record type *)
    match extractValue record with
    | None =>
        ({| keep := true; totalSurprise := 0; metricSurprises := ∅;
            reason := "unsupported_type" |},
         {| calculators := calculators f; sampleCount := sampleCount';
            config := config f |})
    | Some value =>
        (* Get or create calculator for this type *)
        let calculator :=
          match calculators f !! record_type record with
          | Some c => c
          | None => SurpriseCalculator.new 0.3 (thresholdK (config f))
          end in
        (* Calculate surprise *)
        let '(result, calculator') :=
          SurpriseCalculator.calculate calculator value in
        ({| keep := SurpriseCalculator.keep result;
            totalSurprise := SurpriseCalculator.surprise result;
            metricSurprises := {[ record_type record := result ]};
            reason := if SurpriseCalculator.keep result
                      then "surprising" else "expected" |},
         {| calculators := <[record_type record := calculator']> (calculators f);
            sampleCount := sampleCount';
            config := config f |})
    end.

(** The results of calling [filter] on each record of [records] in turn,
    with the filter left behind. *)
Fixpoint filterEach (f : t) (records : list HealthRecord)
    : list FilterResult * t :=
  match records with
  | [] => ([], f)
  | record :: rest =>
      let '(result, f') := filter f record in
      let '(results, f'') := filterEach f' rest in
      (result :: results, f'')
  end.

Record BatchStats : Type := mkStats {
  total : nat;
  kept_count : nat;
  dropped_count : nat;
  filterRate : R;
  avgSurprise : R
}.

Record BatchResult : Type := mkBatch {
  kept : list HealthRecord;
  dropped : list HealthRecord;
  batch_stats : BatchStats
}.

(** Batch filter with aggregated statistics. *)
Definition filterBatch (f : t) (records : list HealthRecord) : BatchResult * t :=
  let '(kept, dropped, totalSurprise, f') :=
    fold_left
      (fun '(kept, dropped, totalSurprise, f) record =>
         let '(result, f') := filter f record in
         let totalSurprise' := totalSurprise + SurpriseFilter.totalSurprise result in
         if keep result
         then (kept ++ [record], dropped, totalSurprise', f')
         else (kept, dropped ++ [record], totalSurprise', f'))
      records ([], [], 0, f) in
  ({| kept := kept; dropped := dropped;
      batch_stats :=
        {| total := length records;
           kept_count := length kept;
           dropped_count := length dropped;
           filterRate :=
             if (0 <? length records)%nat
             then INR (length dropped) / INR (length records) else 0;
           avgSurprise :=
             if (0 <? length records)%nat
             then totalSurprise / INR (length records) else 0 |} |},
   f').

Definition reset (f : t) : t :=
  {| calculators := seed_calculators (config f) ∅;
     sampleCount := 0;
     config := config f |}.

End SurpriseFilter.

(* ===================================================================== *)
(** * Calls that can raise *)
(* ===================================================================== *)

(** A call either returns a value or raises a [TypeError] (a method called
    on [undefined], [reduce] of an empty array with no initial value). *)
Inductive result (A : Type) : Type :=
  | Ok (a : A)
  | TypeError.
Arguments Ok {A} a.
Arguments TypeError {A}.

#[export] Instance result_ret : MRet result := fun A a => Ok a.
#[export] Instance result_bind : MBind result := fun A B k r =>
  match r with
  | Ok a => k a
  | TypeError => TypeError
  end.

(** A [for ... of] loop whose body can raise. *)
Fixpoint for_of {A B : Type} (body : A -> B -> result A) (l : list B) (a : A)
    : result A :=
  match l with
  | [] => Ok a
  | b :: l' => a' ← body a b; for_of body l' a'
  end.

(* ===================================================================== *)
(** * Vector Math Utilities *)
(* ===================================================================== *)

(** Vectors are arrays of numbers.  [b[i]] is written [nth i b 0]; the
    vectors of a cell all have the length [stateDim] (see [cell_wf]), so no
    read is out of range. *)

Definition sigmoid (x : R) : R := 1 / (1 + exp (- x)).

Definition vectorAdd (a b : list R) : list R := imap (fun i v => v + nth i b 0) a.
Definition vectorScale (a : list R) (s : R) : list R := map (fun v => v * s) a.
Definition vectorMultiply (a b : list R) : list R := imap (fun i v => v * nth i b 0) a.
Definition vectorSubtract (a b : list R) : list R := imap (fun i v => v - nth i b 0) a.
Definition zeros (n : nat) : list R := repeat 0 n.

(** [for (let i = 0; i < n; i++) v[i] = f(i, v[i])] *)
Definition for_index (n : nat) (f : nat -> R -> R) (v : list R) : list R :=
  fold_left (fun v i => <[i := f i (nth i v 0)]> v) (seq 0 n) v.

(* ===================================================================== *)
(** * Closed-form Continuous (CfC) Cell *)
(* ===================================================================== *)

Module CfCCell.

Record CfCConfig : Type := mkConfig {
  stateDim : nat;        (* dimension of hidden state *)
  tauMin : R;            (* fastest reaction time (seconds) *)
  tauMax : R;            (* memory retention time (seconds) *)
  decayDefault : R       (* default decay when no input *)
}.

Definition DEFAULT_CFC_CONFIG : CfCConfig :=
  {| stateDim := 32; tauMin := 0.05; tauMax := 86400; decayDefault := 0.99 |}.

Record t : Type := mk {
  config : CfCConfig;
  state : list R;
  tau : list R;                (* per-dimension time constants *)
  equilibrium : list R;        (* attractor states *)
  lastTimestamp : option R
}.

Definition new (cfg : CfCConfig) : t :=
  {| config := cfg;
     state := zeros (stateDim cfg);
     tau := repeat ((tauMin cfg + tauMax cfg) / 2) (stateDim cfg);
     equilibrium := zeros (stateDim cfg);
     lastTimestamp := None |}.

(** The equilibrium follows the observation with smoothing. *)
Definition updateEquilibrium (c : t) (observation : list R) : list R :=
  let alpha := 0.3 in
  for_index (Nat.min (length observation) (stateDim (config c)))
    (fun i eq_i => alpha * nth i observation 0 + (1 - alpha) * eq_i)
    (equilibrium c).

(** Tau adapts to how much the observation differs from the state. *)
Definition updateTau (c : t) (observation : list R) : list R :=
  for_index (Nat.min (length observation) (stateDim (config c)))
    (fun i tau_i =>
       let diff := Rabs (nth i observation 0 - nth i (state c) 0) in
       let normalizedDiff := tanh diff in
       let targetTau :=
         tauMax (config c) - normalizedDiff * (tauMax (config c) - tauMin (config c)) in
       0.1 * targetTau + 0.9 * tau_i)
    (tau c).

(** The elapsed time [step] uses. *)
Definition step_dt (c : t) (timestamp : R) : R :=
  match lastTimestamp c with
  | None => 0.1
  | Some last => Rmax (timestamp - last) 1e-4
  end.

(** Update state with new observation and time delta.  Returns the new
    state vector and the cell after the call. *)
Definition step (c : t) (observation : list R) (timestamp : R) : list R * t :=
  let dt := step_dt c timestamp in
  let equilibrium' := updateEquilibrium c observation in
  let tau' := updateTau c observation in
  (* Closed-form solution to LTC ODE *)
  let decay := map (fun t => exp (- dt / t)) tau' in
  let newState :=
    vectorAdd (vectorMultiply (state c) decay)
              (vectorMultiply equilibrium' (map (fun d => 1 - d) decay)) in
  (newState,
   {| config := config c; state := newState; tau := tau';
      equilibrium := equilibrium'; lastTimestamp := Some timestamp |}).

(** The elapsed time [predict] uses, once the cell has a time stamp. *)
Definition predict_dt (last futureTimestamp : R) : R :=
  Rmax (futureTimestamp - last) 0.

(** Predict future state without new observation. *)
Definition predict (c : t) (futureTimestamp : R) : list R :=
  match lastTimestamp c with
  | None => zeros (stateDim (config c))
  | Some last =>
      let dt := predict_dt last futureTimestamp in
      let decay := map (fun t => exp (- dt / t)) (tau c) in
      vectorAdd (vectorMultiply (state c) decay)
                (vectorMultiply (equilibrium c) (map (fun d => 1 - d) decay))
  end.

Definition getState (c : t) : list R := state c.
Definition getTau (c : t) : list R := tau c.

Definition reset (c : t) : t := new (config c).

(** The three vectors of a cell have the length [stateDim]. *)
Definition cell_wf (c : t) : Prop :=
  length (state c) = stateDim (config c) /\
  length (tau c) = stateDim (config c) /\
  length (equilibrium c) = stateDim (config c).

End CfCCell.

(* ===================================================================== *)
(** * Health State Estimator *)
(* ===================================================================== *)

Module HealthStateEstimator.

Record DimensionConfig : Type := mkDim {
  name : string;
  tauMin : R;
  tauMax : R
}.

Record HealthStateConfig : Type := mkConfig {
  dimensions : list DimensionConfig
}.

Definition DEFAULT_HEALTH_STATE_CONFIG : HealthStateConfig :=
  {| dimensions :=
       [ mkDim "cardiovascular" 60 3600;       (* 1min to 1hr *)
         mkDim "activity" 300 86400;           (* 5min to 24hr *)
         mkDim "sleep" 3600 604800;            (* 1hr to 1 week *)
         mkDim "stress" 60 7200;               (* 1min to 2hr *)
         mkDim "energy" 1800 86400;            (* 30min to 24hr *)
         mkDim "recovery" 3600 259200;         (* 1hr to 3 days *)
         mkDim "circadian" 43200 172800;       (* 12hr to 48hr *)
         mkDim "metabolic" 1800 28800 ] |}.    (* 30min to 8hr *)

(** [timeSinceUpdate] is a number or [Infinity]. *)
Inductive elapsed : Type :=
  | Elapsed (seconds : R)
  | Infinity.

Record HealthState : Type := mkState {
  timestamp : R;
  state_dimensions : gmap string R;     (* the field [dimensions] *)
  confidence : gmap string R;
  timeSinceUpdate : elapsed
}.

Record t : Type := mk {
  cells : gmap string CfCCell.t;
  config : HealthStateConfig;
  lastUpdateTime : option R
}.

(** The configuration of the cell of one dimension; [decayDefault] comes
    from [DEFAULT_CFC_CONFIG]. *)
Definition cell_config (dim : DimensionConfig) : CfCCell.CfCConfig :=
  {| CfCCell.stateDim := 4;
     CfCCell.tauMin := tauMin dim;
     CfCCell.tauMax := tauMax dim;
     CfCCell.decayDefault := CfCCell.decayDefault CfCCell.DEFAULT_CFC_CONFIG |}.

Definition new (cfg : HealthStateConfig) : t :=
  {| cells :=
       fold_left (fun m dim => <[name dim := CfCCell.new (cell_config dim)]> m)
                 (dimensions cfg) ∅;
     config := cfg;
     lastUpdateTime := None |}.

(** Aggregate the state vector of a cell to a scalar (weighted sum). *)
Definition aggregate (state : list R) : R :=
  nth 0 state 0 * 0.5 + nth 1 state 0 * 0.3
  + nth 2 state 0 * 0.15 + nth 3 state 0 * 0.05.

Definition avgTau (tau : list R) : R := Rsum tau / INR (length tau).

(** The observation vector of a dimension (expand scalar to vector); a
    dimension with no observation counts as 0. *)
Definition obsVector (observations : gmap string R) (dim : DimensionConfig) : list R :=
  let obsValue := default 0 (observations !! name dim) in
  [obsValue; obsValue * 0.5; obsValue * 0.25; obsValue * 0.125].

(** The body of the loop of [update]; [cells.get(dim.name)!] raises when
    there is no such cell. *)
Definition update_dim (observations : gmap string R) (timestamp : R)
    (acc : gmap string CfCCell.t * gmap string R * gmap string R)
    (dim : DimensionConfig)
    : result (gmap string CfCCell.t * gmap string R * gmap string R) :=
  let '(cells, dims, conf) := acc in
  match cells !! name dim with
  | None => TypeError
  | Some cell =>
      let '(state, cell') :=
        CfCCell.step cell (obsVector observations dim) timestamp in
      let tau := CfCCell.getTau cell' in
      Ok (<[name dim := cell']> cells,
          <[name dim := aggregate state]> dims,
          <[name dim := exp (- 0.1 / avgTau tau)]> conf)
  end.

(** Update health state with new observations. *)
Definition update (e : t) (observations : gmap string R) (timestamp : R)
    : result (HealthState * t) :=
  '(cells', dims, conf) ←
     for_of (update_dim observations timestamp) (dimensions (config e))
            (cells e, ∅, ∅);
  Ok ({| timestamp := timestamp; state_dimensions := dims;
         confidence := conf; timeSinceUpdate := Elapsed 0 |},
      {| cells := cells'; config := config e;
         lastUpdateTime := Some timestamp |}).

(** [this.lastUpdateTime ? x : y] takes the second branch when the time
    is [null] and when it is the number 0. *)
Definition truthy_time (lastUpdateTime : option R) : option R :=
  match lastUpdateTime with
  | Some last => if Req_dec_T last 0 then None else Some last
  | None => None
  end.

(** The horizon the confidence of [predict] decays with. *)
Definition confidence_dt (e : t) (futureTimestamp : R) : R :=
  match truthy_time (lastUpdateTime e) with
  | Some last => futureTimestamp - last
  | None => 0
  end.

Definition predict_dim (e : t) (futureTimestamp : R)
    (acc : gmap string R * gmap string R) (dim : DimensionConfig)
    : result (gmap string R * gmap string R) :=
  let '(dims, conf) := acc in
  match cells e !! name dim with
  | None => TypeError
  | Some cell =>
      let state := CfCCell.predict cell futureTimestamp in
      (* Confidence decays with prediction horizon *)
      let dt := confidence_dt e futureTimestamp in
      let tau := CfCCell.getTau cell in
      Ok (<[name dim := aggregate state]> dims,
          <[name dim := exp (- dt / avgTau tau)]> conf)
  end.

(** Get predicted state at future time. *)
Definition predict (e : t) (futureTimestamp : R) : result HealthState :=
  '(dims, conf) ←
     for_of (predict_dim e futureTimestamp) (dimensions (config e)) (∅, ∅);
  Ok {| timestamp := futureTimestamp; state_dimensions := dims;
        confidence := conf;
        timeSinceUpdate :=
          match truthy_time (lastUpdateTime e) with
          | Some last => Elapsed (futureTimestamp - last)
          | None => Infinity
          end |}.

(** Get current state. *)
Definition getCurrentState (e : t) : result (option HealthState) :=
  match lastUpdateTime e with
  | None => Ok None
  | Some last => hs ← predict e last; Ok (Some hs)
  end.

(** Reset all cells. *)
Definition reset (e : t) : t :=
  {| cells := CfCCell.reset <$> cells e;
     config := config e;
     lastUpdateTime := None |}.

(** Every configured dimension has its cell, and the cells are well
    formed; the constructor establishes this and [update] keeps it. *)
Definition estimator_wf (e : t) : Prop :=
  (forall dim, In dim (dimensions (config e)) -> is_Some (cells e !! name dim)) /\
  (forall n c, cells e !! n = Some c -> CfCCell.cell_wf c).

End HealthStateEstimator.

(* ===================================================================== *)
(** * Intervention Planner *)
(* ===================================================================== *)

(** [array.slice(0, end)] for an integer [end]: a negative [end] counts
    from the end of the array. *)
Definition slice_0 {A : Type} (end_ : Z) (l : list A) : list A :=
  if (end_ <? 0)%Z
  then firstn (Z.to_nat (Z.max (Z.of_nat (length l) + end_) 0)) l
  else firstn (Z.to_nat end_) l.

Module InterventionPlanner.

Record ActionEffect : Type := mkEffect {
  dimension : string;      (* health dimension affected *)
  magnitude : R;           (* expected change (-1 to 1) *)
  confidence : R;          (* how sure we are (0-1) *)
  timeToEffect : R         (* minutes until effect manifests *)
}.

Record Action : Type := mkAction {
  id : string;
  name : string;
  category : string;
  cost : R;                (* effort required (0-1) *)
  duration : R;            (* minutes *)
  effects : list ActionEffect
}.

Record PlannedAction : Type := mkPlanned {
  action : Action;
  weight : R;              (* how strongly recommended *)
  priority : nat;          (* order of importance *)
  expectedImpact : gmap string R
}.

(** What an explanation sentence is printed from: the name of the action
    and its main effect.  The formatting of the percentage
    ([toFixed]) is left out. *)
Record Explanation : Type := mkExplanation {
  explained_action : string;
  main_dimension : string;
  main_magnitude : R
}.

Record InterventionPlan : Type := mkPlan {
  actions : list PlannedAction;
  expectedGap : R;
  totalCost : R;
  activeCount : nat;
  explanation : list Explanation
}.

Definition DEFAULT_ACTIONS : list Action :=
  [ (* Physical Activity *)
    mkAction "walk_15min" "15-minute walk" "activity" 0.2 15
      [ mkEffect "cardiovascular" 0.3 0.9 5;
        mkEffect "energy" 0.2 0.8 15;
        mkEffect "stress" (-0.2) 0.7 10 ];
    mkAction "hiit_20min" "20-minute HIIT workout" "activity" 0.6 20
      [ mkEffect "cardiovascular" 0.6 0.9 5;
        mkEffect "metabolic" 0.4 0.8 30;
        mkEffect "stress" (-0.3) 0.7 20;
        mkEffect "energy" (-0.2) 0.6 0 ];
    mkAction "stretch_10min" "10-minute stretching" "activity" 0.1 10
      [ mkEffect "stress" (-0.2) 0.8 5;
        mkEffect "recovery" 0.15 0.7 10 ];
    (* Recovery *)
    mkAction "power_nap" "20-minute power nap" "recovery" 0.3 25
      [ mkEffect "energy" 0.4 0.8 25;
        mkEffect "stress" (-0.3) 0.7 25;
        mkEffect "recovery" 0.2 0.6 25 ];
    mkAction "sleep_8hr" "Full 8-hour sleep" "recovery" 0.1 480
      [ mkEffect "energy" 0.8 0.9 480;
        mkEffect "recovery" 0.9 0.9 480;
        mkEffect "stress" (-0.5) 0.8 480;
        mkEffect "cardiovascular" 0.2 0.7 480 ];
    (* Stress Management *)
    mkAction "breathwork_5min" "5-minute breathwork" "stress" 0.05 5
      [ mkEffect "stress" (-0.3) 0.9 2;
        mkEffect "cardiovascular" (-0.1) 0.8 2 ];
    mkAction "meditation_10min" "10-minute meditation" "stress" 0.15 10
      [ mkEffect "stress" (-0.4) 0.85 5;
        mkEffect "energy" 0.1 0.6 10 ];
    mkAction "cold_shower" "2-minute cold shower" "stress" 0.4 5
      [ mkEffect "energy" 0.5 0.8 2;
        mkEffect "stress" (-0.2) 0.7 5;
        mkEffect "recovery" 0.1 0.6 30 ];
    (* Nutrition *)
    mkAction "hydrate" "Drink 500ml water" "nutrition" 0.02 1
      [ mkEffect "energy" 0.1 0.7 15;
        mkEffect "metabolic" 0.05 0.6 30 ];
    mkAction "healthy_meal" "Balanced meal" "nutrition" 0.2 30
      [ mkEffect "energy" 0.3 0.8 60;
        mkEffect "metabolic" 0.2 0.7 120 ];
    (* Social *)
    mkAction "social_call" "Call a friend" "social" 0.15 15
      [ mkEffect "stress" (-0.25) 0.7 5;
        mkEffect "energy" 0.15 0.6 15 ];
    (* Digital *)
    mkAction "digital_detox_1hr" "1-hour digital detox" "digital" 0.3 60
      [ mkEffect "stress" (-0.2) 0.7 30;
        mkEffect "energy" 0.1 0.5 60 ] ].

Record PlannerConfig : Type := mkConfig {
  lambda : R;              (* sparsity regularization *)
  maxActions : Z;          (* maximum actions to recommend *)
  costWeight : R;          (* how much to penalize high-cost actions *)
  library : list Action    (* the field [actions] *)
}.

Definition DEFAULT_PLANNER_CONFIG : PlannerConfig :=
  {| lambda := 0.1; maxActions := 5; costWeight := 0.3;
     library := DEFAULT_ACTIONS |}.

(** The same configuration with another sparsity weight. *)
Definition with_lambda (cfg : PlannerConfig) (l : R) : PlannerConfig :=
  {| lambda := l; maxActions := maxActions cfg; costWeight := costWeight cfg;
     library := library cfg |}.

Record Constraints : Type := mkConstraints {
  maxCost : option R;
  maxDuration : option R;
  excludeCategories : option (list string)
}.

Record t : Type := mk {
  config : PlannerConfig;
  causalMatrix : gmap string (gmap string R)
}.

(** Build action -> dimension effect matrix. *)
Definition buildCausalMatrix (cfg : PlannerConfig) : gmap string (gmap string R) :=
  fold_left
    (fun m a =>
       <[id a :=
           fold_left
             (fun es e => <[dimension e := magnitude e * confidence e]> es)
             (effects a) ∅]> m)
    (library cfg) ∅.

Definition new (cfg : PlannerConfig) : t :=
  {| config := cfg; causalMatrix := buildCausalMatrix cfg |}.

(** [record[key] || 0] *)
Definition get_or_0 (record : gmap string R) (key : string) : R :=
  or_default (default 0 (record !! key)) 0.

Definition calculateGap (current target : gmap string R) : gmap string R :=
  let allDims : gset string := dom current ∪ dom target in
  set_to_map (fun dim => (dim, get_or_0 target dim - get_or_0 current dim)) allDims.

Record ScoredAction : Type := mkScored {
  scored_action : Action;
  score : R
}.

(** The body of the loop over the effects of one action: the benefit and
    the total weight accumulated so far, then one more effect. *)
Definition score_effect (gap : gmap string R) (acc : R * R) (effect : ActionEffect)
    : R * R :=
  let '(benefit, totalWeight) := acc in
  let dimGap := get_or_0 gap (dimension effect) in
  let benefit' :=
    (* Benefit if effect direction matches gap direction *)
    if (Rgtb dimGap 0 && Rgtb (magnitude effect) 0)
       || (Rltb dimGap 0 && Rltb (magnitude effect) 0)
    then benefit + Rmin (Rabs dimGap) (Rabs (magnitude effect)) * confidence effect
    else if Rgtb (Rabs (magnitude effect)) (Rabs dimGap * 2)
    (* Penalty if effect overshoots significantly *)
    then benefit - 0.1 * Rabs (magnitude effect) * confidence effect
    else benefit in
  (benefit', totalWeight + confidence effect).

(** The score of one action. *)
Definition score_action (cfg : PlannerConfig) (gap : gmap string R) (a : Action) : R :=
  let '(benefit, totalWeight) := fold_left (score_effect gap) (effects a) (0, 0) in
  (* Normalize and apply regularization *)
  let benefit := if Rgtb totalWeight 0 then benefit / totalWeight else benefit in
  (* L1-like sparsity penalty *)
  let sparsityPenalty := lambda cfg in
  (* Cost penalty *)
  let costPenalty := costWeight cfg * cost a in
  Rmax 0 (benefit - sparsityPenalty - costPenalty).

(** [scores.sort((a, b) => b.score - a.score)]: a stable sort by
    descending score, here by insertion. *)
Fixpoint insert_by_score (x : ScoredAction) (l : list ScoredAction)
    : list ScoredAction :=
  match l with
  | [] => [x]
  | y :: l' =>
      if Rle_dec (score y) (score x) then x :: y :: l'
      else y :: insert_by_score x l'
  end.

Definition sort_by_score (l : list ScoredAction) : list ScoredAction :=
  fold_right insert_by_score [] l.

(** An action over the cost budget is skipped. *)
Definition within_budget (maxCost : option R) (a : Action) : bool :=
  match maxCost with
  | Some c => negb (Rgtb (cost a) c)
  | None => true
  end.

Definition scoreActions (cfg : PlannerConfig) (available : list Action)
    (gap : gmap string R) (maxCost : option R) : list ScoredAction :=
  let scores :=
    map (fun a => {| scored_action := a; score := score_action cfg gap a |})
        (List.filter (within_budget maxCost) available) in
  sort_by_score scores.

Definition calculateImpact (a : Action) (dimensions : gset string) : gmap string R :=
  set_to_map
    (fun dim =>
       (dim,
        match find (fun e => String.eqb (dimension e) dim) (effects a) with
        | Some effect => magnitude effect * confidence effect
        | None => 0
        end))
    dimensions.

(** [action.effects.reduce((best, e) => |e.magnitude| > |best.magnitude|
    ? e : best)], which raises on an action with no effect. *)
Definition mainEffect (a : Action) : result ActionEffect :=
  match effects a with
  | [] => TypeError
  | e0 :: rest =>
      Ok (fold_left
            (fun best e =>
               if Rgtb (Rabs (magnitude e)) (Rabs (magnitude best)) then e else best)
            rest e0)
  end.

(** The filters of [plan] on the action library. *)
Definition availableActions (cfg : PlannerConfig) (constraints : option Constraints)
    : list Action :=
  let available := library cfg in
  let available :=
    match constraints ≫= excludeCategories with
    | Some excluded =>
        List.filter (fun a => negb (bool_decide (category a ∈ excluded))) available
    | None => available
    end in
  match constraints ≫= maxDuration with
  | Some d =>
      if Req_dec_T d 0 then available
      else List.filter (fun a => negb (Rgtb (duration a) d)) available
  | None => available
  end.

(** The actions [plan] selects (sparsity via selection). *)
Definition selectActions (cfg : PlannerConfig) (gap : gmap string R)
    (constraints : option Constraints) : list ScoredAction :=
  let actionScores :=
    scoreActions cfg (availableActions cfg constraints) gap
                 (constraints ≫= maxCost) in
  slice_0 (maxActions cfg) (List.filter (fun a => Rgtb (score a) 0.1) actionScores).

(** One turn of the loop of [plan] over the selected actions. *)
Definition plan_step (dimensions : gset string)
    (acc : gmap string R * list PlannedAction * list Explanation)
    (selected : ScoredAction)
    : result (gmap string R * list PlannedAction * list Explanation) :=
  let '(predictedGap, plannedActions, explanations) := acc in
  let a := scored_action selected in
  let impact := calculateImpact a dimensions in
  (* Update predicted gap *)
  let predictedGap' :=
    map_imap (fun dim g => Some (g - get_or_0 impact dim)) predictedGap in
  let planned :=
    {| action := a; weight := score selected;
       priority := S (length plannedActions);
       expectedImpact := impact |} in
  (* Generate explanation *)
  main ← mainEffect a;
  Ok (predictedGap',
      plannedActions ++ [planned],
      explanations ++ [ {| explained_action := name a;
                           main_dimension := dimension main;
                           main_magnitude := magnitude main |} ]).

(** Plan interventions to move from current state to target. *)
Definition plan (p : t) (currentState targetState : gmap string R)
    (constraints : option Constraints) : result InterventionPlan :=
  let gap := calculateGap currentState targetState in
  let dimensions := dom gap in
  let selectedActions := selectActions (config p) gap constraints in
  '(predictedGap, plannedActions, explanations) ←
     for_of (plan_step dimensions) selectedActions (gap, [], []);
  (* Calculate final gap *)
  let expectedGap := map_fold (fun _ v acc => acc + v * v) 0 predictedGap in
  Ok {| actions := plannedActions;
        expectedGap := sqrt expectedGap;
        totalCost := fold_left (fun sum a => sum + cost (action a)) plannedActions 0;
        activeCount := length plannedActions;
        explanation := explanations |}.

(** Get recommended single action for quick improvement. *)
Definition quickWin (p : t) (currentState targetState : gmap string R)
    : result (option PlannedAction) :=
  pl ← plan p currentState targetState
          (Some {| maxCost := Some 0.3; maxDuration := Some 15;
                   excludeCategories := None |});
  Ok (head (actions pl)).

End InterventionPlanner.

(** ** The two-pass computation, following the words of the specification *)

(** Arithmetic mean of a sequence. *)
Definition arith_mean (xs : list R) : R :=
  fold_right Rplus 0 xs / INR (length xs).

(** Sum of the squared deviations from [m]. *)
Definition sum_sq_dev (m : R) (xs : list R) : R :=
  fold_right (fun x acc => (x - m) * (x - m) + acc) 0 xs.

(** Unbiased sample variance, 0 for fewer than two values. *)
Definition sample_variance (xs : list R) : R :=
  if (length xs <=? 1)%nat then 0
  else sum_sq_dev (arith_mean xs) xs / (INR (length xs) - 1).

(** What the accumulator knows about the values [xs] it has seen. *)
Definition welford_inv (s : OnlineStats.t) (xs : list R) : Prop :=
  OnlineStats.count s = length xs /\
  INR (OnlineStats.count s) * OnlineStats.mean s = fold_right Rplus 0 xs /\
  OnlineStats.m2 s = sum_sq_dev (OnlineStats.mean s) xs.

(** ** The z-score as the specification words it *)

(** [(error - errorStats.mean) / max(errorStats.stdDev, 1)], for the call
    [calculate(value)] on the calculator [c]: [error] is what the predictor
    returns for [value], and the statistics are those after the call. *)
Definition claimed_zscore (c : SurpriseCalculator.t) (value : R) : R :=
  let error := fst (ExponentialPredictor.update (SurpriseCalculator.predictor c) value) in
  let es := SurpriseCalculator.errorStats (snd (SurpriseCalculator.calculate c value)) in
  (error - OnlineStats.getMean es) / Rmax (OnlineStats.getStdDev es) 1.

(** ** The score of an action as the specification words it *)

(** The effect points the way the gap does. *)
Definition same_direction (dimGap magnitude : R) : Prop :=
  (0 < dimGap /\ 0 < magnitude) \/ (dimGap < 0 /\ magnitude < 0).

Definition same_directionb (dimGap magnitude : R) : bool :=
  (Rgtb dimGap 0 && Rgtb magnitude 0) || (Rltb dimGap 0 && Rltb magnitude 0).

(** Two independent rules per effect: a benefit when the signs match, and
    a penalty when the magnitude is more than twice the gap. *)
Definition claimed_effect_benefit (gap : gmap string R)
    (e : InterventionPlanner.ActionEffect) : R :=
  let dimGap := InterventionPlanner.get_or_0 gap (InterventionPlanner.dimension e) in
  let m := InterventionPlanner.magnitude e in
  let c := InterventionPlanner.confidence e in
  (if same_directionb dimGap m then Rmin (Rabs dimGap) (Rabs m) * c else 0)
  - (if Rgtb (Rabs m) (2 * Rabs dimGap) then 0.1 * Rabs m * c else 0).

Definition claimed_score (cfg : InterventionPlanner.PlannerConfig)
    (gap : gmap string R) (a : InterventionPlanner.Action) : R :=
  let es := InterventionPlanner.effects a in
  let benefit := fold_right Rplus 0 (map (claimed_effect_benefit gap) es) in
  let totalConfidence := fold_right Rplus 0 (map InterventionPlanner.confidence es) in
  Rmax 0 (benefit / totalConfidence
          - InterventionPlanner.lambda cfg
          - InterventionPlanner.costWeight cfg * InterventionPlanner.cost a).

(** ** Invariants of the estimator *)

(** The time constants a cell divides by are positive, and its
    configuration keeps them so. *)
Definition cell_tau_pos (c : CfCCell.t) : Prop :=
  0 < CfCCell.tauMin (CfCCell.config c) <= CfCCell.tauMax (CfCCell.config c) /\
  Forall (fun t => 0 < t) (CfCCell.tau c).

(** An estimator whose configured dimensions all have a cell, with cells
    that are well formed and divide by positive time constants. *)
Definition estimator_ok (e : HealthStateEstimator.t) : Prop :=
  HealthStateEstimator.estimator_wf e /\
  forall n c, HealthStateEstimator.cells e !! n = Some c -> cell_tau_pos c.

(** The names of the configured dimensions. *)
Definition dimension_names (cfg : HealthStateEstimator.HealthStateConfig) : list string :=
  map HealthStateEstimator.name (HealthStateEstimator.dimensions cfg).

(* ===================================================================== *)
(** * Runs of calls and the invariants of the further properties *)
(* ===================================================================== *)

(** The threshold after [update] was called on each surprise of [xs]. *)
Definition threshold_feed (s : AdaptiveThreshold.t) (xs : list R) : AdaptiveThreshold.t :=
  fold_left (fun s x => snd (AdaptiveThreshold.update s x)) xs s.




(** A calculator that has only seen the value [v]. *)
Definition steady (c : SurpriseCalculator.t) (v : R) : Prop :=
  ExponentialPredictor.level (SurpriseCalculator.predictor c) = Some v /\
  ExponentialPredictor.trend (SurpriseCalculator.predictor c) = 0 /\
  OnlineStats.mean (SurpriseCalculator.errorStats c) = 0 /\
  OnlineStats.m2 (SurpriseCalculator.errorStats c) = 0 /\
  AdaptiveThreshold.mean (SurpriseCalculator.threshold c) = 0 /\
  AdaptiveThreshold.variance (SurpriseCalculator.threshold c) = 0 /\
  AdaptiveThreshold.initialized (SurpriseCalculator.threshold c) = true.

(** The records of a batch that [filter] kept, and those it dropped, read
    off the results of the calls. *)
Definition kept_of (records : list HealthRecord)
    (results : list SurpriseFilter.FilterResult) : list HealthRecord :=
  map fst (List.filter (fun p => SurpriseFilter.keep (snd p)) (combine records results)).

Definition dropped_of (records : list HealthRecord)
    (results : list SurpriseFilter.FilterResult) : list HealthRecord :=
  map fst (List.filter (fun p => negb (SurpriseFilter.keep (snd p)))
                       (combine records results)).

(** The sum of the surprises of the calls. *)
Definition total_surprise (results : list SurpriseFilter.FilterResult) : R :=
  fold_right Rplus 0 (map SurpriseFilter.totalSurprise results).


(** ** A worked example for the planner *)

(** One action of the default library, alone in a library with the default
    weights, and two states between which it is worth taking. *)
Definition meditation_10min : InterventionPlanner.Action :=
  InterventionPlanner.mkAction "meditation_10min" "10-minute meditation" "stress" 0.15 10
    [ InterventionPlanner.mkEffect "stress" (-0.4) 0.85 5;
      InterventionPlanner.mkEffect "energy" 0.1 0.6 10 ].

Definition meditation_only : InterventionPlanner.PlannerConfig :=
  {| InterventionPlanner.lambda := 0.1;
     InterventionPlanner.maxActions := 5;
     InterventionPlanner.costWeight := 0.3;
     InterventionPlanner.library := [meditation_10min] |}.

Definition stressed : gmap string R := {[ "stress"%string := 0.9; "energy"%string := 0.2 ]}.
Definition relaxed : gmap string R := {[ "stress"%string := 0.2; "energy"%string := 0.8 ]}.

(* ===================================================================== *)
(** * Theorems: OnlineStats *)
(* ===================================================================== *)

Section Welford.

Import OnlineStats.

Lemma sum_app (xs ys : list R) :
  fold_right Rplus 0 (xs ++ ys) = fold_right Rplus 0 xs + fold_right Rplus 0 ys.
Proof. induction xs as [|x xs IH]; simpl; [ring | rewrite IH; ring]. Qed.

Lemma sum_sq_dev_app (m : R) (xs ys : list R) :
  sum_sq_dev m (xs ++ ys) = sum_sq_dev m xs + sum_sq_dev m ys.
Proof.
  unfold sum_sq_dev. induction xs as [|x xs IH]; simpl; [ring | rewrite IH; ring].
Qed.

Lemma sum_sq_dev_single (m x : R) : sum_sq_dev m [x] = (x - m) * (x - m).
Proof. unfold sum_sq_dev; simpl; ring. Qed.

(** Moving the centre from [m] to [m']. *)
Lemma sum_sq_dev_shift (m m' : R) (xs : list R) :
  sum_sq_dev m' xs =
  sum_sq_dev m xs
  + 2 * (m - m') * (fold_right Rplus 0 xs - INR (length xs) * m)
  + INR (length xs) * ((m - m') * (m - m')).
Proof.
  induction xs as [|x xs IH].
  - simpl. ring.
  - change (sum_sq_dev m' (x :: xs)) with ((x - m') * (x - m') + sum_sq_dev m' xs).
    change (sum_sq_dev m (x :: xs)) with ((x - m) * (x - m) + sum_sq_dev m xs).
    change (fold_right Rplus 0 (x :: xs)) with (x + fold_right Rplus 0 xs).
    change (length (x :: xs)) with (S (length xs)).
    rewrite IH, S_INR. ring.
Qed.

Lemma welford_inv_new : welford_inv new [].
Proof. unfold welford_inv; simpl. repeat split; ring. Qed.

Lemma welford_inv_update (s : t) (xs : list R) (x : R) :
  welford_inv s xs -> welford_inv (update s x) (xs ++ [x]).
Proof.
  intros (Hc & Hm & H2).
  assert (Hn : INR (S (count s)) <> 0) by (apply not_0_INR; lia).
  assert (Hmean : INR (S (count s)) * mean (update s x)
                  = fold_right Rplus 0 (xs ++ [x])).
  { rewrite sum_app. simpl fold_right. rewrite <- Hm.
    unfold update; cbn [mean count]. rewrite S_INR in *. field. exact Hn. }
  split; [|split].
  - unfold update; cbn [count]. rewrite length_app, Hc. simpl. lia.
  - exact Hmean.
  - rewrite sum_sq_dev_app, (sum_sq_dev_shift (mean s) _ xs), <- H2, <- Hm, <- Hc.
    rewrite sum_sq_dev_single.
    unfold update; cbn [mean count m2]. rewrite S_INR in *. field. exact Hn.
Qed.

Lemma welford_inv_fold (ys : list R) : forall (s : t) (xs : list R),
  welford_inv s xs -> welford_inv (fold_left update ys s) (xs ++ ys).
Proof.
  induction ys as [|y ys IH]; intros s xs H; simpl.
  - rewrite app_nil_r. exact H.
  - replace (xs ++ y :: ys) with ((xs ++ [y]) ++ ys) by (rewrite <- app_assoc; reflexivity).
    apply IH, welford_inv_update, H.
Qed.

Lemma welford_inv_feed (xs : list R) : welford_inv (feed xs) xs.
Proof. apply (welford_inv_fold xs new []), welford_inv_new. Qed.

End Welford.

(** C5.  After [update] has been fed a sequence of values, [getVariance] is
    the unbiased sample variance of the sequence as a direct two-pass
    computation gives it (0 for fewer than two values), and, when the
    sequence is not empty, [getMean] is its arithmetic mean. *)
Theorem OnlineStats_matches_two_pass (xs : list R) :
  OnlineStats.getVariance (OnlineStats.feed xs) = sample_variance xs /\
  OnlineStats.getCount (OnlineStats.feed xs) = length xs /\
  (xs <> [] -> OnlineStats.getMean (OnlineStats.feed xs) = arith_mean xs).
Proof.
  destruct (welford_inv_feed xs) as (Hc & Hm & H2).
  assert (Hmean : xs <> [] -> OnlineStats.mean (OnlineStats.feed xs) = arith_mean xs).
  { intros Hne. unfold arith_mean. rewrite <- Hm, Hc.
    assert (INR (length xs) <> 0).
    { apply not_0_INR. destruct xs; [congruence | simpl; lia]. }
    field. assumption. }
  split; [|split].
  - unfold OnlineStats.getVariance, sample_variance. rewrite Hc.
    destruct (Nat.leb_spec (length xs) 1) as [Hle|Hgt].
    + replace (1 <? length xs)%nat with false by (symmetry; apply Nat.ltb_ge; lia).
      reflexivity.
    + replace (1 <? length xs)%nat with true by (symmetry; apply Nat.ltb_lt; lia).
      rewrite H2, Hmean; [reflexivity|]. intros ->; simpl in Hgt; lia.
  - exact Hc.
  - exact Hmean.
Qed.

(* ===================================================================== *)
(** * Theorems: SurpriseFilter *)
(* ===================================================================== *)

Section Filter.

Import SurpriseFilter.

(** [filter] always counts the call and never touches the configuration. *)
Lemma filter_counts (f : t) (r : HealthRecord) :
  sampleCount (snd (filter f r)) = (sampleCount f + 1)%Z /\
  config (snd (filter f r)) = config f.
Proof.
  unfold filter.
  destruct (sampleCount f + 1 <? minSamples (config f))%Z; [done|].
  destruct (extractValue r); [|done].
  destruct (SurpriseCalculator.calculate _ _); done.
Qed.

(** The reason of a result says on which side of the warmup test the
    call went. *)
Lemma filter_reason_warmup (f : t) (r : HealthRecord) :
  reason (fst (filter f r)) = "warmup"%string <->
  (sampleCount f + 1 < minSamples (config f))%Z.
Proof.
  unfold filter.
  destruct (Z.ltb_spec (sampleCount f + 1) (minSamples (config f))) as [Hlt|Hge].
  - simpl. split; [intros _; exact Hlt | reflexivity].
  - split; [|lia]. intros Hreason. exfalso.
    destruct (extractValue r); [|discriminate Hreason].
    destruct (SurpriseCalculator.calculate _ _) as [res c'].
    simpl in Hreason. destruct (SurpriseCalculator.keep res); discriminate Hreason.
Qed.

(** [extractValue] has a value exactly for the seven supported types. *)
Lemma extractValue_supported (r : HealthRecord) :
  is_Some (extractValue r) <-> In (record_type r) supported_types.
Proof.
  split.
  - destruct r; simpl; intros [v Hv]; try discriminate Hv; tauto.
  - destruct r; simpl; intros H; eauto;
      repeat (destruct H as [H|H]; [discriminate H|]); destruct H.
Qed.

Lemma filterEach_length (rs : list HealthRecord) : forall f : t,
  length (fst (filterEach f rs)) = length rs.
Proof.
  induction rs as [|r rs IH]; intros f; simpl; [reflexivity|].
  destruct (filter f r) as [res f'].
  specialize (IH f'). destruct (filterEach f' rs) as [ress f'']. simpl in *. lia.
Qed.

(** The [i]-th call of a run is a warmup call exactly when the counter,
    incremented [i + 1] times, is still below [minSamples]. *)
Lemma filterEach_reason (rs : list HealthRecord) : forall (f : t) (i : nat) res,
  fst (filterEach f rs) !! i = Some res ->
  (reason res = "warmup"%string <->
   (sampleCount f + Z.of_nat i + 1 < minSamples (config f))%Z).
Proof.
  induction rs as [|r rs IH]; intros f i res; simpl.
  - intros H. discriminate H.
  - pose proof (filter_counts f r) as [Hcount Hconfig].
    pose proof (filter_reason_warmup f r) as Hreason.
    destruct (filter f r) as [res0 f']. simpl in *.
    specialize (IH f'). destruct (filterEach f' rs) as [ress f'']. simpl in *.
    destruct i as [|i]; simpl.
    + intros [= <-]. rewrite Hreason. lia.
    + intros Hi. rewrite (IH i res Hi), Hcount, Hconfig. lia.
Qed.

End Filter.

(** C2.  A call of [filter] that finds the sample counter, once it has
    counted the call, below [minSamples] returns [keep = true] with the
    reason ['warmup'], total surprise 0 and no metric surprise, and leaves
    the map of calculators, hence every calculator in it, as it was. *)
Theorem filter_warmup_keeps_and_frames (f : SurpriseFilter.t) (r : HealthRecord) :
  (SurpriseFilter.sampleCount f + 1 < SurpriseFilter.minSamples (SurpriseFilter.config f))%Z ->
  SurpriseFilter.keep (fst (SurpriseFilter.filter f r)) = true /\
  SurpriseFilter.reason (fst (SurpriseFilter.filter f r)) = "warmup"%string /\
  SurpriseFilter.totalSurprise (fst (SurpriseFilter.filter f r)) = 0 /\
  SurpriseFilter.metricSurprises (fst (SurpriseFilter.filter f r)) = ∅ /\
  SurpriseFilter.calculators (snd (SurpriseFilter.filter f r)) = SurpriseFilter.calculators f /\
  SurpriseFilter.sampleCount (snd (SurpriseFilter.filter f r)) = (SurpriseFilter.sampleCount f + 1)%Z.
Proof.
  intros Hlt. unfold SurpriseFilter.filter.
  apply Z.ltb_lt in Hlt. rewrite Hlt. simpl. repeat split.
Qed.

Lemma filter_warmup_keeps_and_frames_witness :
  let f := SurpriseFilter.new SurpriseFilter.DEFAULT_FILTER_CONFIG in
  SurpriseFilter.keep (fst (SurpriseFilter.filter f (HeartRate 70))) = true /\
  SurpriseFilter.reason (fst (SurpriseFilter.filter f (HeartRate 70))) = "warmup"%string /\
  SurpriseFilter.calculators (snd (SurpriseFilter.filter f (HeartRate 70)))
  = SurpriseFilter.calculators f.
Proof.
  intros f.
  destruct (filter_warmup_keeps_and_frames f (HeartRate 70)) as (H1 & H2 & _ & _ & H5 & _).
  - simpl. lia.
  - exact (conj H1 (conj H2 H5)).
Defined.

(** C6.  [filter] is a total function: no call raises.  Past warmup, a
    record whose type is not one of the seven supported types has no
    scalar, is kept with the reason ['unsupported_type'], and leaves the
    calculators as they were. *)
Theorem filter_keeps_unsupported (f : SurpriseFilter.t) (r : HealthRecord) :
  (SurpriseFilter.minSamples (SurpriseFilter.config f) <= SurpriseFilter.sampleCount f + 1)%Z ->
  ~ In (record_type r) supported_types ->
  SurpriseFilter.extractValue r = None /\
  SurpriseFilter.keep (fst (SurpriseFilter.filter f r)) = true /\
  SurpriseFilter.reason (fst (SurpriseFilter.filter f r)) = "unsupported_type"%string /\
  SurpriseFilter.totalSurprise (fst (SurpriseFilter.filter f r)) = 0 /\
  SurpriseFilter.calculators (snd (SurpriseFilter.filter f r)) = SurpriseFilter.calculators f.
Proof.
  intros Hge Hty.
  assert (Hnone : SurpriseFilter.extractValue r = None).
  { destruct (SurpriseFilter.extractValue r) eqn:E; [|reflexivity].
    exfalso. apply Hty, extractValue_supported. rewrite E. eauto. }
  split; [exact Hnone|].
  unfold SurpriseFilter.filter.
  apply Z.ltb_ge in Hge. rewrite Hge, Hnone. simpl. repeat split.
Qed.

Lemma filter_keeps_unsupported_witness :
  let f := SurpriseFilter.new (SurpriseFilter.mkConfig 2 0 []) in
  SurpriseFilter.keep (fst (SurpriseFilter.filter f (Height 180))) = true /\
  SurpriseFilter.reason (fst (SurpriseFilter.filter f (Height 180))) = "unsupported_type"%string.
Proof.
  intros f.
  destruct (filter_keeps_unsupported f (Height 180)) as (_ & H1 & H2 & _).
  - simpl. lia.
  - simpl. intros H. repeat (destruct H as [H|H]; [discriminate H|]). destruct H.
  - exact (conj H1 H2).
Defined.

(** C10.  A fresh filter configured with [minSamples = n] counts a call
    before it compares the counter with [n]: in any run of calls, every
    call has a result, and the call at position [i] (from 0) has the reason
    ['warmup'] exactly when [i < max(n - 1, 0)].  So exactly the first
    [max(n - 1, 0)] calls are warmup calls, none is when [n] is 0 or 1, and
    the [n]-th call is not. *)
Theorem filter_warmup_window (cfg : SurpriseFilter.FilterConfig)
    (rs : list HealthRecord) (i : nat) (res : SurpriseFilter.FilterResult) :
  fst (SurpriseFilter.filterEach (SurpriseFilter.new cfg) rs) !! i = Some res ->
  length (fst (SurpriseFilter.filterEach (SurpriseFilter.new cfg) rs)) = length rs /\
  (SurpriseFilter.reason res = "warmup"%string <->
   (Z.of_nat i < Z.max (SurpriseFilter.minSamples cfg - 1) 0)%Z).
Proof.
  intros Hi. split; [apply filterEach_length|].
  rewrite (filterEach_reason rs _ i res Hi). simpl. lia.
Qed.

Lemma filter_warmup_window_witness :
  let cfg := SurpriseFilter.mkConfig 2 2 [] in
  let rs := [HeartRate 70; HeartRate 71] in
  exists res0 res1,
    fst (SurpriseFilter.filterEach (SurpriseFilter.new cfg) rs) !! 0%nat = Some res0 /\
    fst (SurpriseFilter.filterEach (SurpriseFilter.new cfg) rs) !! 1%nat = Some res1 /\
    SurpriseFilter.reason res0 = "warmup"%string /\
    SurpriseFilter.reason res1 <> "warmup"%string.
Proof.
  intros cfg rs.
  destruct (fst (SurpriseFilter.filterEach (SurpriseFilter.new cfg) rs)) as [|res0 [|res1 l]] eqn:E;
    try (apply (f_equal length) in E; rewrite filterEach_length in E; discriminate E).
  exists res0, res1. split; [reflexivity|]. split; [reflexivity|].
  assert (H0 : fst (SurpriseFilter.filterEach (SurpriseFilter.new cfg) rs) !! 0%nat = Some res0)
    by (rewrite E; reflexivity).
  assert (H1 : fst (SurpriseFilter.filterEach (SurpriseFilter.new cfg) rs) !! 1%nat = Some res1)
    by (rewrite E; reflexivity).
  split.
  - apply (filter_warmup_window cfg rs 0 res0 H0). simpl. lia.
  - intros Hw. apply (filter_warmup_window cfg rs 1 res1 H1) in Hw. simpl in Hw. lia.
Defined.

(* ===================================================================== *)
(** * Theorems: SurpriseCalculator *)
(* ===================================================================== *)

Section Calculator.

Import SurpriseCalculator.

Lemma or_default_pos (x : R) : 0 <= x -> 0 < or_default x 1.
Proof. unfold or_default. destruct (Req_dec_T x 0); lra. Qed.

(** What one call of [calculate] computes, step by step. *)
Lemma calculate_steps (c : t) (value : R) :
  let error := fst (ExponentialPredictor.update (predictor c) value) in
  let es := OnlineStats.update (errorStats c) error in
  let z := (error - OnlineStats.getMean es) / or_default (OnlineStats.getStdDev es) 1 in
  errorStats (snd (calculate c value)) = es /\
  zscore (fst (calculate c value)) = z /\
  surprise (fst (calculate c value)) = 0.5 * z * z.
Proof.
  unfold calculate.
  destruct (ExponentialPredictor.update (predictor c) value) as [error p'].
  destruct (AdaptiveThreshold.update _ _) as [th th'].
  simpl. repeat split.
Qed.

(** The states a fresh calculator goes through on the values 0, 0. *)
Lemma feed_zero_zero :
  let c := feed (new 0.3 2) [0; 0] in
  ExponentialPredictor.level (predictor c) = Some 0 /\
  ExponentialPredictor.trend (predictor c) = 0 /\
  OnlineStats.count (errorStats c) = 2%nat /\
  OnlineStats.mean (errorStats c) = 0 /\
  OnlineStats.m2 (errorStats c) = 0.
Proof.
  cbv [feed fold_left calculate new snd fst predictor errorStats stats threshold
       ExponentialPredictor.update ExponentialPredictor.new
       ExponentialPredictor.predict
       ExponentialPredictor.level ExponentialPredictor.trend
       ExponentialPredictor.alpha ExponentialPredictor.beta
       AdaptiveThreshold.update AdaptiveThreshold.new AdaptiveThreshold.initialized
       OnlineStats.update OnlineStats.new
       OnlineStats.count OnlineStats.mean OnlineStats.m2 INR].
  replace (0 - (0 + 0)) with 0 by lra. rewrite Rabs_R0.
  repeat split; try (f_equal; lra).
Qed.

(** The third value, 1, is met with the error 1; the error statistics
    then have the mean 1/3 and the standard deviation sqrt(1/3). *)
Lemma third_call_statistics :
  let c := feed (new 0.3 2) [0; 0] in
  let es := errorStats (snd (calculate c 1)) in
  fst (ExponentialPredictor.update (predictor c) 1) = 1 /\
  OnlineStats.getMean es = 1 / 3 /\
  OnlineStats.getStdDev es = sqrt (1 / 3).
Proof.
  pose proof feed_zero_zero as H. cbv zeta in *.
  set (c := feed (new 0.3 2) [0; 0]) in *.
  destruct (calculate_steps c 1) as (-> & _ & _).
  destruct c as [[a b l t] th st [n m q]].
  cbn [predictor errorStats ExponentialPredictor.level ExponentialPredictor.trend
       OnlineStats.count OnlineStats.mean OnlineStats.m2] in H.
  destruct H as (-> & -> & -> & -> & ->).
  cbv [snd fst predictor errorStats
       ExponentialPredictor.update
       ExponentialPredictor.level ExponentialPredictor.trend
       ExponentialPredictor.alpha ExponentialPredictor.beta
       OnlineStats.update OnlineStats.getMean OnlineStats.getStdDev
       OnlineStats.getVariance Nat.ltb Nat.leb
       OnlineStats.count OnlineStats.mean OnlineStats.m2 INR].
  replace (1 - (0 + 0)) with 1 by lra. rewrite Rabs_R1.
  repeat split; try lra. f_equal. lra.
Qed.

Lemma sqrt_third_bounds : 0 < sqrt (1 / 3) < 1.
Proof.
  split.
  - apply sqrt_lt_R0. lra.
  - rewrite <- sqrt_1 at 2. apply sqrt_lt_1; lra.
Qed.

End Calculator.

(** C1, as the code has it.  In every call of [calculate] the z-score is
    [(error - errorStats.mean) / divisor], where [divisor] is the standard
    deviation of the errors when that is not zero and 1 when it is zero; the
    divisor is positive (it can be smaller than 1), and the surprise is
    [0.5 * zscore^2], which is not negative. *)
Theorem calculate_zscore_divisor (c : SurpriseCalculator.t) (value : R) :
  let error := fst (ExponentialPredictor.update (SurpriseCalculator.predictor c) value) in
  let r := fst (SurpriseCalculator.calculate c value) in
  let es := SurpriseCalculator.errorStats (snd (SurpriseCalculator.calculate c value)) in
  let sd := OnlineStats.getStdDev es in
  let divisor := if Req_dec_T sd 0 then 1 else sd in
  es = OnlineStats.update (SurpriseCalculator.errorStats c) error /\
  0 < divisor /\
  SurpriseCalculator.zscore r = (error - OnlineStats.getMean es) / divisor /\
  SurpriseCalculator.surprise r
  = 0.5 * (SurpriseCalculator.zscore r * SurpriseCalculator.zscore r) /\
  0 <= SurpriseCalculator.surprise r.
Proof.
  cbv zeta.
  destruct (calculate_steps c value) as (Hes & Hz & Hs).
  rewrite Hes, Hz, Hs. split; [reflexivity|].
  split; [apply or_default_pos, sqrt_pos|].
  split; [reflexivity|].
  split; [ring|].
  match goal with |- 0 <= 0.5 * ?z * ?z => pose proof (Rle_0_sqr z) as Hsq end.
  unfold Rsqr in Hsq. nra.
Qed.

(** C1, as the specification words it, fails: after the values 0, 0 the
    value 1 leaves the errors with the standard deviation sqrt(1/3), which
    is below 1, and the z-score is divided by it and not by
    [max(stdDev, 1) = 1]. *)
Lemma zscore_divisor_below_one :
  let c := SurpriseCalculator.feed (SurpriseCalculator.new 0.3 2) [0; 0] in
  let r := fst (SurpriseCalculator.calculate c 1) in
  let es := SurpriseCalculator.errorStats (snd (SurpriseCalculator.calculate c 1)) in
  0 < OnlineStats.getStdDev es < 1 /\
  SurpriseCalculator.zscore r = (2 / 3) / sqrt (1 / 3) /\
  claimed_zscore c 1 = 2 / 3 /\
  SurpriseCalculator.zscore r <> claimed_zscore c 1.
Proof.
  cbv zeta.
  pose proof third_call_statistics as H. cbv zeta in H.
  destruct H as (Herr & Hmean & Hsd).
  pose proof sqrt_third_bounds as Hb.
  set (c := SurpriseCalculator.feed (SurpriseCalculator.new 0.3 2) [0; 0]) in *.
  assert (Hz : SurpriseCalculator.zscore (fst (SurpriseCalculator.calculate c 1))
               = (2 / 3) / sqrt (1 / 3)).
  { destruct (calculate_steps c 1) as (Hes & -> & _).
    rewrite <- Hes, Herr, Hmean, Hsd.
    unfold or_default. destruct (Req_dec_T (sqrt (1 / 3)) 0); [lra|].
    f_equal. lra. }
  assert (Hc : claimed_zscore c 1 = 2 / 3).
  { unfold claimed_zscore. rewrite Herr, Hmean, Hsd.
    rewrite Rmax_right by lra. lra. }
  split; [rewrite Hsd; exact Hb|].
  split; [exact Hz|]. split; [exact Hc|].
  rewrite Hz, Hc. intros Heq.
  assert (2 / 3 = 2 / 3 * sqrt (1 / 3)).
  { rewrite <- Heq at 2. field. lra. }
  nra.
Qed.

Lemma OnlineStats_matches_two_pass_witness :
  OnlineStats.getVariance (OnlineStats.feed [2; 4]) = sample_variance [2; 4] /\
  OnlineStats.getMean (OnlineStats.feed [2; 4]) = arith_mean [2; 4].
Proof.
  destruct (OnlineStats_matches_two_pass [2; 4]) as (Hv & _ & Hm).
  split; [exact Hv | apply Hm; discriminate].
Defined.

(* ===================================================================== *)
(** * Theorems: CfCCell *)
(* ===================================================================== *)

Section Vectors.

Lemma lookup_map {A B : Type} (f : A -> B) (l : list A) (i : nat) :
  map f l !! i = f <$> l !! i.
Proof. revert i. induction l as [|x l IH]; intros [|i]; simpl; auto. Qed.

Lemma nth_lookup_Some (l : list R) (i : nat) (x : R) :
  l !! i = Some x -> nth i l 0 = x.
Proof. intros H. rewrite nth_lookup, H. reflexivity. Qed.

Lemma for_index_S (n : nat) (f : nat -> R -> R) (v : list R) :
  for_index (S n) f v
  = <[n := f n (nth n (for_index n f v) 0)]> (for_index n f v).
Proof. unfold for_index. rewrite seq_S, fold_left_app. reflexivity. Qed.

Lemma for_index_length (n : nat) (f : nat -> R -> R) (v : list R) :
  length (for_index n f v) = length v.
Proof.
  induction n as [|n IH]; [reflexivity|].
  rewrite for_index_S, length_insert. exact IH.
Qed.

(** The loop rewrites the first [n] entries, each from its old value. *)
Lemma for_index_lookup (n : nat) (f : nat -> R -> R) (v : list R) (i : nat) :
  for_index n f v !! i = if decide (i < n)%nat then f i <$> v !! i else v !! i.
Proof.
  induction n as [|n IH].
  - destruct (decide (i < 0)%nat); [lia | reflexivity].
  - rewrite for_index_S. destruct (decide (i = n)) as [->|Hne].
    + destruct (decide (n < n)%nat) as [|_]; [lia|].
      destruct (decide (n < S n)%nat) as [_|]; [|lia].
      destruct (v !! n) as [x|] eqn:Hv.
      * rewrite (nth_lookup_Some _ _ x) by exact IH.
        apply list_lookup_insert_eq. rewrite for_index_length.
        apply lookup_lt_Some in Hv. exact Hv.
      * simpl. apply lookup_ge_None. rewrite length_insert, for_index_length.
        apply lookup_ge_None in Hv. exact Hv.
    + rewrite list_lookup_insert_ne by congruence. rewrite IH.
      destruct (decide (i < n)%nat), (decide (i < S n)%nat); try reflexivity; lia.
Qed.

Lemma for_index_Forall (P : R -> Prop) (n : nat) (f : nat -> R -> R) (v : list R) :
  (forall i x, P x -> P (f i x)) -> Forall P v -> Forall P (for_index n f v).
Proof.
  intros Hf Hv. apply Forall_lookup. intros i x Hi.
  rewrite for_index_lookup in Hi.
  rewrite Forall_lookup in Hv.
  destruct (decide (i < n)%nat); [|eauto].
  destruct (v !! i) as [y|] eqn:Hy; [|discriminate Hi].
  injection Hi as <-. eauto.
Qed.

(** One entry of [h * decay + equilibrium * (1 - decay)]. *)
Lemma relax_lookup (s e taus : list R) (dt : R) (i : nat) (si ei ti : R) :
  s !! i = Some si -> e !! i = Some ei -> taus !! i = Some ti ->
  let decay := map (fun t => exp (- dt / t)) taus in
  vectorAdd (vectorMultiply s decay)
            (vectorMultiply e (map (fun d => 1 - d) decay)) !! i
  = Some (si * exp (- dt / ti) + ei * (1 - exp (- dt / ti))).
Proof.
  intros Hs He Ht decay. unfold vectorAdd, vectorMultiply.
  assert (Hd : decay !! i = Some (exp (- dt / ti))).
  { unfold decay. rewrite lookup_map, Ht. reflexivity. }
  rewrite !list_lookup_imap, Hs. simpl. f_equal.
  rewrite (nth_lookup_Some decay i _ Hd).
  erewrite (nth_lookup_Some _ i); [reflexivity|].
  rewrite list_lookup_imap, He. simpl. f_equal.
  erewrite (nth_lookup_Some _ i); [reflexivity|].
  rewrite lookup_map, Hd. reflexivity.
Qed.

Lemma relax_length (s e decay : list R) :
  length (vectorAdd (vectorMultiply s decay)
                    (vectorMultiply e (map (fun d => 1 - d) decay)))
  = length s.
Proof. unfold vectorAdd, vectorMultiply. rewrite !length_imap. reflexivity. Qed.

End Vectors.

Section Decay.

(** A convex combination stays between its two ends. *)
Lemma convex_between (s e d : R) :
  0 < d <= 1 -> Rmin s e <= s * d + e * (1 - d) <= Rmax s e.
Proof.
  intros Hd. unfold Rmin, Rmax. destruct (Rle_dec s e); split; nra.
Qed.

Lemma exp_nonpos_le_1 (x : R) : x <= 0 -> exp x <= 1.
Proof.
  intros [Hlt | ->].
  - left. rewrite <- exp_0. apply exp_increasing, Hlt.
  - rewrite exp_0. lra.
Qed.

Lemma decay_bounds (dt t : R) : 0 <= dt -> 0 < t -> 0 < exp (- dt / t) <= 1.
Proof.
  intros Hdt Ht. split; [apply exp_pos|].
  apply exp_nonpos_le_1.
  pose proof (Rinv_0_lt_compat t Ht) as Hinv.
  unfold Rdiv. nra.
Qed.

(** A longer gap leaves less of the old state. *)
Lemma decay_antitone (dt1 dt2 t : R) :
  0 < t -> dt1 <= dt2 -> exp (- dt2 / t) <= exp (- dt1 / t).
Proof.
  intros Ht Hdt. pose proof (Rinv_0_lt_compat t Ht) as Hinv.
  destruct Hdt as [Hlt | ->]; [|lra].
  left. apply exp_increasing. unfold Rdiv. nra.
Qed.

(** With no gap the state is restated. *)
Lemma decay_zero_gap (t : R) : exp (- 0 / t) = 1.
Proof. unfold Rdiv. rewrite Ropp_0, Rmult_0_l. apply exp_0. Qed.

(** What is left of the distance to the equilibrium is the decay factor
    times the old distance. *)
Lemma relax_distance (s e d : R) : s * d + e * (1 - d) - e = (s - e) * d.
Proof. ring. Qed.

(** A long enough gap brings the decay factor below any bound, that is
    the state as near to the equilibrium as wanted. *)
Lemma decay_vanishes (t eps : R) :
  0 < t -> 0 < eps ->
  exists T, forall dt, T <= dt -> exp (- dt / t) < eps.
Proof.
  intros Ht Heps. exists (t * (1 - ln eps)). intros dt Hdt.
  rewrite <- (exp_ln eps Heps). apply exp_increasing.
  pose proof (Rinv_0_lt_compat t Ht) as Hinv.
  assert (H : 1 - ln eps <= dt / t).
  { unfold Rdiv. apply (Rmult_le_reg_l t); [exact Ht|].
    replace (t * (dt * / t)) with dt by (field; lra). exact Hdt. }
  unfold Rdiv in *. lra.
Qed.

Lemma exp_pos_gt_1 (x : R) : 0 < x -> 1 < exp x.
Proof. intros Hx. rewrite <- exp_0. apply exp_increasing, Hx. Qed.

(** [Math.tanh] of a number that is not negative lies in [0, 1). *)
Lemma tanh_bounds (x : R) : 0 <= x -> 0 <= tanh x < 1.
Proof.
  intros Hx. unfold tanh, sinh, cosh.
  pose proof (exp_pos x) as Hp. pose proof (exp_pos (- x)) as Hn.
  assert (Hle : exp (- x) <= exp x).
  { destruct Hx as [Hx | <-].
    - left. apply exp_increasing. lra.
    - rewrite Ropp_0. lra. }
  assert (Hc : 0 < (exp x + exp (- x)) / 2) by lra.
  split.
  - apply Rmult_le_pos; [lra | left; apply Rinv_0_lt_compat, Hc].
  - apply (Rmult_lt_reg_r ((exp x + exp (- x)) / 2)); [exact Hc|].
    unfold Rdiv at 1. rewrite Rmult_assoc, Rinv_l by lra. lra.
Qed.

Lemma tanh_0 : tanh 0 = 0.
Proof. unfold tanh, sinh. rewrite Ropp_0, exp_0. unfold Rdiv. lra. Qed.

End Decay.

Section Cell.

Import CfCCell.

Lemma step_dt_pos (c : t) (timestamp : R) : 0 < step_dt c timestamp.
Proof.
  unfold step_dt. destruct (lastTimestamp c) as [last|]; [|lra].
  pose proof (Rmax_r (timestamp - last) 1e-4). lra.
Qed.

Lemma predict_dt_nonneg (last future : R) : 0 <= predict_dt last future.
Proof. unfold predict_dt. apply Rmax_r. Qed.

Lemma new_wf (cfg : CfCConfig) : cell_wf (new cfg).
Proof. unfold cell_wf, new, zeros; simpl. rewrite !repeat_length. auto. Qed.

Lemma step_wf (c : t) (obs : list R) (ts : R) :
  cell_wf c -> cell_wf (snd (step c obs ts)).
Proof.
  intros (Hs & Ht & He). unfold cell_wf, step, updateTau, updateEquilibrium. simpl.
  rewrite relax_length, !for_index_length. auto.
Qed.

Lemma new_tau_pos (cfg : CfCConfig) :
  0 < tauMin cfg <= tauMax cfg -> cell_tau_pos (new cfg).
Proof.
  intros H. split; [exact H|]. simpl.
  apply List.Forall_forall. intros x Hx. apply repeat_spec in Hx. subst x. lra.
Qed.

Lemma step_tau_pos (c : t) (obs : list R) (ts : R) :
  cell_tau_pos c -> cell_tau_pos (snd (step c obs ts)).
Proof.
  intros [Hcfg Htau]. split; [exact Hcfg|].
  unfold step, updateTau. simpl.
  apply for_index_Forall; [|exact Htau].
  intros i x Hx. cbv zeta.
  pose proof (tanh_bounds (Rabs (nth i obs 0 - nth i (state c) 0)) (Rabs_pos _)) as Hb.
  nra.
Qed.

End Cell.

(** C4.  Take a well-formed cell and an entry [s] of its state.
    - [predict]: when the time constants are positive, the elapsed time
      [dt = max(future - last, 0)] is not negative, the decay factor
      [exp(-dt/tau[i])] lies in (0,1], and the predicted entry
      [s * decay + equilibrium[i] * (1 - decay)] lies between [s] and
      [equilibrium[i]].
    - [step]: the elapsed time is positive, and when the time constants the
      decay is computed from (those [step] leaves in the cell) are positive,
      the decay factor lies in (0,1] and the new entry lies between [s] and
      the equilibrium [step] relaxes to.
    - A cell whose configuration has [0 < tauMin <= tauMax] and whose time
      constants are positive keeps positive time constants through [step]. *)
Theorem cfc_relaxation_between (c : CfCCell.t) (i : nat) (s : R) :
  CfCCell.cell_wf c ->
  CfCCell.state c !! i = Some s ->
  (forall last future,
      CfCCell.lastTimestamp c = Some last ->
      Forall (fun t => 0 < t) (CfCCell.tau c) ->
      exists t e,
        CfCCell.tau c !! i = Some t /\ CfCCell.equilibrium c !! i = Some e /\
        0 <= CfCCell.predict_dt last future /\
        0 < exp (- CfCCell.predict_dt last future / t) <= 1 /\
        CfCCell.predict c future !! i
        = Some (s * exp (- CfCCell.predict_dt last future / t)
                + e * (1 - exp (- CfCCell.predict_dt last future / t))) /\
        Rmin s e
        <= s * exp (- CfCCell.predict_dt last future / t)
           + e * (1 - exp (- CfCCell.predict_dt last future / t))
        <= Rmax s e) /\
  (forall obs ts,
      Forall (fun t => 0 < t) (CfCCell.tau (snd (CfCCell.step c obs ts))) ->
      exists t e,
        CfCCell.tau (snd (CfCCell.step c obs ts)) !! i = Some t /\
        CfCCell.equilibrium (snd (CfCCell.step c obs ts)) !! i = Some e /\
        0 < CfCCell.step_dt c ts /\
        0 < exp (- CfCCell.step_dt c ts / t) <= 1 /\
        fst (CfCCell.step c obs ts) = CfCCell.state (snd (CfCCell.step c obs ts)) /\
        CfCCell.state (snd (CfCCell.step c obs ts)) !! i
        = Some (s * exp (- CfCCell.step_dt c ts / t)
                + e * (1 - exp (- CfCCell.step_dt c ts / t))) /\
        Rmin s e
        <= s * exp (- CfCCell.step_dt c ts / t)
           + e * (1 - exp (- CfCCell.step_dt c ts / t))
        <= Rmax s e) /\
  (forall obs ts, cell_tau_pos c -> cell_tau_pos (snd (CfCCell.step c obs ts))).
Proof.
  intros Hwf Hs. pose proof (lookup_lt_Some _ _ _ Hs) as Hi.
  split; [|split].
  - intros last future Hlast Hpos.
    destruct Hwf as (Hls & Hlt & Hle).
    destruct (lookup_lt_is_Some_2 (CfCCell.tau c) i) as [t Ht]; [lia|].
    destruct (lookup_lt_is_Some_2 (CfCCell.equilibrium c) i) as [e He]; [lia|].
    exists t, e.
    assert (Htpos : 0 < t) by (rewrite Forall_lookup in Hpos; eauto).
    pose proof (predict_dt_nonneg last future) as Hdt.
    pose proof (decay_bounds _ _ Hdt Htpos) as Hdecay.
    repeat (split; [solve [assumption | apply Hdecay]|]).
    split; [|apply convex_between, Hdecay].
    unfold CfCCell.predict. rewrite Hlast. cbv zeta.
    apply relax_lookup; assumption.
  - intros obs ts Hpos.
    pose proof (step_wf c obs ts Hwf) as (Hls' & Hlt' & Hle').
    destruct Hwf as (Hls & Hlt & Hle).
    assert (Hcfg : CfCCell.config (snd (CfCCell.step c obs ts)) = CfCCell.config c)
      by reflexivity.
    rewrite Hcfg in *.
    destruct (lookup_lt_is_Some_2 (CfCCell.tau (snd (CfCCell.step c obs ts))) i)
      as [t Ht]; [lia|].
    destruct (lookup_lt_is_Some_2 (CfCCell.equilibrium (snd (CfCCell.step c obs ts))) i)
      as [e He]; [lia|].
    exists t, e.
    assert (Htpos : 0 < t) by (rewrite Forall_lookup in Hpos; eauto).
    pose proof (step_dt_pos c ts) as Hdt.
    assert (Hdecay : 0 < exp (- CfCCell.step_dt c ts / t) <= 1)
      by (apply decay_bounds; lra).
    repeat (split; [solve [assumption | apply Hdecay | reflexivity]|]).
    split; [|apply convex_between, Hdecay].
    unfold CfCCell.step in *. cbv zeta in *. cbn [snd CfCCell.state CfCCell.tau
      CfCCell.equilibrium] in *.
    apply relax_lookup; assumption.
  - intros obs ts. apply step_tau_pos.
Qed.

Lemma cfc_relaxation_between_witness :
  let c := snd (CfCCell.step (CfCCell.new (CfCCell.mkConfig 4 60 3600 0.99)) [1] 0) in
  exists s t e,
    CfCCell.state c !! 0%nat = Some s /\
    CfCCell.tau c !! 0%nat = Some t /\ CfCCell.equilibrium c !! 0%nat = Some e /\
    0 < exp (- CfCCell.predict_dt 0 1000 / t) <= 1 /\
    CfCCell.predict c 1000 !! 0%nat
    = Some (s * exp (- CfCCell.predict_dt 0 1000 / t)
            + e * (1 - exp (- CfCCell.predict_dt 0 1000 / t))) /\
    Rmin s e
    <= s * exp (- CfCCell.predict_dt 0 1000 / t)
       + e * (1 - exp (- CfCCell.predict_dt 0 1000 / t))
    <= Rmax s e.
Proof.
  intros c.
  assert (Hwf : CfCCell.cell_wf c) by (apply step_wf, new_wf).
  assert (Hpos : cell_tau_pos c).
  { apply step_tau_pos, new_tau_pos. simpl. lra. }
  destruct (lookup_lt_is_Some_2 (CfCCell.state c) 0) as [s Hs].
  { destruct Hwf as (-> & _). simpl. lia. }
  destruct (cfc_relaxation_between c 0 s Hwf Hs) as (Hpredict & _ & _).
  destruct (Hpredict 0 1000 eq_refl (proj2 Hpos)) as (t & e & Ht & He & _ & Hd & Hp & Hb).
  exists s, t, e. repeat (split; [assumption|]). assumption.
Defined.

(* ===================================================================== *)
(** * Theorems: HealthStateEstimator *)
(* ===================================================================== *)

Section Estimator.

Import HealthStateEstimator.

Lemma for_of_cons {A B : Type} (body : A -> B -> result A) (b : B) (l : list B) (a : A) :
    for_of body (b :: l) a = body a b ≫= for_of body l.
Proof. reflexivity. Qed.

(** An invariant of cells that [step] keeps. *)
Variable P : CfCCell.t -> Prop.
Hypothesis P_step : forall c obs ts, P c -> P (snd (CfCCell.step c obs ts)).

Lemma update_dim_Some (observations : gmap string R) (ts : R)
    (cs : gmap string CfCCell.t) (ds cf : gmap string R)
    (dim : DimensionConfig) (cell : CfCCell.t) :
  cs !! name dim = Some cell ->
  let cell' := snd (CfCCell.step cell (obsVector observations dim) ts) in
  update_dim observations ts (cs, ds, cf) dim
  = Ok (<[name dim := cell']> cs,
        <[name dim := aggregate (CfCCell.state cell')]> ds,
        <[name dim := exp (- 0.1 / avgTau (CfCCell.tau cell'))]> cf).
Proof. intros H. unfold update_dim. rewrite H. reflexivity. Qed.

(** The loop of [update]: it returns, keeps the invariant of the cells,
    and leaves, for every configured name, the aggregate of the state of
    the cell under that name. *)
Lemma update_loop (observations : gmap string R) (ts : R)
    (dims : list DimensionConfig) :
  forall (cs : gmap string CfCCell.t) (ds cf : gmap string R),
    (forall dim, In dim dims -> is_Some (cs !! name dim)) ->
    (forall n c, cs !! n = Some c -> P c) ->
    exists cs' ds' cf',
      for_of (update_dim observations ts) dims (cs, ds, cf) = Ok (cs', ds', cf') /\
      (forall n c, cs' !! n = Some c -> P c) /\
      (forall n, is_Some (cs' !! n) <-> is_Some (cs !! n)) /\
      (forall n, In n (map name dims) ->
         exists c, cs' !! n = Some c /\
                   CfCCell.lastTimestamp c = Some ts /\
                   ds' !! n = Some (aggregate (CfCCell.state c)) /\
                   cf' !! n = Some (exp (- 0.1 / avgTau (CfCCell.tau c)))) /\
      (forall n, ~ In n (map name dims) ->
         cs' !! n = cs !! n /\ ds' !! n = ds !! n /\ cf' !! n = cf !! n).
Proof.
  induction dims as [|dim dims IH]; intros cs ds cf Hcells HP.
  - exists cs, ds, cf. simpl. repeat split; tauto.
  - destruct (Hcells dim (or_introl eq_refl)) as [cell Hcell].
    pose proof (update_dim_Some observations ts cs ds cf dim cell Hcell) as Hstep.
    cbv zeta in Hstep.
    set (cell' := snd (CfCCell.step cell (obsVector observations dim) ts)) in *.
    destruct (IH (<[name dim := cell']> cs)
                 (<[name dim := aggregate (CfCCell.state cell')]> ds)
                 (<[name dim := exp (- 0.1 / avgTau (CfCCell.tau cell'))]> cf))
      as (cs' & ds' & cf' & Hrun & HP' & Hdom & Hin & Hout).
    { intros d Hd. destruct (decide (name dim = name d)) as [Heq|Hne].
      - rewrite Heq, lookup_insert_eq. eauto.
      - rewrite lookup_insert_ne by exact Hne. apply Hcells. right. exact Hd. }
    { intros n c. destruct (decide (name dim = n)) as [<-|Hne].
      - rewrite lookup_insert_eq. intros [= <-]. apply P_step. eauto.
      - rewrite lookup_insert_ne by exact Hne. apply HP. }
    exists cs', ds', cf'.
    split; [rewrite for_of_cons, Hstep; exact Hrun|].
    split; [exact HP'|].
    split.
    { intros n. rewrite Hdom. destruct (decide (name dim = n)) as [<-|Hne].
      - rewrite lookup_insert_eq, Hcell. split; eauto.
      - rewrite lookup_insert_ne by exact Hne. tauto. }
    split.
    + intros n Hn. destruct (in_dec String.string_dec n (map name dims)) as [Hlater|Hlast].
      * apply Hin, Hlater.
      * destruct Hn as [<-|Hn]; [|contradiction].
        destruct (Hout _ Hlast) as (-> & -> & ->).
        rewrite !lookup_insert_eq. exists cell'. repeat split.
    + intros n Hn.
      assert (Hne : name dim <> n) by (intros <-; apply Hn; left; reflexivity).
      destruct (Hout n) as (-> & -> & ->).
      { intros H. apply Hn. right. exact H. }
      rewrite !lookup_insert_ne by exact Hne. repeat split.
Qed.

Lemma predict_dim_Some (e : t) (future : R) (ds cf : gmap string R)
    (dim : DimensionConfig) (cell : CfCCell.t) :
  cells e !! name dim = Some cell ->
  predict_dim e future (ds, cf) dim
  = Ok (<[name dim := aggregate (CfCCell.predict cell future)]> ds,
        <[name dim := exp (- confidence_dt e future / avgTau (CfCCell.tau cell))]> cf).
Proof. intros H. unfold predict_dim. rewrite H. reflexivity. Qed.

(** The loop of [predict]. *)
Lemma predict_loop (e : t) (future : R) (dims : list DimensionConfig) :
  forall (ds cf : gmap string R),
    (forall dim, In dim dims -> is_Some (cells e !! name dim)) ->
    exists ds' cf',
      for_of (predict_dim e future) dims (ds, cf) = Ok (ds', cf') /\
      (forall n, In n (map name dims) ->
         exists c, cells e !! n = Some c /\
                   ds' !! n = Some (aggregate (CfCCell.predict c future)) /\
                   cf' !! n
                   = Some (exp (- confidence_dt e future / avgTau (CfCCell.tau c)))) /\
      (forall n, ~ In n (map name dims) -> ds' !! n = ds !! n /\ cf' !! n = cf !! n).
Proof.
  induction dims as [|dim dims IH]; intros ds cf Hcells.
  - exists ds, cf. simpl. repeat split; tauto.
  - destruct (Hcells dim (or_introl eq_refl)) as [cell Hcell].
    pose proof (predict_dim_Some e future ds cf dim cell Hcell) as Hstep.
    destruct (IH (<[name dim := aggregate (CfCCell.predict cell future)]> ds)
                 (<[name dim := exp (- confidence_dt e future
                                       / avgTau (CfCCell.tau cell))]> cf))
      as (ds' & cf' & Hrun & Hin & Hout).
    { intros d Hd. apply Hcells. right. exact Hd. }
    exists ds', cf'.
    split; [rewrite for_of_cons, Hstep; exact Hrun|].
    split.
    + intros n Hn. destruct (in_dec String.string_dec n (map name dims)) as [Hlater|Hlast].
      * apply Hin, Hlater.
      * destruct Hn as [<-|Hn]; [|contradiction].
        destruct (Hout _ Hlast) as (-> & ->).
        rewrite !lookup_insert_eq. exists cell. repeat split. exact Hcell.
    + intros n Hn.
      assert (Hne : name dim <> n) by (intros <-; apply Hn; left; reflexivity).
      destruct (Hout n) as (-> & ->).
      { intros H. apply Hn. right. exact H. }
      rewrite !lookup_insert_ne by exact Hne. repeat split.
Qed.

(** The cells the constructor builds. *)
Lemma new_cells (dims : list DimensionConfig) :
  forall m : gmap string CfCCell.t,
    (forall dim, In dim dims -> P (CfCCell.new (cell_config dim))) ->
    (forall n c, m !! n = Some c -> P c) ->
    let m' := fold_left (fun m dim => <[name dim := CfCCell.new (cell_config dim)]> m)
                        dims m in
    (forall dim, In dim dims -> is_Some (m' !! name dim)) /\
    (forall n, is_Some (m !! n) -> is_Some (m' !! n)) /\
    (forall n c, m' !! n = Some c -> P c).
Proof.
  induction dims as [|dim dims IH]; intros m Hnew Hm; simpl.
  - repeat split; [intros d [] | tauto | exact Hm].
  - destruct (IH (<[name dim := CfCCell.new (cell_config dim)]> m))
      as (Hin & Hkeep & HP).
    { intros d Hd. apply Hnew. right. exact Hd. }
    { intros n c. destruct (decide (name dim = n)) as [<-|Hne].
      - rewrite lookup_insert_eq. intros [= <-]. apply Hnew. left. reflexivity.
      - rewrite lookup_insert_ne by exact Hne. apply Hm. }
    split; [|split; [|exact HP]].
    + intros d [<-|Hd]; [|apply Hin, Hd].
      apply Hkeep. rewrite lookup_insert_eq. eauto.
    + intros n Hn. apply Hkeep.
      destruct (decide (name dim = n)) as [<-|Hne].
      * rewrite lookup_insert_eq. eauto.
      * rewrite lookup_insert_ne by exact Hne. exact Hn.
Qed.

End Estimator.

Section EstimatorFacts.

Import HealthStateEstimator.

(** A prediction for the time of the last step restates the state. *)
Lemma predict_at_last (c : CfCCell.t) (ts : R) :
  CfCCell.cell_wf c -> CfCCell.lastTimestamp c = Some ts ->
  CfCCell.predict c ts = CfCCell.state c.
Proof.
  intros (Hs & Ht & He) Hlast. unfold CfCCell.predict. rewrite Hlast. cbv zeta.
  assert (Hdt : CfCCell.predict_dt ts ts = 0).
  { unfold CfCCell.predict_dt. replace (ts - ts) with 0 by lra.
    apply Rmax_left. lra. }
  rewrite Hdt. apply list_eq. intros i.
  destruct (CfCCell.state c !! i) as [s|] eqn:Hsi.
  - pose proof (lookup_lt_Some _ _ _ Hsi) as Hi.
    destruct (lookup_lt_is_Some_2 (CfCCell.tau c) i) as [t Hti]; [lia|].
    destruct (lookup_lt_is_Some_2 (CfCCell.equilibrium c) i) as [e Hei]; [lia|].
    rewrite (relax_lookup _ _ _ 0 i s e t Hsi Hei Hti).
    f_equal. unfold Rdiv. rewrite Ropp_0, Rmult_0_l, exp_0. ring.
  - apply lookup_ge_None. rewrite relax_length. apply lookup_ge_None, Hsi.
Qed.

Lemma Rsum_fold_pos (l : list R) : forall a : R,
  Forall (fun t => 0 < t) l ->
  a <= fold_left Rplus l a /\ (l <> [] -> a < fold_left Rplus l a).
Proof.
  induction l as [|x l IH]; intros a Hl; simpl.
  - split; [lra | congruence].
  - inversion Hl as [|? ? Hx Hl']; subst.
    destruct (IH (a + x) Hl') as [Hle _]. split; [|intros _]; lra.
Qed.

Lemma avgTau_pos (l : list R) :
  Forall (fun t => 0 < t) l -> l <> [] -> 0 < avgTau l.
Proof.
  intros Hl Hne. unfold avgTau, Rsum.
  destruct (Rsum_fold_pos l 0 Hl) as [_ Hlt].
  apply Rdiv_lt_0_compat; [auto|].
  apply lt_0_INR. destruct l; [congruence | simpl; lia].
Qed.

(** What the estimator keeps true of each of its cells. *)
Lemma estimator_cell_step (c : CfCCell.t) (obs : list R) (ts : R) :
  CfCCell.cell_wf c /\ cell_tau_pos c /\ CfCCell.stateDim (CfCCell.config c) = 4%nat ->
  CfCCell.cell_wf (snd (CfCCell.step c obs ts)) /\
  cell_tau_pos (snd (CfCCell.step c obs ts)) /\
  CfCCell.stateDim (CfCCell.config (snd (CfCCell.step c obs ts))) = 4%nat.
Proof.
  intros (Hwf & Hpos & Hdim).
  split; [apply step_wf, Hwf | split; [apply step_tau_pos, Hpos | exact Hdim]].
Qed.

Lemma estimator_cell_avgTau (c : CfCCell.t) :
  CfCCell.cell_wf c /\ cell_tau_pos c /\ CfCCell.stateDim (CfCCell.config c) = 4%nat ->
  0 < avgTau (CfCCell.tau c).
Proof.
  intros ((_ & Hlen & _) & (_ & Hpos) & Hdim).
  apply avgTau_pos; [exact Hpos|].
  intros Hnil. rewrite Hnil, Hdim in Hlen. discriminate Hlen.
Qed.

Lemma new_estimator_wf (cfg : HealthStateConfig) : estimator_wf (new cfg).
Proof.
  destruct (new_cells CfCCell.cell_wf (dimensions cfg) ∅) as (Hin & _ & HP).
  - intros dim _. apply new_wf.
  - intros n c H. rewrite lookup_empty in H. discriminate H.
  - split; [exact Hin | exact HP].
Qed.

Lemma cell_ok_step (c : CfCCell.t) (obs : list R) (ts : R) :
  CfCCell.cell_wf c /\ cell_tau_pos c ->
  CfCCell.cell_wf (snd (CfCCell.step c obs ts)) /\
  cell_tau_pos (snd (CfCCell.step c obs ts)).
Proof. intros [Hwf Hpos]. split; [apply step_wf, Hwf | apply step_tau_pos, Hpos]. Qed.

(** The constructor builds such an estimator from a configuration whose
    dimensions have [0 < tauMin <= tauMax]. *)
Lemma new_estimator_ok (cfg : HealthStateConfig) :
  Forall (fun dim => 0 < tauMin dim <= tauMax dim) (dimensions cfg) ->
  estimator_ok (new cfg).
Proof.
  intros Hcfg.
  destruct (new_cells (fun c => CfCCell.cell_wf c /\ cell_tau_pos c)
              (dimensions cfg) ∅) as (Hin & _ & HP).
  - intros dim Hd. rewrite List.Forall_forall in Hcfg.
    split; [apply new_wf | apply new_tau_pos, Hcfg, Hd].
  - intros n c H. rewrite lookup_empty in H. discriminate H.
  - split; [split; [exact Hin|] |]; intros n c Hc; apply (HP n c Hc).
Qed.

(** [update] returns on such an estimator and leaves such an estimator,
    and [getCurrentState] right after it restates the dimensions. *)
Lemma update_then_current (e : t) (observations : gmap string R) (ts : R) :
  estimator_ok e ->
  exists hs e' hs',
    update e observations ts = Ok (hs, e') /\
    estimator_ok e' /\
    getCurrentState e' = Ok (Some hs') /\
    state_dimensions hs' = state_dimensions hs.
Proof.
  intros [[Hcells Hwf] Hpos].
  destruct (update_loop (fun c => CfCCell.cell_wf c /\ cell_tau_pos c) cell_ok_step
              observations ts (dimensions (config e)) (cells e) ∅ ∅ Hcells)
    as (cs' & ds' & cf' & Hrun & Hok' & Hdom & Hin & Hout).
  { intros n c Hc. split; [apply (Hwf n c Hc) | apply (Hpos n c Hc)]. }
  set (e' := {| cells := cs'; config := config e; lastUpdateTime := Some ts |}).
  assert (Hcells' : forall dim, In dim (dimensions (config e')) ->
                                is_Some (cells e' !! name dim)).
  { intros dim Hd. simpl. apply Hdom, Hcells, Hd. }
  destruct (predict_loop e' ts (dimensions (config e')) ∅ ∅ Hcells')
    as (ds2 & cf2 & Hrun2 & Hin2 & Hout2).
  eexists _, e', _. split; [|split; [|split]].
  - unfold update. rewrite Hrun. reflexivity.
  - split; [split; [exact Hcells'|] |]; intros n c Hc; apply (Hok' n c Hc).
  - unfold getCurrentState, predict. cbn [lastUpdateTime e'].
    fold e'. rewrite Hrun2. reflexivity.
  - cbn [state_dimensions]. apply map_eq. intros n.
    destruct (in_dec String.string_dec n (map name (dimensions (config e))))
      as [Hn|Hn].
    + destruct (Hin n Hn) as (c & Hc & Hlast & -> & _).
      destruct (Hin2 n Hn) as (c2 & Hc2 & -> & _).
      simpl in Hc2. rewrite Hc in Hc2. injection Hc2 as <-.
      rewrite (predict_at_last c ts); [reflexivity | apply (Hok' n c Hc) | exact Hlast].
    + destruct (Hout n Hn) as (_ & -> & _).
      destruct (Hout2 n Hn) as (-> & _). reflexivity.
Qed.

(** After an update at a time [ts] other than 0, a prediction for an
    earlier time gives every configured dimension a confidence above 1. *)
Lemma predict_past_confidence (cfg : HealthStateConfig)
    (observations : gmap string R) (ts future : R) (n : string) :
  Forall (fun dim => 0 < tauMin dim <= tauMax dim) (dimensions cfg) ->
  In n (dimension_names cfg) -> ts <> 0 -> future < ts ->
  exists hs0 e hs c,
    update (new cfg) observations ts = Ok (hs0, e) /\
    predict e future = Ok hs /\
    confidence hs !! n = Some c /\ 1 < c.
Proof.
  intros Hcfg Hn Hts Hfuture.
  set (P := fun c => CfCCell.cell_wf c /\ cell_tau_pos c
                     /\ CfCCell.stateDim (CfCCell.config c) = 4%nat).
  destruct (new_cells P (dimensions cfg) ∅) as (Hcells & _ & HP).
  { intros dim Hd. rewrite List.Forall_forall in Hcfg.
    split; [apply new_wf | split; [apply new_tau_pos, Hcfg, Hd | reflexivity]]. }
  { intros k c H. rewrite lookup_empty in H. discriminate H. }
  destruct (update_loop P estimator_cell_step observations ts (dimensions cfg)
              (cells (new cfg)) ∅ ∅ Hcells HP)
    as (cs' & ds' & cf' & Hrun & HP' & Hdom & _ & _).
  set (e' := {| cells := cs'; config := cfg; lastUpdateTime := Some ts |}).
  assert (Hcells' : forall dim, In dim (dimensions (config e')) ->
                                is_Some (cells e' !! name dim)).
  { intros dim Hd. simpl. apply Hdom, Hcells, Hd. }
  destruct (predict_loop e' future (dimensions (config e')) ∅ ∅ Hcells')
    as (ds2 & cf2 & Hrun2 & Hin2 & _).
  destruct (Hin2 n Hn) as (c & Hc & _ & Hconf).
  eexists _, e', _, _. split; [|split; [|split]].
  - unfold update. cbn [config new]. rewrite Hrun. reflexivity.
  - unfold predict. rewrite Hrun2. reflexivity.
  - cbn [confidence]. exact Hconf.
  - pose proof (estimator_cell_avgTau c (HP' n c Hc)) as Havg.
    assert (Hdt : confidence_dt e' future = future - ts).
    { unfold confidence_dt, truthy_time. simpl.
      destruct (Req_dec_T ts 0); [contradiction | reflexivity]. }
    rewrite Hdt. apply exp_pos_gt_1.
    apply Rdiv_lt_0_compat; [lra | exact Havg].
Qed.

(** The confidences [update] returns lie in (0,1]. *)
Lemma update_confidence (e : t) (observations : gmap string R) (ts : R) :
  estimator_ok e ->
  (forall n c, cells e !! n = Some c -> CfCCell.stateDim (CfCCell.config c) = 4%nat) ->
  exists hs e',
    update e observations ts = Ok (hs, e') /\
    forall n c, confidence hs !! n = Some c -> 0 < c <= 1.
Proof.
  intros [[Hcells Hwf] Hpos] Hdim.
  destruct (update_loop
              (fun c => CfCCell.cell_wf c /\ cell_tau_pos c
                        /\ CfCCell.stateDim (CfCCell.config c) = 4%nat)
              estimator_cell_step
              observations ts (dimensions (config e)) (cells e) ∅ ∅ Hcells)
    as (cs' & ds' & cf' & Hrun & Hok' & _ & Hin & Hout).
  { intros n c Hc. split; [apply (Hwf n c Hc) | split; [apply (Hpos n c Hc) | apply (Hdim n c Hc)]]. }
  eexists _, _. split; [unfold update; rewrite Hrun; reflexivity|].
  cbn [confidence]. intros n c Hc.
  destruct (in_dec String.string_dec n (map name (dimensions (config e))))
    as [Hn|Hn].
  - destruct (Hin n Hn) as (cell & Hcell & _ & _ & Hconf).
    rewrite Hconf in Hc. injection Hc as <-.
    replace (-0.1) with (- (0.1)) by lra.
    apply decay_bounds; [lra|]. apply estimator_cell_avgTau, (Hok' n cell Hcell).
  - destruct (Hout n Hn) as (_ & _ & Heq). rewrite Heq, lookup_empty in Hc.
    discriminate Hc.
Qed.

(** For a time that is not before the last update, and before any update,
    the confidences [predict] returns lie in (0,1]. *)
Lemma predict_future_confidence (e : t) (future : R) :
  estimator_wf e ->
  (forall n c, cells e !! n = Some c ->
     cell_tau_pos c /\ CfCCell.stateDim (CfCCell.config c) = 4%nat) ->
  (forall last, lastUpdateTime e = Some last -> last <= future) ->
  exists hs, predict e future = Ok hs /\
             forall n c, confidence hs !! n = Some c -> 0 < c <= 1.
Proof.
  intros [Hcells Hwf] Hpos Hlast.
  destruct (predict_loop e future (dimensions (config e)) ∅ ∅ Hcells)
    as (ds2 & cf2 & Hrun2 & Hin2 & Hout2).
  eexists. split; [unfold predict; rewrite Hrun2; reflexivity|].
  cbn [confidence]. intros n c Hc.
  destruct (in_dec String.string_dec n (map name (dimensions (config e))))
    as [Hn|Hn].
  - destruct (Hin2 n Hn) as (cell & Hcell & _ & Hconf).
    rewrite Hconf in Hc. injection Hc as <-.
    apply decay_bounds.
    + unfold confidence_dt, truthy_time.
      destruct (lastUpdateTime e) as [last|]; [|lra].
      destruct (Req_dec_T last 0); [lra|]. specialize (Hlast last eq_refl). lra.
    + apply estimator_cell_avgTau. destruct (Hpos n cell Hcell). eauto.
  - destruct (Hout2 n Hn) as (_ & Heq). rewrite Heq, lookup_empty in Hc.
    discriminate Hc.
Qed.

End EstimatorFacts.

(** C7.  [getCurrentState] returns [null] on an estimator that was never
    updated (fresh, or just reset).  On an estimator whose dimensions all
    have a well-formed cell with positive time constants (what the
    constructor builds from dimensions with [0 < tauMin <= tauMax]),
    [update] returns and leaves such an estimator, and [getCurrentState]
    called right after it returns a state with the same value in every
    dimension. *)
Theorem getCurrentState_restates_update :
  (forall cfg,
      HealthStateEstimator.getCurrentState (HealthStateEstimator.new cfg) = Ok None) /\
  (forall e,
      HealthStateEstimator.getCurrentState (HealthStateEstimator.reset e) = Ok None) /\
  (forall e observations ts,
      estimator_ok e ->
      exists hs e' hs',
        HealthStateEstimator.update e observations ts = Ok (hs, e') /\
        estimator_ok e' /\
        HealthStateEstimator.getCurrentState e' = Ok (Some hs') /\
        HealthStateEstimator.state_dimensions hs'
        = HealthStateEstimator.state_dimensions hs).
Proof.
  split; [reflexivity | split; [reflexivity|]].
  intros e observations ts Hok. apply update_then_current, Hok.
Qed.

Lemma getCurrentState_restates_update_witness :
  exists hs e' hs',
    HealthStateEstimator.update
      (HealthStateEstimator.new HealthStateEstimator.DEFAULT_HEALTH_STATE_CONFIG)
      {[ "cardiovascular"%string := 1 ]} 0
    = Ok (hs, e') /\
    HealthStateEstimator.getCurrentState e' = Ok (Some hs') /\
    HealthStateEstimator.state_dimensions hs'
    = HealthStateEstimator.state_dimensions hs.
Proof.
  destruct getCurrentState_restates_update as (_ & _ & H).
  destruct (H (HealthStateEstimator.new HealthStateEstimator.DEFAULT_HEALTH_STATE_CONFIG)
              {[ "cardiovascular"%string := 1 ]} 0)
    as (hs & e' & hs' & Hup & _ & Hcur & Hdims).
  - apply new_estimator_ok. repeat constructor; simpl; lra.
  - exists hs, e', hs'. auto.
Defined.

Section FailingInput.

Import HealthStateEstimator.

(** Later configured dimensions with other names leave a cell alone. *)
Lemma new_cells_other (dims : list DimensionConfig) (n : string) :
  forall m : gmap string CfCCell.t,
    ~ In n (map name dims) ->
    fold_left (fun m dim => <[name dim := CfCCell.new (cell_config dim)]> m) dims m !! n
    = m !! n.
Proof.
  induction dims as [|dim dims IH]; intros m Hn; simpl; [reflexivity|].
  rewrite IH by (intros H; apply Hn; right; exact H).
  apply lookup_insert_ne. intros Heq. apply Hn. left. exact Heq.
Qed.

Lemma new_cells_head (dim : DimensionConfig) (dims : list DimensionConfig) :
  ~ In (name dim) (map name dims) ->
  cells (new (mkConfig (dim :: dims))) !! name dim
  = Some (CfCCell.new (cell_config dim)).
Proof.
  intros Hfresh. unfold new. cbn [cells dimensions fold_left].
  rewrite new_cells_other by exact Hfresh. apply lookup_insert_eq.
Qed.

(** The first configured dimension, when no later one has its name, is
    stepped once by [update]. *)
Lemma update_loop_head (observations : gmap string R) (ts : R)
    (dim : DimensionConfig) (dims : list DimensionConfig)
    (cs : gmap string CfCCell.t) (cell : CfCCell.t) :
  cs !! name dim = Some cell ->
  ~ In (name dim) (map name dims) ->
  (forall d, In d dims -> is_Some (cs !! name d)) ->
  exists cs' ds' cf',
    for_of (update_dim observations ts) (dim :: dims) (cs, ∅, ∅) = Ok (cs', ds', cf') /\
    cs' !! name dim = Some (snd (CfCCell.step cell (obsVector observations dim) ts)) /\
    (forall n, is_Some (cs' !! n) <-> is_Some (cs !! n)).
Proof.
  intros Hcell Hfresh Hcells.
  pose proof (update_dim_Some observations ts cs ∅ ∅ dim cell Hcell) as Hstep.
  cbv zeta in Hstep.
  set (cell' := snd (CfCCell.step cell (obsVector observations dim) ts)) in *.
  destruct (update_loop (fun _ => True) (fun _ _ _ _ => I) observations ts dims
              (<[name dim := cell']> cs)
              (<[name dim := aggregate (CfCCell.state cell')]> ∅)
              (<[name dim := exp (- 0.1 / avgTau (CfCCell.tau cell'))]> ∅))
    as (cs' & ds' & cf' & Hrun & _ & Hdom & _ & Hout).
  { intros d Hd. destruct (decide (name dim = name d)) as [Heq|Hne].
    - rewrite Heq, lookup_insert_eq. eauto.
    - rewrite lookup_insert_ne by exact Hne. apply Hcells, Hd. }
  { intros; exact I. }
  exists cs', ds', cf'.
  split; [rewrite for_of_cons, Hstep; exact Hrun|].
  split.
  - destruct (Hout _ Hfresh) as (-> & _). apply lookup_insert_eq.
  - intros n. rewrite Hdom. destruct (decide (name dim = n)) as [<-|Hne].
    + rewrite lookup_insert_eq, Hcell. split; eauto.
    + rewrite lookup_insert_ne by exact Hne. tauto.
Qed.

(** The time constants of the cardiovascular cell of a fresh default
    estimator after one step without observation: each is
    [0.1 * 3600 + 0.9 * 1830 = 2007]. *)
Lemma cardiovascular_avgTau (ts : R) :
  let dim := mkDim "cardiovascular" 60 3600 in
  avgTau (CfCCell.tau (snd (CfCCell.step (CfCCell.new (cell_config dim))
                                          (obsVector ∅ dim) ts)))
  = 2007.
Proof.
  cbv [CfCCell.step CfCCell.updateTau CfCCell.new cell_config obsVector snd
       CfCCell.tau CfCCell.state CfCCell.config CfCCell.stateDim
       CfCCell.tauMin CfCCell.tauMax tauMin tauMax name zeros repeat
       for_index seq fold_left length Nat.min avgTau Rsum INR].
  rewrite lookup_empty. cbn [default list_insert insert nth].
  replace (0 - 0) with 0 by lra.
  replace (0 * 0.5 - 0) with 0 by lra.
  replace (0 * 0.25 - 0) with 0 by lra.
  replace (0 * 0.125 - 0) with 0 by lra.
  rewrite Rabs_R0, tanh_0. lra.
Qed.

End FailingInput.

(** C3, at a failing input.  With the default configuration, after
    [update({}, 100)] the call [predict(0)] returns the confidence
    [exp(100 / 2007)], which is above 1, for the dimension
    [cardiovascular]: the horizon [futureTimestamp - lastUpdateTime] is
    -100 there and is not clamped. *)
Theorem predict_confidence_above_one :
  exists hs0 e hs,
    HealthStateEstimator.update
      (HealthStateEstimator.new HealthStateEstimator.DEFAULT_HEALTH_STATE_CONFIG)
      ∅ 100
    = Ok (hs0, e) /\
    HealthStateEstimator.predict e 0 = Ok hs /\
    HealthStateEstimator.confidence hs !! "cardiovascular"%string
    = Some (exp (100 / 2007)) /\
    1 < exp (100 / 2007).
Proof.
  set (cfg := HealthStateEstimator.DEFAULT_HEALTH_STATE_CONFIG).
  set (dim := HealthStateEstimator.mkDim "cardiovascular" 60 3600).
  assert (Hfresh : ~ In (HealthStateEstimator.name dim)
                        (map HealthStateEstimator.name
                             (tl (HealthStateEstimator.dimensions cfg)))).
  { simpl. intros H. repeat (destruct H as [H|H]; [discriminate H|]). exact H. }
  assert (Hcell : HealthStateEstimator.cells (HealthStateEstimator.new cfg)
                  !! HealthStateEstimator.name dim
                  = Some (CfCCell.new (HealthStateEstimator.cell_config dim))).
  { apply (new_cells_head dim (tl (HealthStateEstimator.dimensions cfg))), Hfresh. }
  destruct (new_estimator_wf cfg) as [Hcells _].
  destruct (update_loop_head ∅ 100 dim (tl (HealthStateEstimator.dimensions cfg))
              _ _ Hcell Hfresh)
    as (cs' & ds' & cf' & Hrun & Hcell' & Hdom).
  { intros d Hd. apply Hcells. right. exact Hd. }
  set (e' := {| HealthStateEstimator.cells := cs';
                HealthStateEstimator.config := cfg;
                HealthStateEstimator.lastUpdateTime := Some 100 |}).
  destruct (predict_loop e' 0 (HealthStateEstimator.dimensions cfg) ∅ ∅)
    as (ds2 & cf2 & Hrun2 & Hin2 & _).
  { intros d Hd. simpl. apply Hdom, Hcells, Hd. }
  destruct (Hin2 (HealthStateEstimator.name dim)) as (c & Hc & _ & Hconf).
  { left. reflexivity. }
  unfold e' in Hc. cbn [HealthStateEstimator.cells] in Hc.
  assert (Hceq : c = snd (CfCCell.step
                            (CfCCell.new (HealthStateEstimator.cell_config dim))
                            (HealthStateEstimator.obsVector ∅ dim) 100))
    by congruence.
  rewrite Hceq in Hconf.
  pose proof (cardiovascular_avgTau 100) as Havg. cbv zeta in Havg. fold dim in Havg.
  rewrite Havg in Hconf.
  eexists _, e', _. split; [|split; [|split]].
  - unfold HealthStateEstimator.update.
    change (HealthStateEstimator.dimensions
              (HealthStateEstimator.config (HealthStateEstimator.new cfg)))
      with (dim :: tl (HealthStateEstimator.dimensions cfg)).
    rewrite Hrun. reflexivity.
  - unfold HealthStateEstimator.predict.
    change (HealthStateEstimator.config e') with cfg.
    rewrite Hrun2. reflexivity.
  - cbn [HealthStateEstimator.confidence]. etransitivity; [exact Hconf|]. do 2 f_equal.
    unfold HealthStateEstimator.confidence_dt, HealthStateEstimator.truthy_time.
    cbn [HealthStateEstimator.lastUpdateTime e'].
    destruct (Req_dec_T 100 0); lra.
  - apply exp_pos_gt_1. lra.
Qed.

(* ===================================================================== *)
(** * Theorems: InterventionPlanner *)
(* ===================================================================== *)

Section Comparisons.

Lemma Rgtb_true (a b : R) : b < a -> Rgtb a b = true.
Proof. intros H. unfold Rgtb. destruct (Rlt_dec b a); [reflexivity | contradiction]. Qed.

Lemma Rgtb_false (a b : R) : a <= b -> Rgtb a b = false.
Proof. intros H. unfold Rgtb. destruct (Rlt_dec b a); [lra | reflexivity]. Qed.

Lemma Rltb_true (a b : R) : a < b -> Rltb a b = true.
Proof. intros H. unfold Rltb. destruct (Rlt_dec a b); [reflexivity | contradiction]. Qed.

Lemma Rltb_false (a b : R) : b <= a -> Rltb a b = false.
Proof. intros H. unfold Rltb. destruct (Rlt_dec a b); [lra | reflexivity]. Qed.

Lemma Rgtb_spec (a b : R) : Rgtb a b = true <-> b < a.
Proof. unfold Rgtb. destruct (Rlt_dec b a); split; auto; discriminate. Qed.

Lemma same_directionb_spec (g m : R) :
  same_directionb g m = true <-> same_direction g m.
Proof.
  unfold same_directionb, same_direction, Rgtb, Rltb.
  destruct (Rlt_dec 0 g), (Rlt_dec 0 m), (Rlt_dec g 0), (Rlt_dec m 0); simpl;
    split; intros H; try reflexivity; try discriminate H; try lra; tauto.
Qed.

Lemma or_default_0 (x : R) : or_default x 0 = x.
Proof. unfold or_default. destruct (Req_dec_T x 0); congruence. Qed.

End Comparisons.

Section Slicing.

Context {A : Type}.

Lemma slice_0_length (end_ : Z) (l : list A) :
  length (slice_0 end_ l)
  = if (end_ <? 0)%Z
    then Nat.min (Z.to_nat (Z.max (Z.of_nat (length l) + end_) 0)) (length l)
    else Nat.min (Z.to_nat end_) (length l).
Proof. unfold slice_0. destruct (end_ <? 0)%Z; apply length_firstn. Qed.

(** A longer array has a longer slice. *)
Lemma slice_0_length_mono (end_ : Z) (l l' : list A) :
  (length l <= length l')%nat ->
  (length (slice_0 end_ l) <= length (slice_0 end_ l'))%nat.
Proof.
  intros H. rewrite !slice_0_length. destruct (end_ <? 0)%Z; lia.
Qed.

Lemma firstn_In (n : nat) (l : list A) (x : A) : In x (firstn n l) -> In x l.
Proof.
    revert l. induction n as [|n IH]; intros [|y l]; simpl; try tauto.
    intros [->|H]; [left; reflexivity | right; apply IH, H].
Qed.

Lemma slice_0_In (end_ : Z) (l : list A) (x : A) : In x (slice_0 end_ l) -> In x l.
Proof. unfold slice_0. destruct (end_ <? 0)%Z; apply firstn_In. Qed.

End Slicing.

Section Sorting.

Import InterventionPlanner.

Lemma insert_by_score_filter (keep : ScoredAction -> bool)
      (x : ScoredAction) (l : list ScoredAction) :
  length (List.filter keep (insert_by_score x l))
  = length (List.filter keep (x :: l)).
Proof.
  induction l as [|y l IH]; [reflexivity|].
  simpl insert_by_score. destruct (Rle_dec (score y) (score x)); [reflexivity|].
  simpl in *. destruct (keep y), (keep x); simpl in *; lia.
Qed.

(** Sorting does not change how many entries pass a test. *)
Lemma sort_by_score_filter (keep : ScoredAction -> bool) (l : list ScoredAction) :
  length (List.filter keep (sort_by_score l)) = length (List.filter keep l).
Proof.
  induction l as [|x l IH]; [reflexivity|].
  unfold sort_by_score in *. simpl fold_right.
  rewrite insert_by_score_filter. simpl. destruct (keep x); simpl; lia.
Qed.

Lemma insert_by_score_In (x y : ScoredAction) (l : list ScoredAction) :
  In y (insert_by_score x l) <-> y = x \/ In y l.
Proof.
  induction l as [|z l IH]; simpl.
  - intuition congruence.
  - destruct (Rle_dec (score z) (score x)); simpl; [intuition congruence|].
    rewrite IH. intuition congruence.
Qed.

Lemma sort_by_score_In (y : ScoredAction) (l : list ScoredAction) :
  In y (sort_by_score l) <-> In y l.
Proof.
  induction l as [|x l IH]; [reflexivity|].
  unfold sort_by_score in *. simpl fold_right.
  rewrite insert_by_score_In, IH. simpl. intuition congruence.
Qed.

End Sorting.

Section Scoring.

Import InterventionPlanner.

(** What one effect adds to the benefit, whatever was accumulated before. *)
Lemma score_effect_acc (gap : gmap string R) (b w : R) (e : ActionEffect) :
  score_effect gap (b, w) e
  = (b + fst (score_effect gap (0, 0) e), w + confidence e).
Proof.
  unfold score_effect.
  destruct (_ || _)%bool; [|destruct (Rgtb _ _)]; simpl; f_equal; ring.
Qed.

(** The loop over the effects adds up the contributions and the
    confidences. *)
Lemma score_effects_sum (gap : gmap string R) (es : list ActionEffect) :
  forall b w : R,
    fold_left (score_effect gap) es (b, w)
    = (b + fold_right Rplus 0 (map (fun e => fst (score_effect gap (0, 0) e)) es),
       w + fold_right Rplus 0 (map confidence es)).
Proof.
  induction es as [|e es IH]; intros b w; cbn [fold_left map fold_right].
  - f_equal; ring.
  - rewrite score_effect_acc, IH. f_equal; ring.
Qed.

(** The three cases of the contribution of one effect. *)
Lemma score_effect_cases (gap : gmap string R) (e : ActionEffect) :
  let g := get_or_0 gap (dimension e) in
  let contribution := fst (score_effect gap (0, 0) e) in
  (same_direction g (magnitude e) ->
   contribution = Rmin (Rabs g) (Rabs (magnitude e)) * confidence e) /\
  (~ same_direction g (magnitude e) -> 2 * Rabs g < Rabs (magnitude e) ->
   contribution = - (0.1 * Rabs (magnitude e) * confidence e)) /\
  (~ same_direction g (magnitude e) -> Rabs (magnitude e) <= 2 * Rabs g ->
   contribution = 0).
Proof.
  cbv zeta. unfold score_effect.
  fold (same_directionb (get_or_0 gap (dimension e)) (magnitude e)).
  pose proof (same_directionb_spec (get_or_0 gap (dimension e)) (magnitude e)) as Hdir.
  destruct (same_directionb _ _).
  - repeat split; intros; simpl; try ring; exfalso; tauto.
  - assert (Hno : ~ same_direction (get_or_0 gap (dimension e)) (magnitude e)).
    { intros H. apply Hdir in H. discriminate H. }
    repeat split; intros; try contradiction.
    + rewrite Rgtb_true by lra. simpl. ring.
    + rewrite Rgtb_false by lra. reflexivity.
Qed.

(** The score of an action is a clamped difference, and only the
    subtracted sparsity weight depends on [lambda]. *)
Lemma score_action_lambda (cfg : PlannerConfig) (gap : gmap string R) (a : Action) :
  exists benefit : R,
    forall l : R,
      score_action (with_lambda cfg l) gap a
      = Rmax 0 (benefit - l - costWeight cfg * cost a).
Proof.
  unfold score_action.
  destruct (fold_left (score_effect gap) (effects a) (0, 0)) as [b w].
  eexists. intros l. reflexivity.
Qed.

Lemma score_action_antitone (cfg : PlannerConfig) (gap : gmap string R) (a : Action)
    (l1 l2 : R) :
  l1 <= l2 ->
  score_action (with_lambda cfg l2) gap a <= score_action (with_lambda cfg l1) gap a.
Proof.
  intros Hl. destruct (score_action_lambda cfg gap a) as [b Hb].
  rewrite !Hb. apply Rle_max_compat_l. lra.
Qed.

(** The entries of [scoreActions] are the actions within the budget, each
    with its own score. *)
Lemma scoreActions_In (cfg : PlannerConfig) (available : list Action)
    (gap : gmap string R) (budget : option R) (sa : ScoredAction) :
  In sa (scoreActions cfg available gap budget) ->
  In (scored_action sa) available /\
  within_budget budget (scored_action sa) = true /\
  score sa = score_action cfg gap (scored_action sa).
Proof.
  unfold scoreActions. rewrite sort_by_score_In, in_map_iff.
  intros (a & <- & Ha). apply filter_In in Ha. simpl. tauto.
Qed.

(** Fewer actions pass the threshold under the larger sparsity weight. *)
Lemma passing_antitone (cfg : PlannerConfig) (gap : gmap string R) (l1 l2 : R)
    (acts : list Action) :
  l1 <= l2 ->
  (length (List.filter (fun sa => Rgtb (score sa) 0.1)
             (map (fun a => mkScored a (score_action (with_lambda cfg l2) gap a)) acts))
   <= length (List.filter (fun sa => Rgtb (score sa) 0.1)
                (map (fun a => mkScored a (score_action (with_lambda cfg l1) gap a)) acts)))%nat.
Proof.
  intros Hl. induction acts as [|a acts IH]; simpl; [lia|].
  pose proof (score_action_antitone cfg gap a l1 l2 Hl) as Hs.
  destruct (Rgtb (score_action (with_lambda cfg l2) gap a) 0.1) eqn:E2.
  - apply Rgtb_spec in E2. rewrite Rgtb_true by lra. simpl. lia.
  - destruct (Rgtb (score_action (with_lambda cfg l1) gap a) 0.1); simpl; lia.
Qed.

Lemma selectActions_antitone (cfg : PlannerConfig) (gap : gmap string R)
    (constraints : option Constraints) (l1 l2 : R) :
  l1 <= l2 ->
  (length (selectActions (with_lambda cfg l2) gap constraints)
   <= length (selectActions (with_lambda cfg l1) gap constraints))%nat.
Proof.
  intros Hl. unfold selectActions. apply slice_0_length_mono.
  unfold scoreActions. rewrite !sort_by_score_filter.
  apply passing_antitone, Hl.
Qed.

Lemma selectActions_In (cfg : PlannerConfig) (gap : gmap string R)
    (constraints : option Constraints) (sa : ScoredAction) :
  In sa (selectActions cfg gap constraints) -> In (scored_action sa) (library cfg).
Proof.
  unfold selectActions. intros H. apply slice_0_In, filter_In in H.
  destruct H as [H _]. apply scoreActions_In in H. destruct H as [H _].
  unfold availableActions in H.
  destruct (constraints ≫= maxDuration) as [d|];
    [destruct (Req_dec_T d 0); [|apply filter_In in H; destruct H as [H _]]|];
    (destruct (constraints ≫= excludeCategories);
       [apply filter_In in H; destruct H as [H _]|]); exact H.
Qed.

Lemma plan_step_length (dims : gset string) (sa : ScoredAction) g pa ex g' pa' ex' :
    plan_step dims (g, pa, ex) sa = Ok (g', pa', ex') -> length pa' = S (length pa).
Proof.
    unfold plan_step. destruct (mainEffect (scored_action sa)) as [main|]; simpl.
    - intros [= <- <- <-]. rewrite length_app. simpl. lia.
    - discriminate.
Qed.

(** The loop of [plan] plans one action per selected action. *)
Lemma plan_loop_length (dims : gset string) (selected : list ScoredAction) :
    forall g pa ex g' pa' ex',
      for_of (plan_step dims) selected (g, pa, ex) = Ok (g', pa', ex') ->
      length pa' = (length pa + length selected)%nat.
Proof.
    induction selected as [|sa selected IH]; intros g pa ex g' pa' ex' H.
    - injection H as <- <- <-. simpl. lia.
    - rewrite for_of_cons in H.
      destruct (plan_step dims (g, pa, ex) sa) as [[[g1 pa1] ex1]|] eqn:E;
        simpl in H; [|discriminate H].
      apply IH in H. apply plan_step_length in E. rewrite H, E. simpl. lia.
Qed.

Lemma plan_step_returns (dims : gset string) (sa : ScoredAction)
      (acc : gmap string R * list PlannedAction * list Explanation) :
    effects (scored_action sa) <> [] ->
    exists acc', plan_step dims acc sa = Ok acc'.
Proof.
    intros Hsa. destruct acc as [[g pa] ex]. unfold plan_step, mainEffect.
    destruct (effects (scored_action sa)) as [|e0 rest]; [congruence|].
    eexists. reflexivity.
Qed.

(** The loop returns when every selected action has an effect. *)
Lemma plan_loop_returns (dims : gset string) (selected : list ScoredAction) :
    Forall (fun sa => effects (scored_action sa) <> []) selected ->
    forall acc, exists acc', for_of (plan_step dims) selected acc = Ok acc'.
Proof.
    induction 1 as [|sa selected Hsa _ IH]; intros acc.
    - eexists. reflexivity.
    - rewrite for_of_cons.
      destruct (plan_step_returns dims sa acc Hsa) as [acc1 ->]. simpl. apply IH.
Qed.

Lemma plan_activeCount (p : t) (cur tgt : gmap string R)
    (constraints : option Constraints) (pl : InterventionPlan) :
  plan p cur tgt constraints = Ok pl ->
  activeCount pl
  = length (selectActions (config p) (calculateGap cur tgt) constraints).
Proof.
  unfold plan.
  destruct (for_of _ _ _) as [[[g pa] ex]|] eqn:E; [|discriminate].
  intros [= <-]. simpl. apply plan_loop_length in E. simpl in E. exact E.
Qed.

Lemma plan_returns (p : t) (cur tgt : gmap string R)
    (constraints : option Constraints) :
  Forall (fun a => effects a <> []) (library (config p)) ->
  exists pl, plan p cur tgt constraints = Ok pl.
Proof.
  intros Hlib. unfold plan.
  destruct (plan_loop_returns (dom (calculateGap cur tgt))
              (selectActions (config p) (calculateGap cur tgt) constraints))
    with (acc := (calculateGap cur tgt, @nil PlannedAction, @nil Explanation))
    as [[[g pa] ex] ->].
  - apply List.Forall_forall. intros sa Hsa. apply selectActions_In in Hsa.
    rewrite List.Forall_forall in Hlib. apply Hlib, Hsa.
  - eexists. reflexivity.
Qed.

End Scoring.

(** C8.  For fixed states, constraints and remaining configuration, and
    sparsity weights [l1 <= l2]: whenever [plan] returns under both, the
    plan under [l2] has at most as many actions as the plan under [l1];
    and [plan] does return under both when every action of the library has
    an effect. *)
Theorem plan_activeCount_antitone (cfg : InterventionPlanner.PlannerConfig)
    (l1 l2 : R) (currentState targetState : gmap string R)
    (constraints : option InterventionPlanner.Constraints) :
  l1 <= l2 ->
  (forall p1 p2,
      InterventionPlanner.plan
        (InterventionPlanner.new (InterventionPlanner.with_lambda cfg l1))
        currentState targetState constraints = Ok p1 ->
      InterventionPlanner.plan
        (InterventionPlanner.new (InterventionPlanner.with_lambda cfg l2))
        currentState targetState constraints = Ok p2 ->
      (InterventionPlanner.activeCount p2 <= InterventionPlanner.activeCount p1)%nat) /\
  (Forall (fun a => InterventionPlanner.effects a <> [])
          (InterventionPlanner.library cfg) ->
   exists p1 p2,
     InterventionPlanner.plan
       (InterventionPlanner.new (InterventionPlanner.with_lambda cfg l1))
       currentState targetState constraints = Ok p1 /\
     InterventionPlanner.plan
       (InterventionPlanner.new (InterventionPlanner.with_lambda cfg l2))
       currentState targetState constraints = Ok p2 /\
     (InterventionPlanner.activeCount p2 <= InterventionPlanner.activeCount p1)%nat).
Proof.
  intros Hl.
  assert (Hboth : forall p1 p2,
      InterventionPlanner.plan
        (InterventionPlanner.new (InterventionPlanner.with_lambda cfg l1))
        currentState targetState constraints = Ok p1 ->
      InterventionPlanner.plan
        (InterventionPlanner.new (InterventionPlanner.with_lambda cfg l2))
        currentState targetState constraints = Ok p2 ->
      (InterventionPlanner.activeCount p2 <= InterventionPlanner.activeCount p1)%nat).
  { intros p1 p2 H1 H2.
    rewrite (plan_activeCount _ _ _ _ _ H1), (plan_activeCount _ _ _ _ _ H2).
    apply selectActions_antitone, Hl. }
  split; [exact Hboth|].
  intros Hlib.
  destruct (plan_returns
              (InterventionPlanner.new (InterventionPlanner.with_lambda cfg l1))
              currentState targetState constraints Hlib) as [p1 H1].
  destruct (plan_returns
              (InterventionPlanner.new (InterventionPlanner.with_lambda cfg l2))
              currentState targetState constraints Hlib) as [p2 H2].
  exists p1, p2. eauto.
Qed.

Lemma plan_activeCount_antitone_witness :
  let current : gmap string R := {[ "stress"%string := 0.9; "energy"%string := 0.2 ]} in
  let target : gmap string R := {[ "stress"%string := 0.2; "energy"%string := 0.8 ]} in
  exists p1 p2,
    InterventionPlanner.plan
      (InterventionPlanner.new
         (InterventionPlanner.with_lambda InterventionPlanner.DEFAULT_PLANNER_CONFIG 0.1))
      current target None = Ok p1 /\
    InterventionPlanner.plan
      (InterventionPlanner.new
         (InterventionPlanner.with_lambda InterventionPlanner.DEFAULT_PLANNER_CONFIG 0.5))
      current target None = Ok p2 /\
    (InterventionPlanner.activeCount p2 <= InterventionPlanner.activeCount p1)%nat.
Proof.
  intros current target.
  destruct (plan_activeCount_antitone InterventionPlanner.DEFAULT_PLANNER_CONFIG
              0.1 0.5 current target None) as [_ H].
  - lra.
  - apply H. repeat constructor; discriminate.
Defined.

(** C9, as the code has it.  The score of an action is
    [max(0, normalized - lambda - costWeight * cost)], where [normalized]
    is the accumulated benefit divided by the total confidence of the
    effects when that total is positive, and the benefit itself otherwise.
    Each effect contributes to the benefit
    - [min(|gap|, |magnitude|) * confidence] when its magnitude and the gap
      of its dimension are both positive or both negative;
    - otherwise [- 0.1 * |magnitude| * confidence] when [|magnitude|] is
      more than twice [|gap|];
    - otherwise nothing.
    So the penalty is applied only to an effect whose sign does not match
    the gap. *)
Theorem score_action_rule (cfg : InterventionPlanner.PlannerConfig)
    (gap : gmap string R) (a : InterventionPlanner.Action) :
  exists (contribution : InterventionPlanner.ActionEffect -> R) (normalized : R),
    (forall e,
        let g := InterventionPlanner.get_or_0 gap (InterventionPlanner.dimension e) in
        let m := InterventionPlanner.magnitude e in
        let c := InterventionPlanner.confidence e in
        (same_direction g m -> contribution e = Rmin (Rabs g) (Rabs m) * c) /\
        (~ same_direction g m -> 2 * Rabs g < Rabs m ->
         contribution e = - (0.1 * Rabs m * c)) /\
        (~ same_direction g m -> Rabs m <= 2 * Rabs g -> contribution e = 0)) /\
    let benefit :=
      fold_right Rplus 0 (map contribution (InterventionPlanner.effects a)) in
    let totalWeight :=
      fold_right Rplus 0
        (map InterventionPlanner.confidence (InterventionPlanner.effects a)) in
    (0 < totalWeight -> normalized = benefit / totalWeight) /\
    (totalWeight <= 0 -> normalized = benefit) /\
    InterventionPlanner.score_action cfg gap a
    = Rmax 0 (normalized - InterventionPlanner.lambda cfg
              - InterventionPlanner.costWeight cfg * InterventionPlanner.cost a) /\
    0 <= InterventionPlanner.score_action cfg gap a.
Proof.
  set (contribution := fun e => fst (InterventionPlanner.score_effect gap (0, 0) e)).
  set (benefit := fold_right Rplus 0 (map contribution (InterventionPlanner.effects a))).
  set (totalWeight :=
         fold_right Rplus 0
           (map InterventionPlanner.confidence (InterventionPlanner.effects a))).
  exists contribution, (if Rgtb totalWeight 0 then benefit / totalWeight else benefit).
  split; [intros e; apply score_effect_cases|].
  cbv zeta. fold benefit totalWeight.
  assert (Hscore : InterventionPlanner.score_action cfg gap a
                   = Rmax 0 ((if Rgtb totalWeight 0 then benefit / totalWeight else benefit)
                             - InterventionPlanner.lambda cfg
                             - InterventionPlanner.costWeight cfg
                               * InterventionPlanner.cost a)).
  { unfold InterventionPlanner.score_action.
    rewrite score_effects_sum. fold contribution. fold benefit. fold totalWeight.
    rewrite !Rplus_0_l. reflexivity. }
  split; [intros H; rewrite Rgtb_true by exact H; reflexivity|].
  split; [intros H; rewrite Rgtb_false by exact H; reflexivity|].
  split; [exact Hscore|].
  rewrite Hscore. apply Rmax_l.
Qed.

(** C9, as the specification words it, fails.  With the default weights,
    an effect of magnitude 0.5 and confidence 1 on a dimension whose gap
    is 0.2 points the way the gap does and is more than twice the gap: the
    code scores the action [0.2 - 0.1 = 0.1], with no penalty, where the
    two rules of the specification give [0.2 - 0.05 - 0.1 = 0.05]. *)
Lemma score_has_no_penalty_when_signs_match :
  let a := InterventionPlanner.mkAction "boost" "Boost" "activity" 0 10
             [InterventionPlanner.mkEffect "energy" 0.5 1 0] in
  let gap : gmap string R := {[ "energy"%string := 0.2 ]} in
  InterventionPlanner.score_action InterventionPlanner.DEFAULT_PLANNER_CONFIG gap a = 0.1 /\
  claimed_score InterventionPlanner.DEFAULT_PLANNER_CONFIG gap a = 0.05 /\
  InterventionPlanner.score_action InterventionPlanner.DEFAULT_PLANNER_CONFIG gap a
  <> claimed_score InterventionPlanner.DEFAULT_PLANNER_CONFIG gap a.
Proof.
  intros a gap.
  assert (Hgap : InterventionPlanner.get_or_0 gap "energy" = 0.2).
  { unfold InterventionPlanner.get_or_0, gap.
    rewrite lookup_singleton_eq. apply or_default_0. }
  assert (Habs1 : Rabs 0.2 = 0.2) by (apply Rabs_pos_eq; lra).
  assert (Habs2 : Rabs 0.5 = 0.5) by (apply Rabs_pos_eq; lra).
  assert (Hcode : InterventionPlanner.score_action
                    InterventionPlanner.DEFAULT_PLANNER_CONFIG gap a = 0.1).
  { unfold InterventionPlanner.score_action, InterventionPlanner.score_effect, a.
    cbn [InterventionPlanner.effects fold_left InterventionPlanner.dimension
         InterventionPlanner.magnitude InterventionPlanner.confidence
         InterventionPlanner.cost InterventionPlanner.lambda
         InterventionPlanner.costWeight InterventionPlanner.DEFAULT_PLANNER_CONFIG].
    rewrite Hgap, Habs1, Habs2.
    rewrite (Rgtb_true 0.2 0), (Rgtb_true 0.5 0) by lra. cbn [andb orb].
    rewrite Rmin_left by lra.
    rewrite (Rgtb_true (0 + 1) 0) by lra.
    rewrite Rmax_right by lra. lra. }
  assert (Hclaim : claimed_score InterventionPlanner.DEFAULT_PLANNER_CONFIG gap a = 0.05).
  { unfold claimed_score, claimed_effect_benefit, same_directionb, a.
    cbn [InterventionPlanner.effects map fold_right InterventionPlanner.dimension
         InterventionPlanner.magnitude InterventionPlanner.confidence
         InterventionPlanner.cost InterventionPlanner.lambda
         InterventionPlanner.costWeight InterventionPlanner.DEFAULT_PLANNER_CONFIG].
    rewrite Hgap, Habs1, Habs2.
    rewrite (Rgtb_true 0.2 0), (Rgtb_true 0.5 0) by lra. cbn [andb orb].
    rewrite Rmin_left by lra.
    rewrite (Rgtb_true 0.5 (2 * 0.2)) by lra.
    rewrite Rmax_right by lra. lra. }
  split; [exact Hcode|]. split; [exact Hclaim|].
  rewrite Hcode, Hclaim. lra.
Qed.

(* ===================================================================== *)
(** * Further properties: the statistics, the predictor, the threshold *)
(* ===================================================================== *)

Section MoreStatistics.

Import OnlineStats.




End MoreStatistics.




Section MorePredictor.

Import ExponentialPredictor.


End MorePredictor.

(** The predictor has no prediction before its first value and one
    after every [update]; the first [update] returns the error 0 and makes
    the value the prediction; every later [update] returns the distance
    between the value and the prediction made just before it. *)
Lemma predictor_error_is_distance (s : ExponentialPredictor.t) (value : R) :
  ExponentialPredictor.predict (ExponentialPredictor.new
                                  (ExponentialPredictor.alpha s)
                                  (ExponentialPredictor.beta s)) = None /\
  is_Some (ExponentialPredictor.predict (snd (ExponentialPredictor.update s value))) /\
  (ExponentialPredictor.predict s = None ->
   fst (ExponentialPredictor.update s value) = 0 /\
   ExponentialPredictor.predict (snd (ExponentialPredictor.update s value)) = Some value) /\
  (forall p, ExponentialPredictor.predict s = Some p ->
   fst (ExponentialPredictor.update s value) = Rabs (value - p) /\
   0 <= fst (ExponentialPredictor.update s value)).
Proof.
  unfold ExponentialPredictor.predict, ExponentialPredictor.update.
  destruct (ExponentialPredictor.level s) as [l|]; cbn [fst snd ExponentialPredictor.level
    ExponentialPredictor.trend ExponentialPredictor.new].
  - split; [reflexivity|]. split; [eauto|]. split; [discriminate|].
    intros p [= <-]. split; [reflexivity | apply Rabs_pos].
  - split; [reflexivity|]. split; [eauto|]. split; [|discriminate].
    intros _. split; [reflexivity|]. f_equal. lra.
Qed.



Section MoreThreshold.

Import AdaptiveThreshold.

Lemma update_params (s : t) (x : R) :
  alpha (snd (update s x)) = alpha s /\ k (snd (update s x)) = k s /\
  initial (snd (update s x)) = initial s /\ initialized (snd (update s x)) = true.
Proof. unfold update. destruct (initialized s); simpl; auto. Qed.

Lemma update_variance_nonneg (s : t) (x : R) :
  0 <= alpha s <= 1 -> 0 <= variance s -> 0 <= variance (snd (update s x)).
Proof.
  intros Ha Hv. unfold update. destruct (initialized s); simpl; [|lra].
  pose proof (Rle_0_sqr (x - mean s)) as Hsq. unfold Rsqr in Hsq. nra.
Qed.

Lemma feed_params (xs : list R) : forall s : t,
  alpha (threshold_feed s xs) = alpha s /\ k (threshold_feed s xs) = k s /\
  initial (threshold_feed s xs) = initial s.
Proof.
  unfold threshold_feed.
  induction xs as [|x xs IH]; intros s; cbn [fold_left]; [auto|].
  destruct (IH (snd (update s x))) as (-> & -> & ->).
  destruct (update_params s x) as (-> & -> & -> & _). auto.
Qed.

Lemma feed_variance_nonneg (xs : list R) : forall s : t,
  0 <= alpha s <= 1 -> 0 <= variance s -> 0 <= variance (threshold_feed s xs).
Proof.
  unfold threshold_feed.
  induction xs as [|x xs IH]; intros s Ha Hv; cbn [fold_left]; [exact Hv|].
  apply IH.
  - destruct (update_params s x) as (-> & _). exact Ha.
  - apply update_variance_nonneg; assumption.
Qed.

End MoreThreshold.

(** X4.  With a decay [alpha] in [0,1], the variance the threshold tracks
    is never negative, whatever surprises are fed to it; the threshold is
    then [mean + k * sqrt(variance)] of a real root, not below the mean
    when [k >= 0].  After any run [reset] gives back the threshold as it
    was constructed. *)
Theorem threshold_variance_nonneg (alpha k initial : R) (xs : list R) :
  0 <= alpha <= 1 ->
  let s := threshold_feed (AdaptiveThreshold.new alpha k initial) xs in
  0 <= AdaptiveThreshold.variance s /\
  (0 <= k -> AdaptiveThreshold.mean s <= AdaptiveThreshold.get s) /\
  AdaptiveThreshold.reset s = AdaptiveThreshold.new alpha k initial.
Proof.
  intros Ha s.
  assert (Hv : 0 <= AdaptiveThreshold.variance s).
  { apply feed_variance_nonneg; simpl; lra. }
  destruct (feed_params xs (AdaptiveThreshold.new alpha k initial)) as (Hal & Hk & Hi).
  fold s in Hal, Hk, Hi. simpl in Hal, Hk, Hi.
  split; [exact Hv|]. split.
  - intros Hk0. unfold AdaptiveThreshold.get. rewrite Hk.
    pose proof (sqrt_pos (AdaptiveThreshold.variance s)). nra.
  - unfold AdaptiveThreshold.reset, AdaptiveThreshold.new. rewrite Hal, Hk, Hi.
    reflexivity.
Qed.

Lemma threshold_variance_nonneg_witness :
  0 <= AdaptiveThreshold.variance
         (threshold_feed (AdaptiveThreshold.new 0.1 2 1) [0; 3; 1]).
Proof.
  destruct (threshold_variance_nonneg 0.1 2 1 [0; 3; 1]) as [H _]; [lra | exact H].
Defined.

(** The first surprise a threshold sees becomes the threshold: its
    first [update] returns the surprise itself, whatever the seed
    [initial] was, so that a first surprise never exceeds its threshold. *)
Lemma threshold_first_update (alpha k initial surprise : R) :
  fst (AdaptiveThreshold.update (AdaptiveThreshold.new alpha k initial) surprise)
  = surprise /\
  Rgtb surprise
       (fst (AdaptiveThreshold.update (AdaptiveThreshold.new alpha k initial) surprise))
  = false.
Proof.
  assert (H : fst (AdaptiveThreshold.update (AdaptiveThreshold.new alpha k initial)
                     surprise) = surprise).
  { unfold AdaptiveThreshold.update, AdaptiveThreshold.get. simpl.
    rewrite sqrt_0. ring. }
  split; [exact H|]. rewrite H. apply Rgtb_false. lra.
Qed.

(* ===================================================================== *)
(** * Further properties: SurpriseCalculator *)
(* ===================================================================== *)

Section MoreCalculator.

Import SurpriseCalculator.

(** The standard deviation of errors that were all 0. *)
Lemma stdDev_of_zero_m2 (es : OnlineStats.t) :
  OnlineStats.m2 es = 0 -> or_default (OnlineStats.getStdDev es) 1 = 1.
Proof.
  intros H. unfold OnlineStats.getStdDev, OnlineStats.getVariance. rewrite H.
  assert (Hs : sqrt (if (1 <? OnlineStats.count es)%nat
                     then 0 / (INR (OnlineStats.count es) - 1) else 0) = 0).
  { destruct (1 <? OnlineStats.count es)%nat; [|apply sqrt_0].
    unfold Rdiv. rewrite Rmult_0_l. apply sqrt_0. }
  rewrite Hs. unfold or_default. destruct (Req_dec_T 0 0); [reflexivity | lra].
Qed.

(** The first call of a fresh calculator. *)
Lemma calculate_fresh (alpha thresholdK value : R) :
  let r := fst (calculate (new alpha thresholdK) value) in
  prediction r = None /\ zscore r = 0 /\ surprise r = 0 /\
  threshold_value r = 0 /\ keep r = false /\
  steady (snd (calculate (new alpha thresholdK) value)) value.
Proof.
  cbv [calculate new fst snd predictor errorStats stats threshold
       ExponentialPredictor.update ExponentialPredictor.new
       ExponentialPredictor.predict ExponentialPredictor.level
       ExponentialPredictor.trend ExponentialPredictor.alpha ExponentialPredictor.beta
       AdaptiveThreshold.update AdaptiveThreshold.new AdaptiveThreshold.initialized
       AdaptiveThreshold.get AdaptiveThreshold.mean AdaptiveThreshold.variance
       AdaptiveThreshold.k AdaptiveThreshold.alpha AdaptiveThreshold.initial
       OnlineStats.update OnlineStats.new OnlineStats.getMean
       OnlineStats.count OnlineStats.mean OnlineStats.m2 INR
       prediction zscore surprise threshold_value keep steady].
  set (es := {| OnlineStats.count := 1; OnlineStats.mean := 0 + (0 - 0) / 1;
                OnlineStats.m2 := 0 + (0 - 0) * (0 - (0 + (0 - 0) / 1)) |}).
  assert (Hsd : or_default (OnlineStats.getStdDev es) 1 = 1).
  { apply stdDev_of_zero_m2. simpl. lra. }
  rewrite Hsd.
  assert (Hz : (0 - (0 + (0 - 0) / 1)) / 1 = 0) by lra.
  rewrite Hz.
  assert (Hs : 0.5 * 0 * 0 = 0) by lra.
  rewrite Hs, sqrt_0.
  assert (Ht : 0 + thresholdK * 0 = 0) by lra.
  rewrite Ht.
  repeat split; try reflexivity; try lra.
  apply Rgtb_false. lra.
Qed.



End MoreCalculator.

(** A fresh calculator never keeps its first value: the call has no
    prediction, the z-score and the surprise are 0, and the threshold it
    is compared with is 0 as well. *)
Lemma calculator_first_value_not_kept (alpha thresholdK value : R) :
  let r := fst (SurpriseCalculator.calculate
                  (SurpriseCalculator.new alpha thresholdK) value) in
  SurpriseCalculator.prediction r = None /\
  SurpriseCalculator.zscore r = 0 /\
  SurpriseCalculator.surprise r = 0 /\
  SurpriseCalculator.threshold_value r = 0 /\
  SurpriseCalculator.keep r = false.
Proof.
  pose proof (calculate_fresh alpha thresholdK value) as H. cbv zeta in *.
  destruct H as (H1 & H2 & H3 & H4 & H5 & _). auto.
Qed.


(* ===================================================================== *)
(** * Further properties: the reset of a calculator *)
(* ===================================================================== *)

Section CalculatorReset.

Import SurpriseCalculator.

(** [calculate] leaves the parameters of the threshold as they are. *)
Lemma calculate_threshold_params (c : t) (value : R) :
  AdaptiveThreshold.alpha (threshold (snd (calculate c value)))
  = AdaptiveThreshold.alpha (threshold c) /\
  AdaptiveThreshold.k (threshold (snd (calculate c value)))
  = AdaptiveThreshold.k (threshold c) /\
  AdaptiveThreshold.initial (threshold (snd (calculate c value)))
  = AdaptiveThreshold.initial (threshold c).
Proof.
  unfold calculate.
  destruct (ExponentialPredictor.update (predictor c) value) as [error p'].
  match goal with
  | |- context [AdaptiveThreshold.update ?th ?s] =>
      pose proof (update_params th s) as (Ha & Hk & Hi & _);
      destruct (AdaptiveThreshold.update th s) as [cur th']
  end.
  simpl in *. auto.
Qed.

Lemma feed_threshold_params (vs : list R) : forall c : t,
  AdaptiveThreshold.alpha (threshold (feed c vs)) = AdaptiveThreshold.alpha (threshold c) /\
  AdaptiveThreshold.k (threshold (feed c vs)) = AdaptiveThreshold.k (threshold c) /\
  AdaptiveThreshold.initial (threshold (feed c vs))
  = AdaptiveThreshold.initial (threshold c).
Proof.
  unfold feed. induction vs as [|v vs IH]; intros c; cbn [fold_left]; [auto|].
  destruct (IH (snd (calculate c v))) as (-> & -> & ->).
  apply calculate_threshold_params.
Qed.

End CalculatorReset.

(** X6.  [reset] of a calculator forgets the smoothing factor it was
    constructed with: after any run of [calculate], [reset] gives the
    calculator the constructor builds for the default factor 0.3 and the
    same sensitivity, so it gives back the calculator as it was constructed
    only when that was constructed with the factor 0.3. *)
Theorem calculator_reset_drops_alpha (alpha thresholdK : R) (vs : list R) :
  SurpriseCalculator.reset (SurpriseCalculator.feed (SurpriseCalculator.new alpha thresholdK) vs)
  = SurpriseCalculator.new 0.3 thresholdK /\
  (SurpriseCalculator.reset
     (SurpriseCalculator.feed (SurpriseCalculator.new alpha thresholdK) vs)
   = SurpriseCalculator.new alpha thresholdK
   <-> alpha = 0.3).
Proof.
  assert (Hreset : SurpriseCalculator.reset
                     (SurpriseCalculator.feed (SurpriseCalculator.new alpha thresholdK) vs)
                   = SurpriseCalculator.new 0.3 thresholdK).
  { unfold SurpriseCalculator.reset, AdaptiveThreshold.reset.
    destruct (feed_threshold_params vs (SurpriseCalculator.new alpha thresholdK))
      as (-> & -> & ->).
    reflexivity. }
  split; [exact Hreset|]. rewrite Hreset. split.
  - intros H.
    apply (f_equal (fun c => ExponentialPredictor.alpha (SurpriseCalculator.predictor c))) in H.
    simpl in H. symmetry. exact H.
  - intros ->. reflexivity.
Qed.

(* ===================================================================== *)
(** * Further properties: SurpriseFilter *)
(* ===================================================================== *)

Section MoreFilter.

Import SurpriseFilter.

Lemma filter_other_calculators (f : t) (r : HealthRecord) (key : string) :
  key <> record_type r ->
  calculators (snd (filter f r)) !! key = calculators f !! key.
Proof.
  intros Hne. unfold filter.
  destruct (sampleCount f + 1 <? minSamples (config f))%Z; [reflexivity|].
  destruct (extractValue r); [|reflexivity].
  destruct (SurpriseCalculator.calculate _ _) as [res c']. simpl.
  apply lookup_insert_ne. congruence.
Qed.

(** [filter] writes a calculator only under a supported record type. *)
Lemma filter_unsupported_key (f : t) (r : HealthRecord) (key : string) :
  ~ In key supported_types ->
  calculators (snd (filter f r)) !! key = calculators f !! key.
Proof.
  intros Hkey. destruct (decide (key = record_type r)) as [->|Hne];
    [|apply filter_other_calculators, Hne].
  unfold filter.
  destruct (sampleCount f + 1 <? minSamples (config f))%Z; [reflexivity|].
  destruct (extractValue r) as [v|] eqn:E; [|reflexivity].
  exfalso. apply Hkey, extractValue_supported. rewrite E. eauto.
Qed.

Lemma filterEach_config (rs : list HealthRecord) : forall f : t,
  config (snd (filterEach f rs)) = config f /\
  sampleCount (snd (filterEach f rs)) = (sampleCount f + Z.of_nat (length rs))%Z.
Proof.
  induction rs as [|r rs IH]; intros f; simpl; [split; [reflexivity | lia]|].
  pose proof (filter_counts f r) as [Hc Hcfg].
  destruct (filter f r) as [res f']. simpl in *.
  specialize (IH f'). destruct (filterEach f' rs) as [ress f'']. simpl in *.
  destruct IH as [-> ->]. rewrite Hcfg, Hc. split; [reflexivity | lia].
Qed.

(** A run of warmup calls. *)
Lemma filterEach_warmup (rs : list HealthRecord) : forall f : t,
  (sampleCount f + Z.of_nat (length rs) < minSamples (config f))%Z ->
  calculators (snd (filterEach f rs)) = calculators f /\
  Forall (fun res => keep res = true /\ totalSurprise res = 0
                     /\ reason res = "warmup"%string)
         (fst (filterEach f rs)).
Proof.
  induction rs as [|r rs IH]; intros f Hlt; simpl; [split; [reflexivity | constructor]|].
  simpl length in Hlt.
  pose proof (filter_counts f r) as [Hc Hcfg].
  assert (Hw : (sampleCount f + 1 <? minSamples (config f))%Z = true)
    by (apply Z.ltb_lt; lia).
  assert (Hres : filter f r
                 = ({| keep := true; totalSurprise := 0; metricSurprises := ∅;
                       reason := "warmup" |},
                    {| calculators := calculators f;
                       sampleCount := (sampleCount f + 1)%Z;
                       config := config f |})).
  { unfold filter. rewrite Hw. reflexivity. }
  rewrite Hres in *. simpl in *.
  match goal with |- context [filterEach ?f' rs] => specialize (IH f') end.
  simpl in IH.
  destruct (filterEach _ rs) as [ress f'']. simpl in *.
  destruct IH as [Hcalc Hall]; [lia|].
  split; [exact Hcalc|]. constructor; [auto | exact Hall].
Qed.

(** The calculators the constructor seeds are fresh ones. *)
Lemma seed_calculators_lookup (cfg : FilterConfig) (key : string) :
  forall m : gmap string SurpriseCalculator.t,
    (forall c, m !! key = Some c -> c = SurpriseCalculator.new 0.3 (thresholdK cfg)) ->
    forall c, seed_calculators cfg m !! key = Some c ->
              c = SurpriseCalculator.new 0.3 (thresholdK cfg).
Proof.
  unfold seed_calculators. induction (metrics cfg) as [|metric ms IH]; intros m Hm; simpl.
  - exact Hm.
  - apply IH. intros c. destruct (decide (metric = key)) as [->|Hne].
    + rewrite lookup_insert_eq. congruence.
    + rewrite lookup_insert_ne by exact Hne. apply Hm.
Qed.

Lemma partition_length {A : Type} (p : A -> bool) (l : list A) :
  (length (List.filter p l) + length (List.filter (fun x => negb (p x)) l)
   = length l)%nat.
Proof. induction l as [|x l IH]; simpl; [reflexivity|]. destruct (p x); simpl; lia. Qed.

Lemma partition_Permutation {A : Type} (p : A -> bool) (l : list A) :
  Permutation (List.filter p l ++ List.filter (fun x => negb (p x)) l) l.
Proof.
  induction l as [|x l IH]; simpl; [constructor|].
  destruct (p x); simpl.
  - constructor. exact IH.
  - apply Permutation_sym, Permutation_cons_app, Permutation_sym, IH.
Qed.

Lemma map_fst_combine {A B : Type} (l : list A) : forall l' : list B,
  length l = length l' -> map fst (combine l l') = l.
Proof.
  induction l as [|x l IH]; intros [|y l'] H; simpl in *; try discriminate; [reflexivity|].
  f_equal. apply IH. lia.
Qed.

(** The loop of [filterBatch], from any accumulated state. *)
Lemma filterBatch_loop (rs : list HealthRecord) :
  forall (k d : list HealthRecord) (s : R) (f : t),
    fold_left
      (fun '(kept, dropped, totalSurprise, f) record =>
         let '(result, f') := filter f record in
         let totalSurprise' := totalSurprise + SurpriseFilter.totalSurprise result in
         if keep result
         then (kept ++ [record], dropped, totalSurprise', f')
         else (kept, dropped ++ [record], totalSurprise', f'))
      rs (k, d, s, f)
    = (k ++ kept_of rs (fst (filterEach f rs)),
       d ++ dropped_of rs (fst (filterEach f rs)),
       s + total_surprise (fst (filterEach f rs)),
       snd (filterEach f rs)).
Proof.
  induction rs as [|r rs IH]; intros k d s f.
  - simpl. unfold kept_of, dropped_of, total_surprise. simpl.
    rewrite !app_nil_r. repeat f_equal. ring.
  - cbn [fold_left filterEach].
    destruct (filter f r) as [res f'] eqn:E.
    specialize (IH (if keep res then k ++ [r] else k)
                   (if keep res then d else d ++ [r])
                   (s + totalSurprise res) f').
    destruct (filterEach f' rs) as [ress f''] eqn:E'.
    cbn [fst snd] in *.
    unfold kept_of, dropped_of, total_surprise in *.
    cbn [combine List.filter map fold_right snd fst].
    destruct (keep res); cbn [negb map fst]; rewrite IH, <- ?app_assoc; cbn [app];
      rewrite Rplus_assoc; reflexivity.
Qed.

(** [filterBatch] in terms of the calls it makes. *)
Lemma filterBatch_unfold (f : t) (rs : list HealthRecord) :
  let results := fst (filterEach f rs) in
  filterBatch f rs
  = ({| kept := kept_of rs results;
        dropped := dropped_of rs results;
        batch_stats :=
          {| total := length rs;
             kept_count := length (kept_of rs results);
             dropped_count := length (dropped_of rs results);
             filterRate :=
               if (0 <? length rs)%nat
               then INR (length (dropped_of rs results)) / INR (length rs) else 0;
             avgSurprise :=
               if (0 <? length rs)%nat
               then (0 + total_surprise results) / INR (length rs) else 0 |} |},
     snd (filterEach f rs)).
Proof.
  intros results. unfold filterBatch.
  pose proof (filterBatch_loop rs [] [] 0 f) as H. cbv zeta in H.
  rewrite H. reflexivity.
Qed.

End MoreFilter.

(** X7.  One call of [filter] touches at most the calculator of the type of
    its record: every calculator under another key is left as it was, no
    calculator is removed, and past warmup a record with a scalar leaves a
    calculator under its type. *)
Theorem filter_touches_one_calculator (f : SurpriseFilter.t) (r : HealthRecord) :
  (forall key, key <> record_type r ->
     SurpriseFilter.calculators (snd (SurpriseFilter.filter f r)) !! key
     = SurpriseFilter.calculators f !! key) /\
  (forall key, is_Some (SurpriseFilter.calculators f !! key) ->
     is_Some (SurpriseFilter.calculators (snd (SurpriseFilter.filter f r)) !! key)) /\
  ((SurpriseFilter.minSamples (SurpriseFilter.config f)
    <= SurpriseFilter.sampleCount f + 1)%Z ->
   is_Some (SurpriseFilter.extractValue r) ->
   is_Some (SurpriseFilter.calculators (snd (SurpriseFilter.filter f r))
            !! record_type r)).
Proof.
  split; [intros key; apply filter_other_calculators|]. split.
  - intros key Hkey. destruct (decide (key = record_type r)) as [->|Hne];
      [|rewrite filter_other_calculators by exact Hne; exact Hkey].
    unfold SurpriseFilter.filter.
    destruct (_ <? _)%Z; [exact Hkey|].
    destruct (SurpriseFilter.extractValue r); [|exact Hkey].
    destruct (SurpriseCalculator.calculate _ _) as [res c']. simpl.
    rewrite lookup_insert_eq. eauto.
  - intros Hge [v Hv]. unfold SurpriseFilter.filter.
    apply Z.ltb_ge in Hge. rewrite Hge, Hv.
    destruct (SurpriseCalculator.calculate _ _) as [res c']. simpl.
    rewrite lookup_insert_eq. eauto.
Qed.

(** X8.  A calculator under a key that is not one of the seven record
    types [extractValue] knows is never used: no run of calls changes it.
    The calculator seeded for the default metric ['sleep_duration'] is one
    (sleep records have the type ['sleep']). *)
Theorem filter_never_uses_other_keys (rs : list HealthRecord) :
  forall (f : SurpriseFilter.t) (key : string),
    ~ In key supported_types ->
    SurpriseFilter.calculators (snd (SurpriseFilter.filterEach f rs)) !! key
    = SurpriseFilter.calculators f !! key.
Proof.
  induction rs as [|r rs IH]; intros f key Hkey; simpl; [reflexivity|].
  pose proof (filter_unsupported_key f r key Hkey) as Hstep.
  destruct (SurpriseFilter.filter f r) as [res f']. simpl in Hstep.
  specialize (IH f' key Hkey).
  destruct (SurpriseFilter.filterEach f' rs) as [ress f'']. simpl in *.
  congruence.
Qed.

Lemma filter_never_uses_other_keys_witness :
  let f := SurpriseFilter.new SurpriseFilter.DEFAULT_FILTER_CONFIG in
  SurpriseFilter.calculators
    (snd (SurpriseFilter.filterEach f [SleepSession 28800; HeartRate 70]))
  !! "sleep_duration"%string
  = SurpriseFilter.calculators f !! "sleep_duration"%string.
Proof.
  intros f. apply filter_never_uses_other_keys.
  simpl. intros H. repeat (destruct H as [H|H]; [discriminate H|]). exact H.
Defined.

(** X9.  The first record a fresh filter really filters is dropped: after
    exactly the warmup calls, a record of a supported type meets a
    calculator that has seen nothing (seeded, or created for it), and is
    returned with [keep = false], the reason ['expected'] and the surprise
    0. *)
Theorem filter_first_filtered_record_dropped (cfg : SurpriseFilter.FilterConfig)
    (rs : list HealthRecord) (r : HealthRecord) :
  Z.of_nat (length rs) = Z.max (SurpriseFilter.minSamples cfg - 1) 0 ->
  In (record_type r) supported_types ->
  let f := snd (SurpriseFilter.filterEach (SurpriseFilter.new cfg) rs) in
  SurpriseFilter.keep (fst (SurpriseFilter.filter f r)) = false /\
  SurpriseFilter.reason (fst (SurpriseFilter.filter f r)) = "expected"%string /\
  SurpriseFilter.totalSurprise (fst (SurpriseFilter.filter f r)) = 0.
Proof.
  intros Hlen Hty f.
  destruct (filterEach_config rs (SurpriseFilter.new cfg)) as [Hcfg Hcount].
  fold f in Hcfg, Hcount. simpl in Hcfg, Hcount.
  assert (Hcalc : SurpriseFilter.calculators f
                  = SurpriseFilter.calculators (SurpriseFilter.new cfg)).
  { destruct rs as [|r0 rs']; [reflexivity|].
    apply filterEach_warmup. simpl SurpriseFilter.sampleCount.
    simpl SurpriseFilter.config. simpl length in *. lia. }
  apply extractValue_supported in Hty. destruct Hty as [v Hv].
  unfold SurpriseFilter.filter.
  assert (Hge : (SurpriseFilter.sampleCount f + 1
                 <? SurpriseFilter.minSamples (SurpriseFilter.config f))%Z = false).
  { apply Z.ltb_ge. rewrite Hcfg, Hcount. lia. }
  rewrite Hge, Hv, Hcfg.
  assert (Hfresh : match SurpriseFilter.calculators f !! record_type r with
                   | Some c => c
                   | None => SurpriseCalculator.new 0.3 (SurpriseFilter.thresholdK cfg)
                   end = SurpriseCalculator.new 0.3 (SurpriseFilter.thresholdK cfg)).
  { rewrite Hcalc.
    destruct (SurpriseFilter.calculators (SurpriseFilter.new cfg) !! record_type r)
      as [c|] eqn:E; [|reflexivity].
    apply (seed_calculators_lookup cfg (record_type r) ∅); [|exact E].
    intros c0 H0. rewrite lookup_empty in H0. discriminate H0. }
  rewrite Hfresh.
  pose proof (calculate_fresh 0.3 (SurpriseFilter.thresholdK cfg) v) as H.
  cbv zeta in H.
  destruct (SurpriseCalculator.calculate _ v) as [res c']. simpl in *.
  destruct H as (_ & _ & Hs & _ & Hk & _). rewrite Hk. auto.
Qed.

Lemma filter_first_filtered_record_dropped_witness :
  let f := snd (SurpriseFilter.filterEach
                  (SurpriseFilter.new (SurpriseFilter.mkConfig 2 2 []))
                  [HeartRate 70]) in
  SurpriseFilter.keep (fst (SurpriseFilter.filter f (HeartRate 150))) = false /\
  SurpriseFilter.reason (fst (SurpriseFilter.filter f (HeartRate 150)))
  = "expected"%string.
Proof.
  intros f.
  destruct (filter_first_filtered_record_dropped
              (SurpriseFilter.mkConfig 2 2 []) [HeartRate 70] (HeartRate 150))
    as (H1 & H2 & _).
  - simpl. lia.
  - simpl. tauto.
  - exact (conj H1 H2).
Defined.

(** X10.  [filterBatch] is [filter] called on the records in order: it
    leaves the filter those calls leave, keeps exactly the records whose
    call said [keep] and drops the others, both in their order; the kept
    and the dropped records together are the batch, the counts add up to
    its length, and the average surprise is the sum of the surprises of
    the calls over the length, 0 for an empty batch. *)
Theorem filterBatch_is_filter_in_order (f : SurpriseFilter.t) (rs : list HealthRecord) :
  let results := fst (SurpriseFilter.filterEach f rs) in
  let batch := fst (SurpriseFilter.filterBatch f rs) in
  snd (SurpriseFilter.filterBatch f rs) = snd (SurpriseFilter.filterEach f rs) /\
  SurpriseFilter.kept batch = kept_of rs results /\
  SurpriseFilter.dropped batch = dropped_of rs results /\
  Permutation (SurpriseFilter.kept batch ++ SurpriseFilter.dropped batch) rs /\
  SurpriseFilter.total (SurpriseFilter.batch_stats batch) = length rs /\
  (SurpriseFilter.kept_count (SurpriseFilter.batch_stats batch)
   + SurpriseFilter.dropped_count (SurpriseFilter.batch_stats batch)
   = length rs)%nat /\
  SurpriseFilter.avgSurprise (SurpriseFilter.batch_stats batch)
  = if (0 <? length rs)%nat then total_surprise results / INR (length rs) else 0.
Proof.
  cbv zeta. rewrite (filterBatch_unfold f rs). cbn [fst snd app
    SurpriseFilter.kept SurpriseFilter.dropped SurpriseFilter.batch_stats
    SurpriseFilter.total SurpriseFilter.kept_count SurpriseFilter.dropped_count
    SurpriseFilter.avgSurprise].
  pose proof (filterEach_length rs f) as Hlen.
  split; [reflexivity|]. split; [reflexivity|]. split; [reflexivity|].
  unfold kept_of, dropped_of.
  split.
  - rewrite <- map_app.
    apply (perm_trans (l' := map fst (combine rs (fst (SurpriseFilter.filterEach f rs))))).
    + apply Permutation_map, partition_Permutation.
    + rewrite map_fst_combine by (symmetry; exact Hlen). reflexivity.
  - split; [reflexivity|]. split.
    + rewrite !length_map, partition_length, length_combine, Hlen. lia.
    + rewrite Rplus_0_l. reflexivity.
Qed.

(** The filter rate of a batch lies between 0 and 1, and is 0 for an
    empty batch: the division by the number of records is guarded. *)
Lemma filterBatch_rate_bounds (f : SurpriseFilter.t) (rs : list HealthRecord) :
  let stats := SurpriseFilter.batch_stats (fst (SurpriseFilter.filterBatch f rs)) in
  0 <= SurpriseFilter.filterRate stats <= 1 /\
  (rs = [] -> SurpriseFilter.filterRate stats = 0 /\ SurpriseFilter.avgSurprise stats = 0) /\
  (rs <> [] ->
   SurpriseFilter.filterRate stats
   = INR (SurpriseFilter.dropped_count stats) / INR (SurpriseFilter.total stats)).
Proof.
  cbv zeta. rewrite (filterBatch_unfold f rs). cbn [fst snd app
    SurpriseFilter.kept SurpriseFilter.dropped SurpriseFilter.batch_stats
    SurpriseFilter.total SurpriseFilter.kept_count SurpriseFilter.dropped_count
    SurpriseFilter.avgSurprise SurpriseFilter.filterRate].
  assert (Hsum : (length (dropped_of rs (fst (SurpriseFilter.filterEach f rs)))
                  <= length rs)%nat).
  { pose proof (filterEach_length rs f) as Hlen. unfold dropped_of.
    rewrite length_map.
    pose proof (partition_length
                  (fun p : HealthRecord * SurpriseFilter.FilterResult =>
                     SurpriseFilter.keep (snd p))
                  (combine rs (fst (SurpriseFilter.filterEach f rs)))) as Hp.
    rewrite length_combine, Hlen in Hp. lia. }
  destruct rs as [|r rs'].
  - simpl. repeat split; try lra; congruence.
  - assert (Hpos : 0 < INR (length (r :: rs'))) by (apply lt_0_INR; simpl; lia).
    replace (0 <? length (r :: rs'))%nat with true by reflexivity.
    split; [|split; [discriminate | reflexivity]].
    set (dn := length (dropped_of (r :: rs') (fst (SurpriseFilter.filterEach f (r :: rs'))))) in *.
    assert (Hle : INR dn <= INR (length (r :: rs'))) by (apply le_INR; lia).
    pose proof (pos_INR dn) as H0.
    split.
    + apply Rmult_le_pos; [exact H0 | left; apply Rinv_0_lt_compat, Hpos].
    + apply (Rmult_le_reg_r (INR (length (r :: rs')))); [exact Hpos|].
      unfold Rdiv. rewrite Rmult_assoc, Rinv_l by lra. lra.
Qed.

(** X11.  A batch that ends within the warmup of the filter is kept whole:
    nothing is dropped, the filter rate and the average surprise are 0, and
    no calculator is touched. *)
Theorem filterBatch_within_warmup (f : SurpriseFilter.t) (rs : list HealthRecord) :
  (SurpriseFilter.sampleCount f + Z.of_nat (length rs)
   < SurpriseFilter.minSamples (SurpriseFilter.config f))%Z ->
  let batch := fst (SurpriseFilter.filterBatch f rs) in
  SurpriseFilter.kept batch = rs /\
  SurpriseFilter.dropped batch = [] /\
  SurpriseFilter.filterRate (SurpriseFilter.batch_stats batch) = 0 /\
  SurpriseFilter.avgSurprise (SurpriseFilter.batch_stats batch) = 0 /\
  SurpriseFilter.calculators (snd (SurpriseFilter.filterBatch f rs))
  = SurpriseFilter.calculators f.
Proof.
  intros Hlt. cbv zeta.
  destruct (filterEach_warmup rs f Hlt) as [Hcalc Hall].
  pose proof (filterEach_length rs f) as Hlen.
  rewrite (filterBatch_unfold f rs). cbn [fst snd app
    SurpriseFilter.kept SurpriseFilter.dropped SurpriseFilter.batch_stats
    SurpriseFilter.total SurpriseFilter.kept_count SurpriseFilter.dropped_count
    SurpriseFilter.avgSurprise SurpriseFilter.filterRate].
  set (results := fst (SurpriseFilter.filterEach f rs)) in *.
  assert (Hparts : kept_of rs results = rs /\ dropped_of rs results = []
                   /\ total_surprise results = 0).
  { clear Hcalc Hlt. clearbody results. unfold kept_of, dropped_of, total_surprise.
    revert rs Hlen. induction Hall as [|res results (Hk & Hs & _) _ IH];
      intros [|r rs] Hlen; simpl in *; try discriminate; [repeat split|].
    rewrite Hk, Hs. simpl.
    destruct (IH rs) as (-> & -> & ->); [lia|]. repeat split. lra. }
  destruct Hparts as (-> & -> & ->).
  repeat split; try exact Hcalc.
  - destruct (0 <? length rs)%nat; [|reflexivity]. simpl. unfold Rdiv. ring.
  - destruct (0 <? length rs)%nat; [|reflexivity]. unfold Rdiv. ring.
Qed.

Lemma filterBatch_within_warmup_witness :
  let f := SurpriseFilter.new SurpriseFilter.DEFAULT_FILTER_CONFIG in
  SurpriseFilter.kept (fst (SurpriseFilter.filterBatch f [HeartRate 70; Steps 900]))
  = [HeartRate 70; Steps 900] /\
  SurpriseFilter.dropped (fst (SurpriseFilter.filterBatch f [HeartRate 70; Steps 900]))
  = [].
Proof.
  intros f.
  destruct (filterBatch_within_warmup f [HeartRate 70; Steps 900]) as (H1 & H2 & _).
  - simpl. lia.
  - exact (conj H1 H2).
Defined.

(** X12.  [reset] forgets a run: after any calls of [filter] on a filter
    built by the constructor, [reset] gives back the filter as the
    constructor built it. *)
Theorem filter_reset_restores_new (cfg : SurpriseFilter.FilterConfig)
    (rs : list HealthRecord) :
  SurpriseFilter.reset (snd (SurpriseFilter.filterEach (SurpriseFilter.new cfg) rs))
  = SurpriseFilter.new cfg.
Proof.
  destruct (filterEach_config rs (SurpriseFilter.new cfg)) as [Hcfg _].
  unfold SurpriseFilter.reset. rewrite Hcfg. reflexivity.
Qed.

(* ===================================================================== *)
(** * Further properties: CfCCell *)
(* ===================================================================== *)

Section MoreCell.

Import CfCCell.

(** The loop reads only the entries it rewrites. *)
Lemma for_index_ext (n : nat) (f g : nat -> R -> R) (v : list R) :
  (forall i x, (i < n)%nat -> f i x = g i x) -> for_index n f v = for_index n g v.
Proof.
  intros H. apply list_eq. intros i. rewrite !for_index_lookup.
  destruct (decide (i < n)%nat) as [Hi|_]; [|reflexivity].
  destruct (v !! i); simpl; [f_equal; apply H, Hi | reflexivity].
Qed.


Lemma nth_app_lt (l l' : list R) (i : nat) :
  (i < length l)%nat -> nth i (l ++ l') 0 = nth i l 0.
Proof. intros H. apply app_nth1, H. Qed.


End MoreCell.



(** X14.  [step] reads the observation only up to the dimension of the
    state: entries of the observation beyond it are ignored, and a state
    entry the observation does not reach keeps its time constant and its
    equilibrium (an empty observation changes neither vector). *)
Theorem cfc_observation_length (c : CfCCell.t) (obs : list R) (ts : R) :
  (forall extra,
      (CfCCell.stateDim (CfCCell.config c) <= length obs)%nat ->
      CfCCell.step c (obs ++ extra) ts = CfCCell.step c obs ts) /\
  (forall i,
      (length obs <= i)%nat ->
      CfCCell.tau (snd (CfCCell.step c obs ts)) !! i = CfCCell.tau c !! i /\
      CfCCell.equilibrium (snd (CfCCell.step c obs ts)) !! i
      = CfCCell.equilibrium c !! i).
Proof.
  split.
  - intros extra Hlen.
    assert (Hmin : Nat.min (length (obs ++ extra)) (CfCCell.stateDim (CfCCell.config c))
                   = Nat.min (length obs) (CfCCell.stateDim (CfCCell.config c)))
      by (rewrite length_app; lia).
    assert (Heq : CfCCell.updateEquilibrium c (obs ++ extra)
                  = CfCCell.updateEquilibrium c obs).
    { unfold CfCCell.updateEquilibrium. rewrite Hmin. apply for_index_ext.
      intros i x Hi. cbv zeta. rewrite nth_app_lt by lia. reflexivity. }
    assert (Htau : CfCCell.updateTau c (obs ++ extra) = CfCCell.updateTau c obs).
    { unfold CfCCell.updateTau. rewrite Hmin. apply for_index_ext.
      intros i x Hi. cbv zeta. rewrite nth_app_lt by lia. reflexivity. }
    unfold CfCCell.step. rewrite Heq, Htau. reflexivity.
  - intros i Hi. unfold CfCCell.step, CfCCell.updateTau, CfCCell.updateEquilibrium.
    cbn [snd CfCCell.tau CfCCell.equilibrium]. rewrite !for_index_lookup.
    destruct (decide (i < Nat.min (length obs) (CfCCell.stateDim (CfCCell.config c)))%nat);
      [lia | split; reflexivity].
Qed.

Lemma cfc_observation_length_witness :
  let c := CfCCell.new (CfCCell.mkConfig 2 60 3600 0.99) in
  CfCCell.step c ([1; 2] ++ [3; 4]) 0 = CfCCell.step c [1; 2] 0.
Proof.
  intros c. destruct (cfc_observation_length c [1; 2] 0) as [H _].
  apply H. simpl. lia.
Defined.



(** X16.  [predict] never goes back in time: for a time stamp that is not
    after the last step a well-formed cell with positive time constants
    predicts its present state, and
    a cell that was never stepped predicts the zero vector of its
    dimension. *)
Theorem cfc_predict_past_is_present (c : CfCCell.t) (future : R) :
  CfCCell.cell_wf c ->
  (CfCCell.lastTimestamp c = None ->
   CfCCell.predict c future = zeros (CfCCell.stateDim (CfCCell.config c))) /\
  (forall last, CfCCell.lastTimestamp c = Some last -> future <= last ->
                Forall (fun t => 0 < t) (CfCCell.tau c) ->
                CfCCell.predict c future = CfCCell.state c).
Proof.
  intros Hwf. split.
  - intros Hnone. unfold CfCCell.predict. rewrite Hnone. reflexivity.
  - intros last Hlast Hle _.
    assert (Hdt : CfCCell.predict_dt last future = CfCCell.predict_dt last last).
    { unfold CfCCell.predict_dt. rewrite !Rmax_right by lra. reflexivity. }
    rewrite <- (predict_at_last c last Hwf Hlast).
    unfold CfCCell.predict. rewrite Hlast. cbv zeta. rewrite Hdt. reflexivity.
Qed.

Lemma cfc_predict_past_is_present_witness :
  let c := snd (CfCCell.step (CfCCell.new (CfCCell.mkConfig 2 60 3600 0.99)) [1; 2] 10) in
  CfCCell.predict c 3 = CfCCell.state c.
Proof.
  intros c. destruct (cfc_predict_past_is_present c 3) as [_ H].
  - apply step_wf, new_wf.
  - apply (H 10); [reflexivity | lra |].
    apply step_tau_pos, new_tau_pos. simpl. lra.
Defined.

(* ===================================================================== *)
(** * Further properties: HealthStateEstimator *)
(* ===================================================================== *)

Section MoreEstimator.

Import HealthStateEstimator.

Lemma result_bind_Ok {A B : Type} (a : A) (k : A -> result B) : Ok a ≫= k = k a.
Proof. reflexivity. Qed.

Lemma reset_step (c : CfCCell.t) (obs : list R) (ts : R) :
  CfCCell.reset (snd (CfCCell.step c obs ts)) = CfCCell.reset c.
Proof. reflexivity. Qed.

(** Whatever the loop of [update] does to the cells, [reset] undoes. *)
Lemma update_loop_reset (observations : gmap string R) (ts : R)
    (dims : list DimensionConfig) :
  forall cs ds cf cs' ds' cf',
    for_of (update_dim observations ts) dims (cs, ds, cf) = Ok (cs', ds', cf') ->
    CfCCell.reset <$> cs' = CfCCell.reset <$> cs.
Proof.
  induction dims as [|dim dims IH]; intros cs ds cf cs' ds' cf' H.
  - injection H as <- <- <-. reflexivity.
  - rewrite for_of_cons in H.
    destruct (cs !! name dim) as [cell|] eqn:Hcell.
    + pose proof (update_dim_Some observations ts cs ds cf dim cell Hcell) as Hs.
      cbv zeta in Hs. rewrite Hs, result_bind_Ok in H.
      apply IH in H. rewrite H, fmap_insert, reset_step.
      apply insert_id. rewrite lookup_fmap, Hcell. reflexivity.
    + unfold update_dim in H. rewrite Hcell in H. discriminate H.
Qed.

Lemma new_cells_reset (dims : list DimensionConfig) :
  forall m : gmap string CfCCell.t,
    CfCCell.reset
    <$> fold_left (fun m dim => <[name dim := CfCCell.new (cell_config dim)]> m) dims m
    = fold_left (fun m dim => <[name dim := CfCCell.new (cell_config dim)]> m) dims
                (CfCCell.reset <$> m).
Proof.
  induction dims as [|dim dims IH]; intros m; simpl; [reflexivity|].
  rewrite IH, fmap_insert. reflexivity.
Qed.

(** [update] reads the observations only under the configured names. *)
Lemma update_loop_observations (observations observations' : gmap string R) (ts : R)
    (dims : list DimensionConfig) :
  (forall dim, In dim dims ->
     default 0 (observations !! name dim) = default 0 (observations' !! name dim)) ->
  forall acc,
    for_of (update_dim observations ts) dims acc
    = for_of (update_dim observations' ts) dims acc.
Proof.
  induction dims as [|dim dims IH]; intros Hobs acc; [reflexivity|].
  rewrite !for_of_cons.
  assert (Hstep : update_dim observations ts acc dim = update_dim observations' ts acc dim).
  { destruct acc as [[cs ds] cf]. unfold update_dim, obsVector.
    rewrite (Hobs dim (or_introl eq_refl)). reflexivity. }
  rewrite Hstep. destruct (update_dim observations' ts acc dim) as [acc'|]; simpl;
    [|reflexivity].
  apply IH. intros d Hd. apply Hobs. right. exact Hd.
Qed.

Lemma aggregate_zeros (n : nat) : aggregate (zeros n) = 0.
Proof.
  unfold aggregate, zeros.
  assert (H : forall i, nth i (repeat 0 n) 0 = 0).
  { intros i. destruct (nth_in_or_default i (repeat 0 n) 0) as [Hin | ->]; [|reflexivity].
    apply repeat_spec in Hin. exact Hin. }
  rewrite !H. lra.
Qed.

End MoreEstimator.

(** X17.  [reset] forgets every update: it makes a fresh estimator of a
    fresh one, and the estimator [update] leaves resets to what the one
    before resets to; so after any updates of a new estimator [reset]
    gives back the new estimator. *)
Theorem estimator_reset_forgets_updates :
  (forall cfg,
      HealthStateEstimator.reset (HealthStateEstimator.new cfg)
      = HealthStateEstimator.new cfg) /\
  (forall e observations ts hs e',
      HealthStateEstimator.update e observations ts = Ok (hs, e') ->
      HealthStateEstimator.reset e' = HealthStateEstimator.reset e).
Proof.
  split.
  - intros cfg. unfold HealthStateEstimator.reset, HealthStateEstimator.new.
    cbn [HealthStateEstimator.cells HealthStateEstimator.config].
    rewrite new_cells_reset, fmap_empty. reflexivity.
  - intros e observations ts hs e' H. unfold HealthStateEstimator.update in H.
    destruct (for_of _ _ _) as [[[cs' ds'] cf']|] eqn:E; simpl in H; [|discriminate H].
    injection H as _ <-. unfold HealthStateEstimator.reset.
    cbn [HealthStateEstimator.cells HealthStateEstimator.config].
    rewrite (update_loop_reset _ _ _ _ _ _ _ _ _ E). reflexivity.
Qed.

(** X18.  [update] reads an observation only under a configured dimension
    name, and takes a missing one as 0: two observation maps that agree, in
    that sense, on the configured names give the same result and the same
    estimator. *)
Theorem estimator_update_reads_configured (e : HealthStateEstimator.t)
    (observations observations' : gmap string R) (ts : R) :
  (forall dim,
      In dim (HealthStateEstimator.dimensions (HealthStateEstimator.config e)) ->
      default 0 (observations !! HealthStateEstimator.name dim)
      = default 0 (observations' !! HealthStateEstimator.name dim)) ->
  HealthStateEstimator.update e observations ts
  = HealthStateEstimator.update e observations' ts.
Proof.
  intros Hobs. unfold HealthStateEstimator.update.
  rewrite (update_loop_observations observations observations' ts _ Hobs). reflexivity.
Qed.

Lemma estimator_update_reads_configured_witness :
  let e := HealthStateEstimator.new
             (HealthStateEstimator.mkConfig
                [HealthStateEstimator.mkDim "stress" 60 7200;
                 HealthStateEstimator.mkDim "energy" 1800 86400]) in
  HealthStateEstimator.update e {[ "stress"%string := 1; "mood"%string := 5 ]} 10
  = HealthStateEstimator.update e {[ "stress"%string := 1; "energy"%string := 0 ]} 10.
Proof.
  intros e. apply estimator_update_reads_configured.
  simpl. intros dim [<-|[<-|[]]]; simpl;
    repeat first [ rewrite lookup_insert_eq | rewrite lookup_singleton_eq
                 | rewrite lookup_insert_ne by discriminate
                 | rewrite lookup_singleton_ne by discriminate ];
    reflexivity.
Defined.

(** X19.  On an estimator whose configured dimensions all have a cell,
    [update] returns a state for the time of the call with no time since
    the update, with a value and a confidence for exactly the configured
    dimension names, and records the time of the call. *)
Theorem estimator_update_covers_dimensions (e : HealthStateEstimator.t)
    (observations : gmap string R) (ts : R) :
  HealthStateEstimator.estimator_wf e ->
  exists hs e',
    HealthStateEstimator.update e observations ts = Ok (hs, e') /\
    HealthStateEstimator.timestamp hs = ts /\
    HealthStateEstimator.timeSinceUpdate hs = HealthStateEstimator.Elapsed 0 /\
    HealthStateEstimator.lastUpdateTime e' = Some ts /\
    HealthStateEstimator.config e' = HealthStateEstimator.config e /\
    (forall n, is_Some (HealthStateEstimator.state_dimensions hs !! n)
               <-> In n (dimension_names (HealthStateEstimator.config e))) /\
    (forall n, is_Some (HealthStateEstimator.confidence hs !! n)
               <-> In n (dimension_names (HealthStateEstimator.config e))) /\
    (forall n, is_Some (HealthStateEstimator.cells e' !! n)
               <-> is_Some (HealthStateEstimator.cells e !! n)).
Proof.
  intros [Hcells _].
  destruct (update_loop (fun _ => True) (fun _ _ _ _ => I) observations ts
              (HealthStateEstimator.dimensions (HealthStateEstimator.config e))
              (HealthStateEstimator.cells e) ∅ ∅ Hcells (fun _ _ _ => I))
    as (cs' & ds' & cf' & Hrun & _ & Hdom & Hin & Hout).
  eexists _, _. split; [unfold HealthStateEstimator.update; rewrite Hrun; reflexivity|].
  cbn [HealthStateEstimator.timestamp HealthStateEstimator.timeSinceUpdate
       HealthStateEstimator.lastUpdateTime HealthStateEstimator.config
       HealthStateEstimator.state_dimensions HealthStateEstimator.confidence
       HealthStateEstimator.cells].
  repeat (split; [reflexivity|]).
  unfold dimension_names.
  split; [|split; [|exact Hdom]]; intros n; split.
  - intros Hsome.
    destruct (in_dec String.string_dec n
                (map HealthStateEstimator.name
                     (HealthStateEstimator.dimensions (HealthStateEstimator.config e))))
      as [Hn|Hn]; [exact Hn|].
    destruct (Hout n Hn) as (_ & Heq & _). rewrite Heq, lookup_empty in Hsome.
    destruct Hsome as [x Hx]. discriminate Hx.
  - intros Hn. destruct (Hin n Hn) as (c & _ & _ & -> & _). eauto.
  - intros Hsome.
    destruct (in_dec String.string_dec n
                (map HealthStateEstimator.name
                     (HealthStateEstimator.dimensions (HealthStateEstimator.config e))))
      as [Hn|Hn]; [exact Hn|].
    destruct (Hout n Hn) as (_ & _ & Heq). rewrite Heq, lookup_empty in Hsome.
    destruct Hsome as [x Hx]. discriminate Hx.
  - intros Hn. destruct (Hin n Hn) as (c & _ & _ & _ & ->). eauto.
Qed.

Lemma estimator_update_covers_dimensions_witness :
  exists hs e',
    HealthStateEstimator.update
      (HealthStateEstimator.new HealthStateEstimator.DEFAULT_HEALTH_STATE_CONFIG)
      ∅ 5 = Ok (hs, e') /\
    HealthStateEstimator.lastUpdateTime e' = Some 5 /\
    is_Some (HealthStateEstimator.state_dimensions hs !! "sleep"%string).
Proof.
  destruct (estimator_update_covers_dimensions
              (HealthStateEstimator.new HealthStateEstimator.DEFAULT_HEALTH_STATE_CONFIG)
              ∅ 5)
    as (hs & e' & Hup & _ & _ & Hlast & _ & Hdims & _).
  - apply new_estimator_wf.
  - exists hs, e'. split; [exact Hup|]. split; [exact Hlast|].
    apply Hdims. simpl. tauto.
Defined.

(** X20.  Before any update, [predict] returns, for every configured
    dimension with [0 < tauMin <= tauMax], the value 0 with the confidence
    1, whatever the time asked for, and an infinite time since the
    update. *)
Theorem estimator_predict_before_update (cfg : HealthStateEstimator.HealthStateConfig)
    (future : R) :
  Forall (fun dim => 0 < HealthStateEstimator.tauMin dim <= HealthStateEstimator.tauMax dim)
         (HealthStateEstimator.dimensions cfg) ->
  exists hs,
    HealthStateEstimator.predict (HealthStateEstimator.new cfg) future = Ok hs /\
    HealthStateEstimator.timestamp hs = future /\
    HealthStateEstimator.timeSinceUpdate hs = HealthStateEstimator.Infinity /\
    (forall n, In n (dimension_names cfg) ->
       HealthStateEstimator.state_dimensions hs !! n = Some 0 /\
       HealthStateEstimator.confidence hs !! n = Some 1).
Proof.
  intros Hcfg.
  set (P := fun c => CfCCell.lastTimestamp c = None).
  destruct (new_cells P (HealthStateEstimator.dimensions cfg) ∅) as (Hcells & _ & HP).
  { intros dim _. reflexivity. }
  { intros k c H. rewrite lookup_empty in H. discriminate H. }
  destruct (predict_loop (HealthStateEstimator.new cfg) future
              (HealthStateEstimator.dimensions cfg) ∅ ∅ Hcells)
    as (ds & cf & Hrun & Hin & _).
  eexists. split; [unfold HealthStateEstimator.predict; cbn [HealthStateEstimator.config
    HealthStateEstimator.new]; rewrite Hrun; reflexivity|].
  cbn [HealthStateEstimator.timestamp HealthStateEstimator.timeSinceUpdate
       HealthStateEstimator.state_dimensions HealthStateEstimator.confidence
       HealthStateEstimator.lastUpdateTime HealthStateEstimator.new
       HealthStateEstimator.truthy_time].
  split; [reflexivity|]. split; [reflexivity|].
  intros n Hn. destruct (Hin n Hn) as (c & Hc & -> & ->).
  pose proof (HP n c Hc) as Hlast. unfold P in Hlast.
  split.
  - f_equal. unfold CfCCell.predict. rewrite Hlast. apply aggregate_zeros.
  - f_equal. unfold HealthStateEstimator.confidence_dt, HealthStateEstimator.truthy_time.
    cbn [HealthStateEstimator.lastUpdateTime HealthStateEstimator.new].
    apply decay_zero_gap.
Qed.

Lemma estimator_predict_before_update_witness :
  exists hs,
    HealthStateEstimator.predict
      (HealthStateEstimator.new HealthStateEstimator.DEFAULT_HEALTH_STATE_CONFIG)
      1000 = Ok hs /\
    HealthStateEstimator.state_dimensions hs !! "stress"%string = Some 0 /\
    HealthStateEstimator.confidence hs !! "stress"%string = Some 1.
Proof.
  destruct (estimator_predict_before_update
              HealthStateEstimator.DEFAULT_HEALTH_STATE_CONFIG 1000)
    as (hs & Hp & _ & _ & Hall).
  - repeat constructor; simpl; lra.
  - exists hs. split; [exact Hp|]. apply Hall. simpl. tauto.
Defined.

(** X21.  The time stamp 0 counts as no update: after an update at the
    time 0, [predict] reports an infinite time since the update and the
    confidence 1 for every dimension, however far ahead the time asked for
    is ([this.lastUpdateTime ? ... : ...] takes the number 0 for unset). *)
Theorem estimator_update_at_zero (cfg : HealthStateEstimator.HealthStateConfig)
    (observations : gmap string R) (future : R) :
  Forall (fun dim => 0 < HealthStateEstimator.tauMin dim <= HealthStateEstimator.tauMax dim)
         (HealthStateEstimator.dimensions cfg) ->
  exists hs0 e hs,
    HealthStateEstimator.update (HealthStateEstimator.new cfg) observations 0
    = Ok (hs0, e) /\
    HealthStateEstimator.lastUpdateTime e = Some 0 /\
    HealthStateEstimator.predict e future = Ok hs /\
    HealthStateEstimator.timeSinceUpdate hs = HealthStateEstimator.Infinity /\
    (forall n, In n (dimension_names cfg) ->
               HealthStateEstimator.confidence hs !! n = Some 1).
Proof.
  intros Hcfg.
  destruct (new_estimator_wf cfg) as [Hcells _].
  destruct (update_loop (fun _ => True) (fun _ _ _ _ => I) observations 0
              (HealthStateEstimator.dimensions cfg)
              (HealthStateEstimator.cells (HealthStateEstimator.new cfg)) ∅ ∅
              Hcells (fun _ _ _ => I))
    as (cs' & ds' & cf' & Hrun & _ & Hdom & _ & _).
  set (e' := {| HealthStateEstimator.cells := cs';
                HealthStateEstimator.config := cfg;
                HealthStateEstimator.lastUpdateTime := Some 0 |}).
  destruct (predict_loop e' future (HealthStateEstimator.dimensions cfg) ∅ ∅)
    as (ds2 & cf2 & Hrun2 & Hin2 & _).
  { intros d Hd. simpl. apply Hdom, Hcells, Hd. }
  assert (Hdt : HealthStateEstimator.confidence_dt e' future = 0).
  { unfold HealthStateEstimator.confidence_dt, HealthStateEstimator.truthy_time.
    cbn [HealthStateEstimator.lastUpdateTime e'].
    destruct (Req_dec_T 0 0); [reflexivity | lra]. }
  eexists _, e', _. split; [|split; [|split; [|split]]].
  - unfold HealthStateEstimator.update. cbn [HealthStateEstimator.config
      HealthStateEstimator.new]. rewrite Hrun. reflexivity.
  - reflexivity.
  - unfold HealthStateEstimator.predict.
    change (HealthStateEstimator.config e') with cfg. rewrite Hrun2. reflexivity.
  - cbn [HealthStateEstimator.timeSinceUpdate]. unfold HealthStateEstimator.truthy_time.
    cbn [HealthStateEstimator.lastUpdateTime e'].
    destruct (Req_dec_T 0 0); [reflexivity | lra].
  - intros n Hn. cbn [HealthStateEstimator.confidence].
    destruct (Hin2 n Hn) as (c & _ & _ & ->). rewrite Hdt. f_equal.
    apply decay_zero_gap.
Qed.

Lemma estimator_update_at_zero_witness :
  exists hs0 e hs,
    HealthStateEstimator.update
      (HealthStateEstimator.new HealthStateEstimator.DEFAULT_HEALTH_STATE_CONFIG)
      ∅ 0 = Ok (hs0, e) /\
    HealthStateEstimator.predict e 86400 = Ok hs /\
    HealthStateEstimator.timeSinceUpdate hs = HealthStateEstimator.Infinity.
Proof.
  destruct (estimator_update_at_zero
              HealthStateEstimator.DEFAULT_HEALTH_STATE_CONFIG ∅ 86400)
    as (hs0 & e & hs & Hup & _ & Hp & Hinf & _).
  - repeat constructor; simpl; lra.
  - exists hs0, e, hs. auto.
Defined.

(* ===================================================================== *)
(** * Further properties: InterventionPlanner *)
(* ===================================================================== *)

Section MorePlanner.

Import InterventionPlanner.

Lemma get_or_0_lookup (record : gmap string R) (key : string) :
  get_or_0 record key = default 0 (record !! key).
Proof. unfold get_or_0. apply or_default_0. Qed.

(** The gap has an entry for every dimension of either state, and for no
    other. *)
Lemma calculateGap_lookup (cur tgt : gmap string R) (d : string) :
  calculateGap cur tgt !! d
  = if decide (d ∈ dom cur ∪ dom tgt)
    then Some (get_or_0 tgt d - get_or_0 cur d) else None.
Proof.
  unfold calculateGap.
  destruct (decide (d ∈ dom cur ∪ dom tgt)) as [Hin|Hout].
  - apply lookup_set_to_map; [intros y y' _ _ Hyy; exact Hyy|].
    exists d. split; [exact Hin | reflexivity].
  - apply eq_None_not_Some. intros [x Hx].
    apply lookup_set_to_map in Hx; [|intros y y' _ _ Hyy; exact Hyy].
    destruct Hx as (y & Hy & [= -> _]). contradiction.
Qed.

Lemma calculateGap_get (cur tgt : gmap string R) (d : string) :
  get_or_0 (calculateGap cur tgt) d = get_or_0 tgt d - get_or_0 cur d.
Proof.
  rewrite (get_or_0_lookup (calculateGap cur tgt)), calculateGap_lookup.
  destruct (decide (d ∈ dom cur ∪ dom tgt)) as [Hin|Hout]; [reflexivity|].
  rewrite !get_or_0_lookup.
  rewrite not_elem_of_union, !not_elem_of_dom in Hout. destruct Hout as [-> ->].
  simpl. ring.
Qed.

Lemma calculateImpact_lookup (a : Action) (dims : gset string) (d : string) :
  calculateImpact a dims !! d
  = if decide (d ∈ dims)
    then Some match find (fun e => String.eqb (dimension e) d) (effects a) with
              | Some effect => magnitude effect * confidence effect
              | None => 0
              end
    else None.
Proof.
  unfold calculateImpact.
  destruct (decide (d ∈ dims)) as [Hin|Hout].
  - apply lookup_set_to_map; [intros y y' _ _ Hyy; exact Hyy|].
    exists d. split; [exact Hin | reflexivity].
  - apply eq_None_not_Some. intros [x Hx].
    apply lookup_set_to_map in Hx; [|intros y y' _ _ Hyy; exact Hyy].
    destruct Hx as (y & Hy & [= -> _]). contradiction.
Qed.

(** The planned action made of a selected action at the rank [i]. *)
Lemma plan_loop_planned (dims : gset string) (selected : list ScoredAction) :
  forall g pa ex g' pa' ex',
    for_of (plan_step dims) selected (g, pa, ex) = Ok (g', pa', ex') ->
    pa' = pa ++ imap (fun i sa =>
                        {| action := scored_action sa; weight := score sa;
                           priority := S (length pa + i);
                           expectedImpact := calculateImpact (scored_action sa) dims |})
                     selected.
Proof.
  induction selected as [|sa selected IH]; intros g pa ex g' pa' ex' H.
  - injection H as <- <- <-. simpl. rewrite app_nil_r. reflexivity.
  - rewrite for_of_cons in H.
    destruct (plan_step dims (g, pa, ex) sa) as [[[g1 pa1] ex1]|] eqn:E;
      simpl in H; [|discriminate H].
    apply IH in H. rewrite H. clear H IH.
    unfold plan_step in E.
    destruct (mainEffect (scored_action sa)) as [main|]; simpl in E; [|discriminate E].
    injection E as <- <- <-.
    rewrite imap_cons, <- app_assoc. simpl. rewrite Nat.add_0_r.
    do 2 f_equal. apply imap_ext. intros i x _. simpl.
    rewrite length_app. simpl. f_equal. lia.
Qed.

(** The gap the loop predicts: each dimension loses the impacts of the
    selected actions on it. *)
Lemma plan_loop_gap (dims : gset string) (selected : list ScoredAction) :
  forall g pa ex g' pa' ex',
    for_of (plan_step dims) selected (g, pa, ex) = Ok (g', pa', ex') ->
    g' = map_imap
           (fun d v =>
              Some (v - fold_right Rplus 0
                          (map (fun sa =>
                                  get_or_0 (calculateImpact (scored_action sa) dims) d)
                               selected)))
           g.
Proof.
  induction selected as [|sa selected IH]; intros g pa ex g' pa' ex' H.
  - injection H as <- <- <-. simpl.
    rewrite <- (map_imap_Some g) at 1. apply map_imap_ext. intros k.
    destruct (g !! k); simpl; [do 2 f_equal; ring | reflexivity].
  - rewrite for_of_cons in H.
    destruct (plan_step dims (g, pa, ex) sa) as [[[g1 pa1] ex1]|] eqn:E;
      simpl in H; [|discriminate H].
    apply IH in H. rewrite H. clear H IH.
    unfold plan_step in E.
    destruct (mainEffect (scored_action sa)) as [main|]; simpl in E; [|discriminate E].
    injection E as <- <- <-.
    rewrite map_imap_compose. apply map_imap_ext. intros k.
    destruct (g !! k); simpl; [do 2 f_equal; ring | reflexivity].
Qed.

(** The loop explains each selected action by its main effect. *)
Lemma plan_loop_explanations (dims : gset string) (selected : list ScoredAction) :
  forall g pa ex g' pa' ex',
    for_of (plan_step dims) selected (g, pa, ex) = Ok (g', pa', ex') ->
    exists more,
      ex' = ex ++ more /\
      Forall2 (fun sa e =>
                 exists main,
                   mainEffect (scored_action sa) = Ok main /\
                   e = {| explained_action := name (scored_action sa);
                          main_dimension := dimension main;
                          main_magnitude := magnitude main |})
              selected more.
Proof.
  induction selected as [|sa selected IH]; intros g pa ex g' pa' ex' H.
  - injection H as <- <- <-. exists []. rewrite app_nil_r. split; [reflexivity|constructor].
  - rewrite for_of_cons in H.
    destruct (plan_step dims (g, pa, ex) sa) as [[[g1 pa1] ex1]|] eqn:E;
      simpl in H; [|discriminate H].
    apply IH in H. destruct H as (more & -> & Hmore).
    unfold plan_step in E.
    destruct (mainEffect (scored_action sa)) as [main|] eqn:Emain; simpl in E;
      [|discriminate E].
    injection E as <- <- <-.
    exists ({| explained_action := name (scored_action sa);
               main_dimension := dimension main;
               main_magnitude := magnitude main |} :: more).
    rewrite <- app_assoc. split; [reflexivity|].
    constructor; [|exact Hmore]. exists main. split; [exact Emain | reflexivity].
Qed.

(** [reduce] keeps an effect of the largest absolute magnitude. *)
Lemma mainEffect_fold (rest : list ActionEffect) :
  forall e0 : ActionEffect,
    let e := fold_left
               (fun best e =>
                  if Rgtb (Rabs (magnitude e)) (Rabs (magnitude best)) then e else best)
               rest e0 in
    In e (e0 :: rest) /\
    Rabs (magnitude e0) <= Rabs (magnitude e) /\
    Forall (fun e' => Rabs (magnitude e') <= Rabs (magnitude e)) rest.
Proof.
  induction rest as [|e1 rest IH]; intros e0; cbn [fold_left].
  - split; [left; reflexivity|]. split; [lra | constructor].
  - cbv zeta in IH.
    destruct (Rgtb (Rabs (magnitude e1)) (Rabs (magnitude e0))) eqn:E.
    + apply Rgtb_spec in E. destruct (IH e1) as (Hin & Hle & Hall).
      split; [right; exact Hin|]. split; [lra|]. constructor; assumption.
    + assert (Hle1 : Rabs (magnitude e1) <= Rabs (magnitude e0)).
      { unfold Rgtb in E. destruct (Rlt_dec _ _); [discriminate | lra]. }
      destruct (IH e0) as (Hin & Hle & Hall).
      split; [destruct Hin as [Hin | Hin]; [left; exact Hin | right; right; exact Hin]|].
      split; [exact Hle|]. constructor; [lra | exact Hall].
Qed.

Lemma mainEffect_max (a : Action) (e : ActionEffect) :
  mainEffect a = Ok e ->
  In e (effects a) /\
  Forall (fun e' => Rabs (magnitude e') <= Rabs (magnitude e)) (effects a).
Proof.
  unfold mainEffect. destruct (effects a) as [|e0 rest]; [discriminate|].
  intros [= <-]. destruct (mainEffect_fold rest e0) as (Hin & Hle & Hall).
  split; [exact Hin|]. constructor; assumption.
Qed.

(** What [plan] returns, read off the selected actions. *)
Lemma plan_unfold (p : t) (cur tgt : gmap string R)
    (constraints : option Constraints) (pl : InterventionPlan) :
  plan p cur tgt constraints = Ok pl ->
  let gap := calculateGap cur tgt in
  let selected := selectActions (config p) gap constraints in
  actions pl
  = imap (fun i sa =>
            {| action := scored_action sa; weight := score sa;
               priority := S i;
               expectedImpact := calculateImpact (scored_action sa) (dom gap) |})
         selected /\
  activeCount pl = length (actions pl) /\
  totalCost pl = fold_left (fun sum a => sum + cost (action a)) (actions pl) 0 /\
  expectedGap pl
  = sqrt (map_fold (fun _ v acc => acc + v * v) 0
            (map_imap
               (fun d v =>
                  Some (v - fold_right Rplus 0
                              (map (fun sa =>
                                      get_or_0 (calculateImpact (scored_action sa) (dom gap)) d)
                                   selected)))
               gap)) /\
  Forall2 (fun sa e =>
             exists main,
               mainEffect (scored_action sa) = Ok main /\
               e = {| explained_action := name (scored_action sa);
                      main_dimension := dimension main;
                      main_magnitude := magnitude main |})
          selected (explanation pl).
Proof.
  unfold plan.
  destruct (for_of _ _ _) as [[[g pa] ex]|] eqn:E; [|discriminate].
  intros [= <-]. cbv zeta. cbn [actions activeCount totalCost expectedGap explanation].
  pose proof (plan_loop_planned _ _ _ _ _ _ _ _ E) as Hpa.
  pose proof (plan_loop_gap _ _ _ _ _ _ _ _ E) as Hg.
  destruct (plan_loop_explanations _ _ _ _ _ _ _ _ E) as (more & Hex & Hmore).
  simpl in Hpa, Hex. subst pa g ex.
  repeat split; try reflexivity. exact Hmore.
Qed.

Lemma insert_by_score_sorted (x : ScoredAction) (l : list ScoredAction) :
  StronglySorted (fun a b => score b <= score a) l ->
  StronglySorted (fun a b => score b <= score a) (insert_by_score x l).
Proof.
  induction 1 as [|y l Hl IH Hy]; simpl.
  - repeat constructor.
  - destruct (Rle_dec (score y) (score x)) as [Hle|Hgt].
    + constructor; [constructor; assumption|].
      constructor; [exact Hle|].
      rewrite List.Forall_forall in Hy |- *. intros z Hz. specialize (Hy z Hz). simpl in *. lra.
    + constructor; [exact IH|].
      rewrite List.Forall_forall in Hy |- *. intros z Hz.
      apply insert_by_score_In in Hz. destruct Hz as [-> | Hz]; [lra | apply Hy, Hz].
Qed.

(** The scores come out of the sort in descending order. *)
Lemma sort_by_score_sorted (l : list ScoredAction) :
  StronglySorted (fun a b => score b <= score a) (sort_by_score l).
Proof.
  induction l as [|x l IH]; [constructor|].
  unfold sort_by_score in *. simpl fold_right. apply insert_by_score_sorted, IH.
Qed.

Lemma insert_by_score_length (x : ScoredAction) (l : list ScoredAction) :
  length (insert_by_score x l) = S (length l).
Proof.
  induction l as [|y l IH]; [reflexivity|]. simpl.
  destruct (Rle_dec (score y) (score x)); simpl; [reflexivity | rewrite IH; reflexivity].
Qed.

Lemma sort_by_score_length (l : list ScoredAction) :
  length (sort_by_score l) = length l.
Proof.
  induction l as [|x l IH]; [reflexivity|].
  unfold sort_by_score in *. simpl fold_right.
  rewrite insert_by_score_length, IH. reflexivity.
Qed.

Lemma filter_sorted {A : Type} (rel : A -> A -> Prop) (keep : A -> bool) (l : list A) :
  StronglySorted rel l -> StronglySorted rel (List.filter keep l).
Proof.
  induction 1 as [|y l Hl IH Hy]; simpl; [constructor|].
  destruct (keep y); [|exact IH].
  constructor; [exact IH|].
  rewrite List.Forall_forall in Hy |- *. intros z Hz. apply filter_In in Hz. apply Hy, Hz.
Qed.

Lemma firstn_sorted {A : Type} (rel : A -> A -> Prop) (n : nat) (l : list A) :
  StronglySorted rel l -> StronglySorted rel (firstn n l).
Proof.
  intros H. revert n. induction H as [|y l Hl IH Hy]; intros [|n]; simpl; try constructor.
  - apply IH.
  - rewrite List.Forall_forall in Hy |- *. intros z Hz. apply Hy, (firstn_In n), Hz.
Qed.

Lemma slice_0_sorted {A : Type} (rel : A -> A -> Prop) (end_ : Z) (l : list A) :
  StronglySorted rel l -> StronglySorted rel (slice_0 end_ l).
Proof. unfold slice_0. destruct (end_ <? 0)%Z; apply firstn_sorted. Qed.

Lemma imap_sorted {A B : Type} (rel : A -> A -> Prop) (rel' : B -> B -> Prop)
    (l : list A) :
  StronglySorted rel l ->
  forall f : nat -> A -> B,
    (forall i j x y, rel x y -> rel' (f i x) (f j y)) ->
    StronglySorted rel' (imap f l).
Proof.
  induction 1 as [|x l Hl IH Hx]; intros f Hf; [constructor|].
  rewrite imap_cons. constructor.
  - apply IH. intros i j a b. apply Hf.
  - rewrite List.Forall_forall in Hx |- *. intros z Hz.
    apply list_elem_of_In, elem_of_lookup_imap in Hz. destruct Hz as (i & y & -> & Hy).
    apply Hf, Hx, list_elem_of_In, (list_elem_of_lookup_2 _ i), Hy.
Qed.

(** The actions the filters of [plan] leave. *)
Lemma availableActions_In (cfg : PlannerConfig) (constraints : option Constraints)
    (a : Action) :
  In a (availableActions cfg constraints) <->
  In a (library cfg) /\
  (forall excluded, constraints ≫= excludeCategories = Some excluded ->
                    category a ∉ excluded) /\
  (forall d, constraints ≫= maxDuration = Some d -> d <> 0 -> duration a <= d).
Proof.
  unfold availableActions.
  destruct (constraints ≫= excludeCategories) as [excluded|];
    destruct (constraints ≫= maxDuration) as [d|];
    try destruct (Req_dec_T d 0) as [Hd|Hd];
    rewrite ?filter_In, ?negb_true_iff, ?bool_decide_eq_false.
  - split.
    + intros [Ha Hc]. split; [exact Ha|]. split; [intros ? [= <-]; exact Hc|].
      intros ? [= <-] ?. contradiction.
    + intros (Ha & Hc & _). split; [exact Ha | apply Hc; reflexivity].
  - split.
    + intros [[Ha Hc] Hdur]. split; [exact Ha|]. split; [intros ? [= <-]; exact Hc|].
      intros ? [= <-] _. unfold Rgtb in Hdur. destruct (Rlt_dec d (duration a)); [discriminate | lra].
    + intros (Ha & Hc & Hdur). split; [split; [exact Ha | apply Hc; reflexivity]|].
      apply Rgtb_false, Hdur; [reflexivity | exact Hd].
  - split.
    + intros [Ha Hc]. split; [exact Ha|]. split; [intros ? [= <-]; exact Hc | discriminate].
    + intros (Ha & Hc & _). split; [exact Ha | apply Hc; reflexivity].
  - split.
    + intros Ha. split; [exact Ha|]. split; [discriminate|]. intros ? [= <-] ?. contradiction.
    + intros (Ha & _). exact Ha.
  - split.
    + intros [Ha Hdur]. split; [exact Ha|]. split; [discriminate|].
      intros ? [= <-] _. unfold Rgtb in Hdur. destruct (Rlt_dec d (duration a)); [discriminate | lra].
    + intros (Ha & _ & Hdur). split; [exact Ha|]. apply Rgtb_false, Hdur; [reflexivity | exact Hd].
  - split.
    + intros Ha. split; [exact Ha|]. split; discriminate.
    + intros (Ha & _). exact Ha.
Qed.

Lemma within_budget_spec (budget : option R) (a : Action) :
  within_budget budget a = true <-> forall c, budget = Some c -> cost a <= c.
Proof.
  unfold within_budget. destruct budget as [c|].
  - rewrite negb_true_iff. unfold Rgtb. destruct (Rlt_dec c (cost a)); split.
    + discriminate.
    + intros H. specialize (H c eq_refl). lra.
    + intros _ ? [= <-]. lra.
    + reflexivity.
  - split; [discriminate | reflexivity].
Qed.

(** The scored actions: every available action within the budget, once. *)
Lemma scoreActions_In_iff (cfg : PlannerConfig) (available : list Action)
    (gap : gmap string R) (budget : option R) (sa : ScoredAction) :
  In sa (scoreActions cfg available gap budget) <->
  In (scored_action sa) available /\
  within_budget budget (scored_action sa) = true /\
  score sa = score_action cfg gap (scored_action sa).
Proof.
  split; [apply scoreActions_In|].
  intros (Ha & Hb & Hs). unfold scoreActions. rewrite sort_by_score_In, in_map_iff.
  exists (scored_action sa). split.
  - destruct sa as [a s]. simpl in *. rewrite Hs. reflexivity.
  - apply filter_In. split; assumption.
Qed.

Lemma selectActions_spec (cfg : PlannerConfig) (gap : gmap string R)
    (constraints : option Constraints) (sa : ScoredAction) :
  In sa (selectActions cfg gap constraints) ->
  In (scored_action sa) (availableActions cfg constraints) /\
  within_budget (constraints ≫= maxCost) (scored_action sa) = true /\
  score sa = score_action cfg gap (scored_action sa) /\
  0.1 < score sa.
Proof.
  unfold selectActions. intros H. apply slice_0_In, filter_In in H.
  destruct H as [H Hs]. apply scoreActions_In in H. apply Rgtb_spec in Hs. tauto.
Qed.

Lemma selectActions_sorted (cfg : PlannerConfig) (gap : gmap string R)
    (constraints : option Constraints) :
  StronglySorted (fun a b => score b <= score a) (selectActions cfg gap constraints).
Proof.
  unfold selectActions, scoreActions.
  apply slice_0_sorted, filter_sorted, sort_by_score_sorted.
Qed.

Lemma selectActions_length (cfg : PlannerConfig) (gap : gmap string R)
    (constraints : option Constraints) :
  (length (selectActions cfg gap constraints) <= length (library cfg))%nat /\
  ((0 <= maxActions cfg)%Z ->
   (Z.of_nat (length (selectActions cfg gap constraints)) <= maxActions cfg)%Z).
Proof.
  unfold selectActions. rewrite slice_0_length.
  set (passing := List.filter _ _).
  assert (Hp : (length passing <= length (library cfg))%nat).
  { unfold passing. etransitivity; [apply filter_length_le|].
    unfold scoreActions. rewrite sort_by_score_length, length_map.
    etransitivity; [apply filter_length_le|].
    unfold availableActions.
    destruct (constraints ≫= maxDuration) as [d|];
      [destruct (Req_dec_T d 0); [|etransitivity; [apply filter_length_le|]]|];
      (destruct (constraints ≫= excludeCategories);
         [apply filter_length_le | reflexivity]). }
  split.
  - destruct (maxActions cfg <? 0)%Z; lia.
  - intros Hn. destruct (maxActions cfg <? 0)%Z eqn:E; [apply Z.ltb_lt in E; lia | lia].
Qed.

Lemma Forall2_imap_l {A B C : Type} (P : B -> C -> Prop) (Q : A -> C -> Prop)
    (l : list A) (l' : list C) :
  Forall2 Q l l' ->
  forall f : nat -> A -> B,
    (forall i x y, Q x y -> P (f i x) y) -> Forall2 P (imap f l) l'.
Proof.
  induction 1 as [|x y l l' Hxy _ IH]; intros f Hf; [constructor|].
  rewrite imap_cons. constructor; [apply Hf, Hxy|].
  apply IH. intros i a b. apply Hf.
Qed.

(** An action that can only overshoot scores 0: none of its effects is on
    a dimension with a gap. *)
Lemma score_action_zero (cfg : PlannerConfig) (gap : gmap string R) (a : Action) :
  0 <= lambda cfg -> 0 <= costWeight cfg -> 0 <= cost a ->
  Forall (fun e => 0 <= confidence e /\ get_or_0 gap (dimension e) = 0) (effects a) ->
  score_action cfg gap a = 0.
Proof.
  intros Hl Hw Hc Heff. unfold score_action. rewrite score_effects_sum.
  set (b := fold_right Rplus 0 (map (fun e => fst (score_effect gap (0, 0) e)) (effects a))).
  set (w := fold_right Rplus 0 (map confidence (effects a))).
  assert (Hbw : b <= 0 /\ 0 <= w).
  { unfold b, w. clear b w. induction Heff as [|e es [Hconf Hgap] _ IH]; cbn [map fold_right]; [lra|].
    destruct IH as [IHb IHw].
    destruct (score_effect_cases gap e) as (_ & Hover & Hnone). cbv zeta in *.
    rewrite Hgap in *.
    assert (Hdir : ~ same_direction 0 (magnitude e)) by (unfold same_direction; lra).
    pose proof (Rabs_pos (magnitude e)) as Hm. rewrite Rabs_R0 in *.
    destruct (Rlt_le_dec (2 * 0) (Rabs (magnitude e))) as [Hlt|Hle].
    - rewrite (Hover Hdir Hlt). split; [nra | lra].
    - rewrite (Hnone Hdir Hle). split; lra. }
  destruct Hbw as [Hb Hw0]. rewrite !Rplus_0_l.
  assert (Hcw : 0 <= costWeight cfg * cost a) by (apply Rmult_le_pos; assumption).
  apply Rmax_left.
  destruct (Rgtb w 0) eqn:E; [|lra].
  apply Rgtb_spec in E.
  assert (b / w <= 0); [|lra].
  unfold Rdiv. pose proof (Rinv_0_lt_compat w E). nra.
Qed.

(** A selected action has an effect, unless the weights or its cost are
    negative. *)
Lemma selected_has_effect (cfg : PlannerConfig) (gap : gmap string R)
    (constraints : option Constraints) (sa : ScoredAction) :
  0 <= lambda cfg -> 0 <= costWeight cfg ->
  Forall (fun a => 0 <= cost a) (library cfg) ->
  In sa (selectActions cfg gap constraints) ->
  effects (scored_action sa) <> [].
Proof.
  intros Hl Hw Hcost Hsa Heff.
  pose proof (selectActions_In _ _ _ _ Hsa) as Hlib.
  apply selectActions_spec in Hsa. destruct Hsa as (_ & _ & Hscore & Hpass).
  rewrite List.Forall_forall in Hcost.
  rewrite Hscore, score_action_zero in Hpass; auto; [lra|].
  rewrite Heff. constructor.
Qed.

(** The loop raises as soon as one selected action has no effect. *)
Lemma plan_loop_raises (dims : gset string) (selected : list ScoredAction)
    (sa : ScoredAction) :
  In sa selected -> effects (scored_action sa) = [] ->
  forall acc, for_of (plan_step dims) selected acc = TypeError.
Proof.
  intros Hin Heff. induction selected as [|x selected IH]; [destruct Hin|].
  intros [[g pa] ex]. rewrite for_of_cons. destruct Hin as [-> | Hin].
  - unfold plan_step, mainEffect. rewrite Heff. reflexivity.
  - destruct (plan_step dims (g, pa, ex) x) as [acc1|]; simpl; [apply IH, Hin | reflexivity].
Qed.

Lemma sum_squares_zero (m : gmap string R) :
  (forall d v, m !! d = Some v -> v = 0) ->
  map_fold (fun _ v acc => acc + v * v) 0 m = 0.
Proof.
  apply (map_fold_weak_ind
           (fun r (m : gmap string R) => (forall d v, m !! d = Some v -> v = 0) -> r = 0)).
  - reflexivity.
  - intros i x m' r Hi IH Hall.
    rewrite (Hall i x) by apply lookup_insert_eq.
    rewrite IH; [ring|]. intros d v Hd. apply (Hall d).
    rewrite lookup_insert_ne; [exact Hd|]. intros ->. congruence.
Qed.

(** The squares of a map whose entries were rewritten, summed over the
    map as it was. *)
Lemma sum_squares_imap (h : string -> R -> R) (m : gmap string R) :
  map_fold (fun _ v acc => acc + v * v) 0 (map_imap (fun d v => Some (h d v)) m)
  = map_fold (fun d v acc => acc + h d v * h d v) 0 m.
Proof.
  induction m as [|i x m Hi IH] using map_ind.
  - rewrite map_imap_empty, !map_fold_empty. reflexivity.
  - rewrite (map_imap_insert_Some _ i x m (h i x)) by reflexivity.
    rewrite map_fold_insert_L.
    + rewrite map_fold_insert_L; [rewrite IH; reflexivity | | exact Hi].
      intros. ring.
    + intros. ring.
    + rewrite map_lookup_imap, Hi. reflexivity.
Qed.

Lemma map_imap_list {A B C : Type} (g : B -> C) (g' : A -> C) (f : nat -> A -> B)
    (l : list A) :
  (forall i x, g (f i x) = g' x) -> map g (imap f l) = map g' l.
Proof.
  intros H. revert f H. induction l as [|x l IH]; intros f H; [reflexivity|].
  rewrite imap_cons. simpl. rewrite H. f_equal. apply IH. intros i y. apply H.
Qed.

Lemma head_firstn {A : Type} (n : nat) (l : list A) (x : A) :
  head (firstn n l) = Some x -> head l = Some x.
Proof. destruct n, l; simpl; congruence. Qed.

Lemma head_slice_0 {A : Type} (end_ : Z) (l : list A) (x : A) :
  head (slice_0 end_ l) = Some x -> head l = Some x.
Proof. unfold slice_0. destruct (end_ <? 0)%Z; apply head_firstn. Qed.

(** The first entry of a descending list that passes the threshold is an
    entry of the largest score. *)
Lemma head_passing_best (l : list ScoredAction) (sa : ScoredAction) :
  StronglySorted (fun a b => score b <= score a) l ->
  head (List.filter (fun a => Rgtb (score a) 0.1) l) = Some sa ->
  In sa l /\ 0.1 < score sa /\ forall x, In x l -> score x <= score sa.
Proof.
  induction 1 as [|y l Hl IH Hy]; simpl; [discriminate|].
  destruct (Rgtb (score y) 0.1) eqn:E; simpl.
  - intros [= <-]. apply Rgtb_spec in E.
    split; [left; reflexivity|]. split; [exact E|].
    rewrite List.Forall_forall in Hy. intros x [<- | Hx]; [lra | apply Hy, Hx].
  - intros Hhead. destruct (IH Hhead) as (Hin & Hpass & Hbest).
    split; [right; exact Hin|]. split; [exact Hpass|].
    intros x [<- | Hx]; [|apply Hbest, Hx].
    unfold Rgtb in E. destruct (Rlt_dec 0.1 (score y)); [discriminate | lra].
Qed.

Lemma fold_insert_other {A B : Type} (key : A -> string) (val : A -> B)
    (l : list A) (k : string) :
  (forall x, In x l -> key x <> k) ->
  forall m0 : gmap string B,
    fold_left (fun m x => <[key x := val x]> m) l m0 !! k = m0 !! k.
Proof.
  induction l as [|y l IH]; intros Hk m0; [reflexivity|]. simpl.
  rewrite IH by (intros x Hx; apply Hk; right; exact Hx).
  apply lookup_insert_ne, Hk. left. reflexivity.
Qed.

(** Inserting under keys that do not repeat keeps every entry. *)
Lemma fold_insert_lookup {A B : Type} (key : A -> string) (val : A -> B)
    (l : list A) (a : A) :
  NoDup (map key l) -> In a l ->
  forall m0 : gmap string B,
    fold_left (fun m x => <[key x := val x]> m) l m0 !! key a = Some (val a).
Proof.
  induction l as [|y l IH]; intros Hnd Hin m0; [destruct Hin|].
  simpl in Hnd. apply NoDup_cons in Hnd. destruct Hnd as [Hy Hnd].
  simpl. destruct Hin as [-> | Hin].
  - rewrite fold_insert_other; [apply lookup_insert_eq|].
    intros x Hx Heq. apply Hy. rewrite <- Heq. apply list_elem_of_In, in_map, Hx.
  - apply IH; assumption.
Qed.

Lemma sum_over_map_ext (q q' : string -> R -> R) (m : gmap string R) :
  (forall d v, q d v = q' d v) ->
  map_fold (fun d v acc => acc + q d v) 0 m
  = map_fold (fun d v acc => acc + q' d v) 0 m.
Proof.
  intros Hq. induction m as [|i x m Hi IH] using map_ind.
  - rewrite !map_fold_empty. reflexivity.
  - rewrite !map_fold_insert_L; [rewrite IH, Hq; reflexivity | | exact Hi | | exact Hi];
      intros; ring.
Qed.

End MorePlanner.

Section PlannerExample.

Import InterventionPlanner.

Lemma meditation_in_default : In meditation_10min DEFAULT_ACTIONS.
Proof. unfold DEFAULT_ACTIONS, meditation_10min. do 6 right. left. reflexivity. Qed.

Lemma meditation_gap :
  get_or_0 (calculateGap stressed relaxed) "stress" = 0.2 - 0.9 /\
  get_or_0 (calculateGap stressed relaxed) "energy" = 0.8 - 0.2.
Proof.
  rewrite !calculateGap_get, !get_or_0_lookup. unfold stressed, relaxed.
  repeat first [rewrite lookup_insert_eq | rewrite lookup_singleton_eq
               | rewrite lookup_insert_ne by discriminate
               | rewrite lookup_singleton_ne by discriminate].
  split; reflexivity.
Qed.

(** The action scores above the threshold between the two states. *)
Lemma meditation_score :
  0.1 < score_action meditation_only (calculateGap stressed relaxed) meditation_10min.
Proof.
  destruct meditation_gap as [Hstress Henergy].
  unfold score_action. rewrite score_effects_sum.
  cbn [effects meditation_10min map fold_right confidence].
  destruct (score_effect_cases (calculateGap stressed relaxed)
              (mkEffect "stress" (-0.4) 0.85 5)) as (H1 & _).
  destruct (score_effect_cases (calculateGap stressed relaxed)
              (mkEffect "energy" 0.1 0.6 10)) as (H2 & _).
  cbv zeta in H1, H2. cbn [dimension magnitude confidence] in H1, H2.
  rewrite Hstress in H1. rewrite Henergy in H2.
  rewrite H1 by (right; split; lra). rewrite H2 by (left; split; lra).
  replace (Rabs (0.2 - 0.9)) with 0.7 by (rewrite Rabs_left; lra).
  replace (Rabs (-0.4)) with 0.4 by (rewrite Rabs_left; lra).
  replace (Rabs (0.8 - 0.2)) with 0.6 by (rewrite Rabs_pos_eq; lra).
  replace (Rabs 0.1) with 0.1 by (rewrite Rabs_pos_eq; lra).
  rewrite !Rmin_right by lra.
  rewrite Rgtb_true by lra.
  cbn [lambda costWeight cost meditation_only meditation_10min].
  eapply Rlt_le_trans; [|apply Rmax_r].
  replace (0 + (0.85 + (0.6 + 0))) with 1.45 by lra.
  lra.
Qed.

(** So it is the one action selected, whenever the constraints let it
    through. *)
Lemma meditation_selected (constraints : option Constraints) :
  availableActions meditation_only constraints = [meditation_10min] ->
  within_budget (constraints ≫= maxCost) meditation_10min = true ->
  selectActions meditation_only (calculateGap stressed relaxed) constraints
  = [ {| scored_action := meditation_10min;
         score := score_action meditation_only (calculateGap stressed relaxed)
                    meditation_10min |} ].
Proof.
  intros Hav Hbudget. unfold selectActions, scoreActions. rewrite Hav.
  cbn [List.filter]. rewrite Hbudget.
  cbn [map sort_by_score fold_right insert_by_score List.filter score].
  rewrite Rgtb_true by apply meditation_score. reflexivity.
Qed.

Lemma meditation_planned (constraints : option Constraints) :
  availableActions meditation_only constraints = [meditation_10min] ->
  within_budget (constraints ≫= maxCost) meditation_10min = true ->
  exists pl pa,
    plan (new meditation_only) stressed relaxed constraints = Ok pl /\
    actions pl = [pa] /\ action pa = meditation_10min.
Proof.
  intros Hav Hbudget.
  destruct (plan_returns (new meditation_only) stressed relaxed constraints) as [pl Hpl].
  { repeat constructor. discriminate. }
  pose proof (plan_unfold _ _ _ _ _ Hpl) as (Hactions & _). cbv zeta in Hactions.
  cbn [config new] in Hactions. rewrite (meditation_selected _ Hav Hbudget) in Hactions.
  exists pl. eexists. split; [exact Hpl|]. split; [exact Hactions | reflexivity].
Qed.

(** The constraints of [quickWin] let the action through. *)
Lemma meditation_quick :
  let quick := Some {| maxCost := Some 0.3; maxDuration := Some 15;
                       excludeCategories := None |} in
  availableActions meditation_only quick = [meditation_10min] /\
  within_budget (quick ≫= maxCost) meditation_10min = true.
Proof.
  cbv zeta. split.
  - unfold availableActions. cbn [mbind option_bind maxDuration excludeCategories].
    destruct (Req_dec_T 15 0) as [H|_]; [lra|].
    cbn [library meditation_only List.filter].
    rewrite Rgtb_false; [reflexivity | simpl; lra].
  - cbn [mbind option_bind maxCost within_budget].
    rewrite Rgtb_false; [reflexivity | simpl; lra].
Qed.

End PlannerExample.

(** The gap has an entry for exactly the dimensions named in either
    state; a dimension missing from one state counts as 0 there; swapping
    the two states negates every entry, and a state has no gap to itself. *)
Lemma calculateGap_antisymmetric (current target : gmap string R) (d : string) :
  (is_Some (InterventionPlanner.calculateGap current target !! d)
   <-> is_Some (current !! d) \/ is_Some (target !! d)) /\
  InterventionPlanner.get_or_0 (InterventionPlanner.calculateGap current target) d
  = default 0 (target !! d) - default 0 (current !! d) /\
  InterventionPlanner.get_or_0 (InterventionPlanner.calculateGap target current) d
  = - InterventionPlanner.get_or_0 (InterventionPlanner.calculateGap current target) d /\
  InterventionPlanner.get_or_0 (InterventionPlanner.calculateGap current current) d = 0.
Proof.
  split; [|split; [|split]].
  - rewrite calculateGap_lookup.
    destruct (decide (d ∈ dom current ∪ dom target)) as [Hin|Hout].
    + rewrite elem_of_union, !elem_of_dom in Hin. split; [intros _; exact Hin | eauto].
    + rewrite elem_of_union, !elem_of_dom in Hout. split; [intros [x Hx]; discriminate Hx | tauto].
  - rewrite calculateGap_get, !get_or_0_lookup. reflexivity.
  - rewrite !calculateGap_get. ring.
  - rewrite calculateGap_get. ring.
Qed.

(** X22.  Every planned action obeys the constraints of the call: it is an
    action of the library, its category is not excluded, its duration is
    within [maxDuration] when that is given and not 0, and its cost is
    within [maxCost] when that is given.  Its weight is its score, which is
    above the selection threshold 0.1. *)
Theorem plan_respects_constraints (p : InterventionPlanner.t)
    (currentState targetState : gmap string R)
    (constraints : InterventionPlanner.Constraints)
    (pl : InterventionPlanner.InterventionPlan) :
  InterventionPlanner.plan p currentState targetState (Some constraints) = Ok pl ->
  Forall
    (fun pa =>
       let a := InterventionPlanner.action pa in
       In a (InterventionPlanner.library (InterventionPlanner.config p)) /\
       (forall excluded,
           InterventionPlanner.excludeCategories constraints = Some excluded ->
           InterventionPlanner.category a ∉ excluded) /\
       (forall d,
           InterventionPlanner.maxDuration constraints = Some d -> d <> 0 ->
           InterventionPlanner.duration a <= d) /\
       (forall c,
           InterventionPlanner.maxCost constraints = Some c ->
           InterventionPlanner.cost a <= c) /\
       InterventionPlanner.weight pa
       = InterventionPlanner.score_action (InterventionPlanner.config p)
           (InterventionPlanner.calculateGap currentState targetState) a /\
       0.1 < InterventionPlanner.weight pa)
    (InterventionPlanner.actions pl).
Proof.
  intros H. apply plan_unfold in H. destruct H as (Hactions & _).
  rewrite Hactions. apply List.Forall_forall. intros pa Hpa.
  apply list_elem_of_In, elem_of_lookup_imap in Hpa. destruct Hpa as (i & sa & -> & Hsa).
  apply list_elem_of_lookup_2, list_elem_of_In, selectActions_spec in Hsa.
  destruct Hsa as (Hav & Hbudget & Hscore & Hpass).
  apply availableActions_In in Hav. destruct Hav as (Hlib & Hcat & Hdur).
  cbn [InterventionPlanner.action InterventionPlanner.weight].
  split; [exact Hlib|]. split; [exact Hcat|]. split; [exact Hdur|].
  split; [|split; [exact Hscore | exact Hpass]].
  apply within_budget_spec, Hbudget.
Qed.

Lemma plan_respects_constraints_witness :
  let constraints :=
    {| InterventionPlanner.maxCost := Some 0.3;
       InterventionPlanner.maxDuration := Some 15;
       InterventionPlanner.excludeCategories := Some ["digital"%string] |} in
  exists pl,
    InterventionPlanner.plan (InterventionPlanner.new meditation_only) stressed relaxed
      (Some constraints) = Ok pl /\
    length (InterventionPlanner.actions pl) = 1%nat /\
    Forall
      (fun pa =>
         (InterventionPlanner.category (InterventionPlanner.action pa)
          ∉ ["digital"%string]) /\
         InterventionPlanner.duration (InterventionPlanner.action pa) <= 15 /\
         InterventionPlanner.cost (InterventionPlanner.action pa) <= 0.3 /\
         0.1 < InterventionPlanner.weight pa)
      (InterventionPlanner.actions pl).
Proof.
  intros constraints.
  destruct (meditation_planned (Some constraints)) as (pl & pa & Hpl & Hactions & _).
  - unfold InterventionPlanner.availableActions.
    cbn [mbind option_bind InterventionPlanner.maxDuration
         InterventionPlanner.excludeCategories constraints].
    destruct (Req_dec_T 15 0) as [H|_]; [lra|].
    cbn [InterventionPlanner.library meditation_only List.filter].
    replace (bool_decide
               (InterventionPlanner.category meditation_10min ∈ ["digital"%string]))
      with false by reflexivity.
    cbn [negb List.filter]. rewrite Rgtb_false; [reflexivity | simpl; lra].
  - cbn [mbind option_bind InterventionPlanner.maxCost
         InterventionPlanner.within_budget constraints].
    rewrite Rgtb_false; [reflexivity | simpl; lra].
  - exists pl. split; [exact Hpl|]. split; [rewrite Hactions; reflexivity|].
    pose proof (plan_respects_constraints _ _ _ _ _ Hpl) as Hall.
    eapply List.Forall_impl; [|exact Hall].
    intros x (_ & Hcat & Hdur & Hcost & _ & Hweight).
    split; [apply Hcat; reflexivity|].
    split; [apply Hdur; [reflexivity | lra]|].
    split; [apply Hcost; reflexivity | exact Hweight].
Defined.

(** X23.  A plan is a ranking: it has one explanation per action, the
    priorities are 1, 2, ... in order, the weights do not increase along
    the plan, there are no more actions than the library has, and no more
    than [maxActions] when that is not negative. *)
Theorem plan_is_ranked (p : InterventionPlanner.t)
    (currentState targetState : gmap string R)
    (constraints : option InterventionPlanner.Constraints)
    (pl : InterventionPlanner.InterventionPlan) :
  InterventionPlanner.plan p currentState targetState constraints = Ok pl ->
  let n := length (InterventionPlanner.actions pl) in
  InterventionPlanner.activeCount pl = n /\
  length (InterventionPlanner.explanation pl) = n /\
  map InterventionPlanner.priority (InterventionPlanner.actions pl) = seq 1 n /\
  StronglySorted
    (fun a b => InterventionPlanner.weight b <= InterventionPlanner.weight a)
    (InterventionPlanner.actions pl) /\
  (n <= length (InterventionPlanner.library (InterventionPlanner.config p)))%nat /\
  ((0 <= InterventionPlanner.maxActions (InterventionPlanner.config p))%Z ->
   (Z.of_nat n <= InterventionPlanner.maxActions (InterventionPlanner.config p))%Z).
Proof.
  intros H. apply plan_unfold in H.
  destruct H as (Hactions & Hcount & _ & _ & Hex). cbv zeta in *.
  set (selected := InterventionPlanner.selectActions _ _ _) in *.
  assert (Hlen : length (InterventionPlanner.actions pl) = length selected).
  { rewrite Hactions. apply length_imap. }
  split; [exact Hcount|].
  split; [rewrite Hlen; symmetry; apply (Forall2_length _ _ _ Hex)|].
  split.
  { rewrite Hlen, Hactions. apply list_eq. intros i.
    rewrite list_lookup_fmap, list_lookup_imap.
    destruct (selected !! i) as [sa|] eqn:E; simpl.
    - rewrite lookup_seq_lt; [reflexivity | apply lookup_lt_Some in E; exact E].
    - symmetry. apply lookup_seq_ge. apply lookup_ge_None in E. exact E. }
  split.
  { rewrite Hactions.
    apply (imap_sorted (fun a b => InterventionPlanner.score b <= InterventionPlanner.score a)).
    - apply selectActions_sorted.
    - intros i j x y Hxy. exact Hxy. }
  rewrite Hlen. apply selectActions_length.
Qed.

Lemma plan_is_ranked_witness :
  exists pl,
    InterventionPlanner.plan (InterventionPlanner.new meditation_only) stressed relaxed
      None = Ok pl /\
    InterventionPlanner.activeCount pl = 1%nat /\
    length (InterventionPlanner.explanation pl) = 1%nat /\
    map InterventionPlanner.priority (InterventionPlanner.actions pl) = [1%nat].
Proof.
  destruct (meditation_planned None) as (pl & pa & Hpl & Hactions & _);
    [reflexivity | reflexivity |].
  exists pl. split; [exact Hpl|].
  destruct (plan_is_ranked _ _ _ _ _ Hpl) as (Hcount & Hex & Hprio & _).
  rewrite Hactions in Hcount, Hex, Hprio |- *. cbn [length seq] in Hcount, Hex, Hprio.
  repeat split; assumption.
Defined.

(** X24.  Each explanation names the planned action at its rank and an
    effect of that action whose absolute magnitude no other effect of the
    action exceeds. *)
Theorem plan_explains_largest_effect (p : InterventionPlanner.t)
    (currentState targetState : gmap string R)
    (constraints : option InterventionPlanner.Constraints)
    (pl : InterventionPlanner.InterventionPlan) :
  InterventionPlanner.plan p currentState targetState constraints = Ok pl ->
  Forall2
    (fun pa ex =>
       InterventionPlanner.explained_action ex
       = InterventionPlanner.name (InterventionPlanner.action pa) /\
       exists e,
         In e (InterventionPlanner.effects (InterventionPlanner.action pa)) /\
         InterventionPlanner.main_dimension ex = InterventionPlanner.dimension e /\
         InterventionPlanner.main_magnitude ex = InterventionPlanner.magnitude e /\
         Forall (fun e' => Rabs (InterventionPlanner.magnitude e')
                           <= Rabs (InterventionPlanner.magnitude e))
                (InterventionPlanner.effects (InterventionPlanner.action pa)))
    (InterventionPlanner.actions pl) (InterventionPlanner.explanation pl).
Proof.
  intros H. apply plan_unfold in H.
  destruct H as (Hactions & _ & _ & _ & Hex). cbv zeta in *.
  rewrite Hactions. clear Hactions.
  apply (Forall2_imap_l _ _ _ _ Hex). intros i sa ex (main & Hmain & ->).
  cbn [InterventionPlanner.action InterventionPlanner.explained_action
       InterventionPlanner.main_dimension InterventionPlanner.main_magnitude].
  split; [reflexivity|]. exists main.
  destruct (mainEffect_max _ _ Hmain) as [Hin Hall]. auto.
Qed.

Lemma plan_explains_largest_effect_witness :
  exists pl,
    InterventionPlanner.plan (InterventionPlanner.new meditation_only) stressed relaxed
      None = Ok pl /\
    Forall2
      (fun pa ex =>
         InterventionPlanner.explained_action ex
         = InterventionPlanner.name (InterventionPlanner.action pa) /\
         exists e,
           In e (InterventionPlanner.effects (InterventionPlanner.action pa)) /\
           InterventionPlanner.main_dimension ex = InterventionPlanner.dimension e /\
           InterventionPlanner.main_magnitude ex = InterventionPlanner.magnitude e /\
           Forall (fun e' => Rabs (InterventionPlanner.magnitude e')
                             <= Rabs (InterventionPlanner.magnitude e))
                  (InterventionPlanner.effects (InterventionPlanner.action pa)))
      (InterventionPlanner.actions pl) (InterventionPlanner.explanation pl).
Proof.
  destruct (meditation_planned None) as (pl & pa & Hpl & _);
    [reflexivity | reflexivity |].
  exists pl. split; [exact Hpl|].
  exact (plan_explains_largest_effect _ _ _ _ _ Hpl).
Defined.

(** X25.  At the target nothing is planned.  When the two states agree on
    every dimension (a missing one counting as 0) and neither the weights
    of the planner, nor the costs, nor the confidences of the library are
    negative, [plan] returns the empty plan: no action, no explanation, no
    cost, and the expected gap 0. *)
Theorem plan_at_target_is_empty (p : InterventionPlanner.t)
    (currentState targetState : gmap string R)
    (constraints : option InterventionPlanner.Constraints) :
  0 <= InterventionPlanner.lambda (InterventionPlanner.config p) ->
  0 <= InterventionPlanner.costWeight (InterventionPlanner.config p) ->
  Forall (fun a => 0 <= InterventionPlanner.cost a /\
                   Forall (fun e => 0 <= InterventionPlanner.confidence e)
                          (InterventionPlanner.effects a))
         (InterventionPlanner.library (InterventionPlanner.config p)) ->
  (forall d, default 0 (targetState !! d) = default 0 (currentState !! d)) ->
  exists pl,
    InterventionPlanner.plan p currentState targetState constraints = Ok pl /\
    InterventionPlanner.actions pl = [] /\
    InterventionPlanner.explanation pl = [] /\
    InterventionPlanner.activeCount pl = 0%nat /\
    InterventionPlanner.totalCost pl = 0 /\
    InterventionPlanner.expectedGap pl = 0.
Proof.
  intros Hl Hw Hlib Hsame.
  set (gap := InterventionPlanner.calculateGap currentState targetState).
  assert (Hgap : forall d, InterventionPlanner.get_or_0 gap d = 0).
  { intros d. unfold gap. rewrite calculateGap_get, !get_or_0_lookup, Hsame. ring. }
  assert (Hnone : InterventionPlanner.selectActions (InterventionPlanner.config p) gap
                    constraints = []).
  { destruct (InterventionPlanner.selectActions _ _ _) as [|sa rest] eqn:E; [reflexivity|].
    exfalso.
    assert (Hsa : In sa (InterventionPlanner.selectActions (InterventionPlanner.config p)
                           gap constraints)) by (rewrite E; left; reflexivity).
    pose proof (selectActions_In _ _ _ _ Hsa) as Hin.
    apply selectActions_spec in Hsa. destruct Hsa as (_ & _ & Hscore & Hpass).
    rewrite List.Forall_forall in Hlib. destruct (Hlib _ Hin) as [Hcost Hconf].
    rewrite Hscore, score_action_zero in Hpass; auto; [lra|].
    apply List.Forall_forall. intros e He. rewrite List.Forall_forall in Hconf. auto. }
  unfold InterventionPlanner.plan. fold gap. rewrite Hnone. simpl.
  eexists. split; [reflexivity|]. simpl. repeat split; try reflexivity.
  rewrite sum_squares_zero; [apply sqrt_0|].
  intros d v Hd. rewrite <- (Hgap d), get_or_0_lookup, Hd. reflexivity.
Qed.

Lemma plan_at_target_is_empty_witness :
  exists pl,
    InterventionPlanner.plan
      (InterventionPlanner.new InterventionPlanner.DEFAULT_PLANNER_CONFIG)
      relaxed relaxed None = Ok pl /\
    InterventionPlanner.actions pl = [] /\
    InterventionPlanner.explanation pl = [] /\
    InterventionPlanner.activeCount pl = 0%nat /\
    InterventionPlanner.totalCost pl = 0 /\
    InterventionPlanner.expectedGap pl = 0.
Proof.
  apply plan_at_target_is_empty.
  - simpl. lra.
  - simpl. lra.
  - repeat constructor; simpl; lra.
  - reflexivity.
Defined.

(** X26.  [plan] does not raise when neither the weights of the planner
    nor the costs of the library are negative: an action with no effect,
    on which [reduce] would raise, then scores 0 and is never selected. *)
Theorem plan_never_raises (p : InterventionPlanner.t)
    (currentState targetState : gmap string R)
    (constraints : option InterventionPlanner.Constraints) :
  0 <= InterventionPlanner.lambda (InterventionPlanner.config p) ->
  0 <= InterventionPlanner.costWeight (InterventionPlanner.config p) ->
  Forall (fun a => 0 <= InterventionPlanner.cost a)
         (InterventionPlanner.library (InterventionPlanner.config p)) ->
  exists pl, InterventionPlanner.plan p currentState targetState constraints = Ok pl.
Proof.
  intros Hl Hw Hcost. unfold InterventionPlanner.plan.
  set (gap := InterventionPlanner.calculateGap currentState targetState).
  destruct (plan_loop_returns (dom gap)
              (InterventionPlanner.selectActions (InterventionPlanner.config p) gap
                 constraints))
    with (acc := (gap, @nil InterventionPlanner.PlannedAction,
                  @nil InterventionPlanner.Explanation))
    as [[[g pa] ex] ->].
  - apply List.Forall_forall. intros sa Hsa.
    apply (selected_has_effect (InterventionPlanner.config p) gap constraints); assumption.
  - eexists. reflexivity.
Qed.

Lemma plan_never_raises_witness :
  exists pl,
    InterventionPlanner.plan
      (InterventionPlanner.new InterventionPlanner.DEFAULT_PLANNER_CONFIG)
      stressed relaxed None = Ok pl.
Proof.
  apply plan_never_raises.
  - simpl. lra.
  - simpl. lra.
  - repeat constructor; simpl; lra.
Defined.

(** X27.  [plan] raises a [TypeError] when it selects an action with no
    effect: with no constraints and room for the whole library, that is
    the case as soon as the library has such an action for which
    [lambda + costWeight * cost] is below -0.1. *)
Theorem plan_raises_on_effectless_action (p : InterventionPlanner.t)
    (currentState targetState : gmap string R) (a : InterventionPlanner.Action) :
  In a (InterventionPlanner.library (InterventionPlanner.config p)) ->
  InterventionPlanner.effects a = [] ->
  InterventionPlanner.lambda (InterventionPlanner.config p)
  + InterventionPlanner.costWeight (InterventionPlanner.config p)
    * InterventionPlanner.cost a < - (0.1) ->
  (Z.of_nat (length (InterventionPlanner.library (InterventionPlanner.config p)))
   <= InterventionPlanner.maxActions (InterventionPlanner.config p))%Z ->
  InterventionPlanner.plan p currentState targetState None = TypeError.
Proof.
  intros Hin Heff Hneg Hroom. unfold InterventionPlanner.plan.
  set (cfg := InterventionPlanner.config p) in *.
  set (gap := InterventionPlanner.calculateGap currentState targetState).
  set (s := InterventionPlanner.score_action cfg gap a).
  assert (Hs : 0.1 < s).
  { unfold s, InterventionPlanner.score_action. rewrite Heff. cbn [fold_left].
    rewrite Rgtb_false by lra.
    eapply Rlt_le_trans; [|apply Rmax_r]. lra. }
  rewrite (plan_loop_raises _ _ (InterventionPlanner.mkScored a s)); [reflexivity | | exact Heff].
  unfold InterventionPlanner.selectActions.
  set (passing := List.filter _ _).
  assert (Hpassing : In (InterventionPlanner.mkScored a s) passing).
  { unfold passing. apply filter_In. split; [|apply Rgtb_true; exact Hs].
    apply scoreActions_In_iff. simpl. repeat split. exact Hin. }
  assert (Hlen : (length passing <= length (InterventionPlanner.library cfg))%nat).
  { unfold passing. etransitivity; [apply filter_length_le|].
    unfold InterventionPlanner.scoreActions.
    rewrite sort_by_score_length, length_map. apply filter_length_le. }
  unfold slice_0.
  destruct (InterventionPlanner.maxActions cfg <? 0)%Z eqn:E; [apply Z.ltb_lt in E; lia|].
  rewrite firstn_all2 by lia. exact Hpassing.
Qed.

Lemma plan_raises_on_effectless_action_witness :
  let rest := InterventionPlanner.mkAction "rest" "Do nothing" "recovery" 0 0 [] in
  let cfg :=
    {| InterventionPlanner.lambda := - (0.5);
       InterventionPlanner.maxActions := 5;
       InterventionPlanner.costWeight := 0.3;
       InterventionPlanner.library := [rest] |} in
  InterventionPlanner.plan (InterventionPlanner.new cfg) stressed relaxed None = TypeError.
Proof.
  intros rest cfg.
  apply (plan_raises_on_effectless_action (InterventionPlanner.new cfg) stressed relaxed rest).
  - left. reflexivity.
  - reflexivity.
  - simpl. lra.
  - simpl. lia.
Defined.

(** X28.  [quickWin] returns the best action that costs at most 0.3 and
    takes at most 15 minutes: the action it returns is one of the library
    within both limits, has the priority 1 and a score above 0.1, and no
    action of the library within the limits scores higher.  When it
    returns [null] although [maxActions] is positive, no action within
    the limits scores above 0.1. *)
Theorem quickWin_is_best_eligible (p : InterventionPlanner.t)
    (currentState targetState : gmap string R)
    (r : option InterventionPlanner.PlannedAction) :
  InterventionPlanner.quickWin p currentState targetState = Ok r ->
  let cfg := InterventionPlanner.config p in
  let gap := InterventionPlanner.calculateGap currentState targetState in
  match r with
  | Some pa =>
      let a := InterventionPlanner.action pa in
      In a (InterventionPlanner.library cfg) /\
      InterventionPlanner.cost a <= 0.3 /\
      InterventionPlanner.duration a <= 15 /\
      InterventionPlanner.priority pa = 1%nat /\
      InterventionPlanner.weight pa = InterventionPlanner.score_action cfg gap a /\
      0.1 < InterventionPlanner.weight pa /\
      forall a',
        In a' (InterventionPlanner.library cfg) ->
        InterventionPlanner.cost a' <= 0.3 ->
        InterventionPlanner.duration a' <= 15 ->
        InterventionPlanner.score_action cfg gap a' <= InterventionPlanner.weight pa
  | None =>
      (0 < InterventionPlanner.maxActions cfg)%Z ->
      forall a',
        In a' (InterventionPlanner.library cfg) ->
        InterventionPlanner.cost a' <= 0.3 ->
        InterventionPlanner.duration a' <= 15 ->
        InterventionPlanner.score_action cfg gap a' <= 0.1
  end.
Proof.
  intros Hq cfg gap. unfold InterventionPlanner.quickWin in Hq.
  set (cs := Some _) in Hq.
  destruct (InterventionPlanner.plan p currentState targetState cs) as [pl|] eqn:Hplan;
    simpl in Hq; [|discriminate Hq].
  injection Hq as <-.
  apply plan_unfold in Hplan. destruct Hplan as (Hactions & _). cbv zeta in Hactions.
  fold cfg gap in Hactions. rewrite Hactions. clear Hactions.
  assert (Heligible : forall a',
             In a' (InterventionPlanner.library cfg) ->
             InterventionPlanner.cost a' <= 0.3 ->
             InterventionPlanner.duration a' <= 15 ->
             In (InterventionPlanner.mkScored a' (InterventionPlanner.score_action cfg gap a'))
                (InterventionPlanner.scoreActions cfg
                   (InterventionPlanner.availableActions cfg cs) gap
                   (cs ≫= InterventionPlanner.maxCost))).
  { intros a' Hin Hc Hd. apply scoreActions_In_iff. simpl. split; [|split; [|reflexivity]].
    - apply availableActions_In. split; [exact Hin|]. split; [discriminate|].
      intros d [= <-] _. exact Hd.
    - apply negb_true_iff, Rgtb_false, Hc. }
  unfold InterventionPlanner.selectActions.
  set (scores := InterventionPlanner.scoreActions _ _ _ _) in *.
  set (passing := List.filter _ scores).
  destruct (slice_0 (InterventionPlanner.maxActions cfg) passing) as [|sa rest] eqn:E.
  - simpl. intros Hpos a' Hin Hc Hd.
    assert (Hnil : passing = []).
    { unfold slice_0 in E. destruct (InterventionPlanner.maxActions cfg <? 0)%Z eqn:En;
        [apply Z.ltb_lt in En; lia|].
      destruct passing as [|x passing']; [reflexivity|].
      destruct (Z.to_nat (InterventionPlanner.maxActions cfg)) eqn:Ez; [lia | discriminate E]. }
    specialize (Heligible a' Hin Hc Hd).
    destruct (Rle_dec (InterventionPlanner.score_action cfg gap a') 0.1) as [Hle|Hgt];
      [exact Hle | exfalso].
    assert (Hp : In (InterventionPlanner.mkScored a'
                       (InterventionPlanner.score_action cfg gap a')) passing).
    { apply filter_In. split; [exact Heligible | apply Rgtb_true; simpl; lra]. }
    rewrite Hnil in Hp. destruct Hp.
  - rewrite imap_cons. cbn [head InterventionPlanner.action InterventionPlanner.weight
                            InterventionPlanner.priority].
    assert (Hhead : head passing = Some sa).
    { apply (head_slice_0 (InterventionPlanner.maxActions cfg)). rewrite E. reflexivity. }
    apply head_passing_best in Hhead; [|apply sort_by_score_sorted].
    destruct Hhead as (Hin & Hpass & Hbest).
    apply scoreActions_In in Hin. destruct Hin as (Hav & Hbudget & Hscore).
    apply availableActions_In in Hav. destruct Hav as (Hlib & _ & Hdur).
    split; [exact Hlib|].
    split; [apply (proj1 (within_budget_spec _ _) Hbudget); reflexivity|].
    split; [apply Hdur; [reflexivity | lra]|].
    split; [reflexivity|]. split; [exact Hscore|]. split; [exact Hpass|].
    intros a' Hin' Hc Hd. apply (Hbest _ (Heligible a' Hin' Hc Hd)).
Qed.

Lemma quickWin_is_best_eligible_witness :
  exists pa,
    InterventionPlanner.quickWin (InterventionPlanner.new meditation_only)
      stressed relaxed = Ok (Some pa) /\
    InterventionPlanner.action pa = meditation_10min /\
    InterventionPlanner.priority pa = 1%nat /\
    0.1 < InterventionPlanner.weight pa.
Proof.
  destruct meditation_quick as [Hav Hbudget].
  destruct (meditation_planned _ Hav Hbudget) as (pl & pa & Hpl & Hactions & Hpa).
  assert (Hq : InterventionPlanner.quickWin (InterventionPlanner.new meditation_only)
                 stressed relaxed = Ok (Some pa)).
  { unfold InterventionPlanner.quickWin. rewrite Hpl. simpl. rewrite Hactions. reflexivity. }
  exists pa. split; [exact Hq|]. split; [exact Hpa|].
  pose proof (quickWin_is_best_eligible _ _ _ _ Hq) as H. cbv zeta in H.
  destruct H as (_ & _ & _ & Hprio & _ & Hweight & _). auto.
Defined.

(** X29.  The expected gap of a plan is the Euclidean norm of what is left
    of the gap: over the dimensions of the gap, the gap of the dimension
    minus the expected impacts of all the planned actions on it. *)
Theorem plan_expectedGap_is_residual (p : InterventionPlanner.t)
    (currentState targetState : gmap string R)
    (constraints : option InterventionPlanner.Constraints)
    (pl : InterventionPlanner.InterventionPlan) :
  InterventionPlanner.plan p currentState targetState constraints = Ok pl ->
  let gap := InterventionPlanner.calculateGap currentState targetState in
  let impact d :=
    fold_right Rplus 0
      (map (fun pa =>
              InterventionPlanner.get_or_0 (InterventionPlanner.expectedImpact pa) d)
           (InterventionPlanner.actions pl)) in
  InterventionPlanner.expectedGap pl
  = sqrt (map_fold (fun d g acc => acc + (g - impact d) * (g - impact d)) 0 gap) /\
  0 <= InterventionPlanner.expectedGap pl /\
  Forall (fun pa => dom (InterventionPlanner.expectedImpact pa) = dom gap)
         (InterventionPlanner.actions pl).
Proof.
  intros H. apply plan_unfold in H.
  destruct H as (Hactions & _ & _ & Hgap & _). cbv zeta in *.
  set (gap := InterventionPlanner.calculateGap currentState targetState) in *.
  set (selected := InterventionPlanner.selectActions _ _ _) in *.
  assert (Himpact : forall d,
             map (fun pa => InterventionPlanner.get_or_0
                              (InterventionPlanner.expectedImpact pa) d)
                 (InterventionPlanner.actions pl)
             = map (fun sa => InterventionPlanner.get_or_0
                                (InterventionPlanner.calculateImpact
                                   (InterventionPlanner.scored_action sa) (dom gap)) d)
                   selected).
  { intros d. rewrite Hactions. apply map_imap_list. reflexivity. }
  split; [|split].
  - rewrite Hgap, sum_squares_imap. f_equal.
    apply sum_over_map_ext. intros d v. rewrite Himpact. reflexivity.
  - rewrite Hgap. apply sqrt_pos.
  - rewrite Hactions. apply List.Forall_forall. intros pa Hpa.
    apply list_elem_of_In, elem_of_lookup_imap in Hpa. destruct Hpa as (i & sa & -> & _).
    cbn [InterventionPlanner.expectedImpact].
    apply set_eq. intros d. rewrite elem_of_dom, calculateImpact_lookup.
    destruct (decide (d ∈ dom gap)) as [Hin|Hout]; split; intros H;
      try exact Hin; try (eexists; reflexivity); try contradiction.
    destruct H as [x Hx]. discriminate Hx.
Qed.

Lemma plan_expectedGap_is_residual_witness :
  exists pl,
    InterventionPlanner.plan (InterventionPlanner.new meditation_only) stressed relaxed
      None = Ok pl /\
    length (InterventionPlanner.actions pl) = 1%nat /\
    0 <= InterventionPlanner.expectedGap pl /\
    Forall (fun pa => dom (InterventionPlanner.expectedImpact pa)
                      = dom (InterventionPlanner.calculateGap stressed relaxed))
           (InterventionPlanner.actions pl).
Proof.
  destruct (meditation_planned None) as (pl & pa & Hpl & Hactions & _);
    [reflexivity | reflexivity |].
  exists pl. split; [exact Hpl|]. split; [rewrite Hactions; reflexivity|].
  pose proof (plan_expectedGap_is_residual _ _ _ _ _ Hpl) as H. cbv zeta in H.
  destruct H as (_ & Hpos & Hdom). auto.
Defined.

(** X30.  The causal matrix the constructor builds agrees with the impact
    [plan] computes.  When the actions of the library have different ids
    and the effects of an action are on different dimensions, the row of
    the action holds [magnitude * confidence] under the dimension of each
    of its effects and nothing else, and the expected impact of the action
    on a dimension of the gap is the entry of the row, 0 where the row has
    none. *)
Theorem causalMatrix_agrees_with_impact (cfg : InterventionPlanner.PlannerConfig)
    (a : InterventionPlanner.Action) (dimensions : gset string) (d : string) :
  NoDup (map InterventionPlanner.id (InterventionPlanner.library cfg)) ->
  In a (InterventionPlanner.library cfg) ->
  NoDup (map InterventionPlanner.dimension (InterventionPlanner.effects a)) ->
  d ∈ dimensions ->
  exists row,
    InterventionPlanner.causalMatrix (InterventionPlanner.new cfg)
      !! InterventionPlanner.id a = Some row /\
    (forall e, In e (InterventionPlanner.effects a) ->
               row !! InterventionPlanner.dimension e
               = Some (InterventionPlanner.magnitude e * InterventionPlanner.confidence e)) /\
    (forall d', is_Some (row !! d')
                <-> In d' (map InterventionPlanner.dimension
                               (InterventionPlanner.effects a))) /\
    InterventionPlanner.calculateImpact a dimensions !! d = Some (default 0 (row !! d)).
Proof.
  intros Hids Hin Hdims Hd.
  set (row := fold_left
                (fun es e => <[InterventionPlanner.dimension e
                               := InterventionPlanner.magnitude e
                                  * InterventionPlanner.confidence e]> es)
                (InterventionPlanner.effects a) (∅ : gmap string R)).
  exists row.
  assert (Hrow : forall e, In e (InterventionPlanner.effects a) ->
                           row !! InterventionPlanner.dimension e
                           = Some (InterventionPlanner.magnitude e
                                   * InterventionPlanner.confidence e)).
  { intros e He. unfold row.
    apply (fold_insert_lookup InterventionPlanner.dimension
             (fun e => InterventionPlanner.magnitude e * InterventionPlanner.confidence e));
      assumption. }
  assert (Hnone : forall d', ~ In d' (map InterventionPlanner.dimension
                                          (InterventionPlanner.effects a)) ->
                             row !! d' = None).
  { intros d' Hd'. unfold row.
    rewrite (fold_insert_other InterventionPlanner.dimension
               (fun e => InterventionPlanner.magnitude e * InterventionPlanner.confidence e)).
    - apply lookup_empty.
    - intros x Hx Heq. apply Hd'. rewrite <- Heq. apply in_map, Hx. }
  split; [|split; [exact Hrow|split]].
  - unfold InterventionPlanner.new, InterventionPlanner.buildCausalMatrix. simpl.
    apply (fold_insert_lookup InterventionPlanner.id
             (fun a => fold_left
                         (fun es e => <[InterventionPlanner.dimension e
                                        := InterventionPlanner.magnitude e
                                           * InterventionPlanner.confidence e]> es)
                         (InterventionPlanner.effects a) (∅ : gmap string R)));
      assumption.
  - intros d'. split.
    + intros Hsome.
      destruct (in_dec String.string_dec d'
                  (map InterventionPlanner.dimension (InterventionPlanner.effects a)))
        as [Hyes|Hno]; [exact Hyes|].
      rewrite (Hnone d' Hno) in Hsome. destruct Hsome as [x Hx]. discriminate Hx.
    + intros Hd'. apply in_map_iff in Hd'. destruct Hd' as (e & <- & He).
      rewrite (Hrow e He). eexists. reflexivity.
  - rewrite calculateImpact_lookup.
    destruct (decide (d ∈ dimensions)) as [_|Hout]; [|contradiction].
    f_equal.
    destruct (find _ _) as [e1|] eqn:E.
    + apply find_some in E. destruct E as [He Heq]. apply String.eqb_eq in Heq. subst d.
      rewrite (Hrow e1 He). reflexivity.
    + rewrite Hnone; [reflexivity|]. intros Hd'. apply in_map_iff in Hd'.
      destruct Hd' as (e1 & Heq & He).
      apply (find_none _ _ E) in He. rewrite Heq, String.eqb_refl in He. discriminate He.
Qed.

Lemma causalMatrix_agrees_with_impact_witness :
  exists row,
    InterventionPlanner.causalMatrix
      (InterventionPlanner.new InterventionPlanner.DEFAULT_PLANNER_CONFIG)
      !! "meditation_10min"%string = Some row /\
    row !! "stress"%string = Some (-0.4 * 0.85) /\
    InterventionPlanner.calculateImpact meditation_10min {[ "stress"%string ]}
      !! "stress"%string = Some (default 0 (row !! "stress"%string)).
Proof.
  destruct (causalMatrix_agrees_with_impact InterventionPlanner.DEFAULT_PLANNER_CONFIG
              meditation_10min {[ "stress"%string ]} "stress")
    as (row & Hrow & Heff & _ & Himpact).
  - simpl. repeat constructor; rewrite ?list_elem_of_In; simpl; intuition discriminate.
  - apply meditation_in_default.
  - simpl. repeat constructor; rewrite ?list_elem_of_In; simpl; intuition discriminate.
  - apply elem_of_singleton. reflexivity.
  - exists row. split; [exact Hrow|]. split; [|exact Himpact].
    apply (Heff (InterventionPlanner.mkEffect "stress" (-0.4) 0.85 5)).
    left. reflexivity.
Defined.
